(** * The query bus: dispatch engine, cache integration and iterator pool

    A shallow embedding of [Bus] and its methods.  The collaborators the
    engine only sees through interfaces (handlers, error handlers, cache
    adapters) are records of functions over an arbitrary world [W]; every
    call the engine makes on one of them is logged as an [Event], so that
    "is invoked", "is never invoked" and "in this order" become statements
    about the emitted trace.  Goroutines (pool workers, [Shutdown] callers)
    are program counters in a labelled transition system over the bus.

    What the embedding fixes:
    - a result passed by pointer is handed to a handler and handed back as
      the handler left it; a cache adapter reads the result it is given
      and does not change it;
    - a worker's turn on one pending query is one step of the system, and
      so is an [IteratorQuery] call (validation, allocation and send); the
      pool with racing workers takes the turn apart, the receive in one
      step and the service in a later one, for what depends on the
      workers overtaking each other;
    - the listener timeout is not measured: a worker decides on the
      readiness signal of the iterator result as it stands when the
      worker's step is taken, so that a consumer attaching before that
      step is in time and one attaching after it is late;
    - [time.Time] is a number of nanoseconds and [Add] is addition. *)

From stdpp Require Import prelude strings gmap.
From Stdlib Require Import ZArith Lia.

Set Implicit Arguments.

(** ** Values the engine passes around *)

(** [context.Context] and the [interface{}] payloads are opaque to the bus. *)
Definition Ctx := string.
Definition Value := string.

(** [time.Time] and [time.Duration], both counted in nanoseconds. *)
Definition Time := Z.
Definition Duration := Z.

(** The [Cacheable] extension of a query. *)
Record Cacheable := {
  CacheKey : string;
  CacheDuration : Duration
}.

(** A non-nil query value: its identity and, when the dynamic type
    implements it, the [Cacheable] methods. *)
Record QueryVal := {
  ID : string;
  cacheable : option Cacheable
}.

(** The [Query] interface; [None] is Go's nil interface value. *)
Definition Query := option QueryVal.

(** The type assertion [qry.(Cacheable)]; it fails on nil. *)
Definition asCacheable (qry : Query) : option Cacheable :=
  match qry with
  | Some q => cacheable q
  | None => None
  end.

(** Modelled from the spec: the error values of the package (their
    constructors are not part of the bus file).  One constructor per entry
    of the taxonomy, and handler errors as opaque messages.  A Go [error]
    is an [option Err], [None] being nil. *)
Inductive Err :=
| InvalidQueryError
| BusNotInitializedError
| BusIsShuttingDownError
| ErrorNoQueryHandlersFound (qry : Query)
| ErrorQueryTimedOut (qry : Query)
| HandlerError (msg : string).

Definition NewErrorNoQueryHandlersFound (qry : Query) : Err :=
  ErrorNoQueryHandlersFound qry.
Definition NewErrorQueryTimedOut (qry : Query) : Err :=
  ErrorQueryTimedOut qry.

(** Modelled from the spec: the synchronous result container, which the
    bus only touches through [isHandled], [propagationStopped],
    [loadedFromCache], [expires] and [cached].  The two flags are
    independent fields, each settable by a handler. *)
Record Result := {
  data : list Value;
  handled : bool;
  stopPropagation : bool;
  loaded : bool;
  cachedAt : option Time;
  expiresAt : option Time
}.

Definition newResult : Result :=
  {| data := []; handled := false; stopPropagation := false;
     loaded := false; cachedAt := None; expiresAt := None |}.

Definition newCacheableResult (qry : Cacheable) : Result := newResult.

Definition isHandled (res : Result) : bool := handled res.
Definition propagationStopped (res : Result) : bool := stopPropagation res.

Definition loadedFromCache (res : Result) : Result :=
  {| data := data res; handled := handled res;
     stopPropagation := stopPropagation res;
     loaded := true; cachedAt := cachedAt res; expiresAt := expiresAt res |}.

Definition expires (res : Result) (t : Time) : Result :=
  {| data := data res; handled := handled res;
     stopPropagation := stopPropagation res;
     loaded := loaded res; cachedAt := cachedAt res; expiresAt := Some t |}.

Definition cached (res : Result) (at_ : Time) : Result :=
  {| data := data res; handled := handled res;
     stopPropagation := stopPropagation res;
     loaded := loaded res; cachedAt := Some at_; expiresAt := expiresAt res |}.

(** Modelled from the spec: the streaming result handle.  [listening]
    is the readiness signal a consumer raises when it attaches, [closed]
    the open/closed flag. *)
Record IteratorResult := {
  items : list Value;
  buffer : Z;
  it_handled : bool;
  it_stopPropagation : bool;
  it_closed : bool;
  listening : bool
}.

Definition newIteratorResult (buf : Z) : IteratorResult :=
  {| items := []; buffer := buf; it_handled := false;
     it_stopPropagation := false; it_closed := false; listening := false |}.

#[global] Instance IteratorResult_inhabited : Inhabited IteratorResult :=
  populate (newIteratorResult 0).

(** [res.close()]: closing is idempotent. *)
Definition close_result (r : IteratorResult) : IteratorResult :=
  {| items := items r; buffer := buffer r; it_handled := it_handled r;
     it_stopPropagation := it_stopPropagation r; it_closed := true;
     listening := listening r |}.

(** A consumer attaching to the handle. *)
Definition attach_result (r : IteratorResult) : IteratorResult :=
  {| items := items r; buffer := buffer r; it_handled := it_handled r;
     it_stopPropagation := it_stopPropagation r; it_closed := it_closed r;
     listening := true |}.

(** Modelled from the spec: what a streaming handler does to the
    result it is given.  [Yield] records an item and [Done] is the explicit
    completion; either marks the result handled, and the completion is
    what stops the propagation. *)
Definition IteratorResult_Yield (v : Value) (r : IteratorResult)
    : IteratorResult :=
  {| items := items r ++ [v]; buffer := buffer r; it_handled := true;
     it_stopPropagation := it_stopPropagation r; it_closed := it_closed r;
     listening := listening r |}.

Definition IteratorResult_Done (r : IteratorResult) : IteratorResult :=
  {| items := items r; buffer := buffer r; it_handled := true;
     it_stopPropagation := true; it_closed := it_closed r;
     listening := listening r |}.

(** An iterator result as these operations leave it: the propagation is
    stopped only on a result that is handled. *)
Definition stop_means_handled (r : IteratorResult) : Prop :=
  it_stopPropagation r = true -> it_handled r = true.

(** The envelope placed on the work queue; [pen_res] is the pointer to the
    iterator result, an index into the store of live handles. *)
Record pendingIteratorQuery := {
  pen_ctx : Ctx;
  pen_qry : Query;
  pen_res : nat
}.

(** ** What the engine does to its collaborators *)

Inductive Event :=
| EvHandle (hdl : nat) (qry : Query)
| EvIteratorHandle (hdl : nat) (qry : Query) (res : nat)
| EvError (hdl : nat) (qry : Query) (err : Err)
| EvGet (adp : nat) (qry : Query)
| EvSet (adp : nat) (qry : Query)
| EvAdapterShutdown (adp : nat)
| EvClose (res : nat)
| EvSentinel
| EvClosed (worker : nat)
| EvResetInitialized
| EvResetShuttingDown.

(** ** Atomic words *)

Definition uint32_modulus : Z := 4294967296.

(** [atomic.CompareAndSwapUint32]: the new contents and whether it swapped. *)
Definition CompareAndSwapUint32 (v old new : Z) : Z * bool :=
  if (v =? old)%Z then (new, true) else (v, false).

(** [atomic.AddUint32], wrapping around. *)
Definition AddUint32 (v delta : Z) : Z := ((v + delta) mod uint32_modulus)%Z.

Section Engine.

(** Everything outside the bus that a collaborator may read or change. *)
Variable W : Type.

(** [time.Now()] reads the wall clock of the world. *)
Variable time_Now : W -> Time.

Record Handler := {
  hdl_id : nat;
  hdl_Handle : W -> Ctx -> Query -> Result -> W * Result * option Err
}.

Record IteratorHandler := {
  ihdl_id : nat;
  ihdl_Handle :
    W -> Ctx -> Query -> IteratorResult -> W * IteratorResult * option Err
}.

Record ErrorHandler := {
  ehdl_id : nat;
  ehdl_Handle : W -> Ctx -> Query -> Err -> W
}.

Record CacheAdapter := {
  adp_id : nat;
  adp_Set : W -> Ctx -> Query -> Result -> W * bool;
  adp_Get : W -> Ctx -> Query -> W * option Result;
  adp_Expire : W -> Ctx -> Query -> W;
  adp_Shutdown : W -> W
}.

Record Bus := {
  iteratorWorkerPoolSize : Z;
  iteratorQueueBuffer : Z;
  iteratorResultBuffer : Z;
  initialized : Z;
  shuttingDown : Z;
  iteratorWorkers : Z;
  handlers : list Handler;
  iteratorHandlers : list IteratorHandler;
  errorHandlers : list ErrorHandler;
  cacheAdapters : list CacheAdapter;
  iteratorQueryQueue : list (option pendingIteratorQuery)
}.

(** [NewBus]; [gomaxprocs] is what [runtime.GOMAXPROCS(0)] answers and
    [mem] the adapter [NewMemoryCacheAdapter()] builds. *)
Definition NewBus (gomaxprocs : Z) (mem : CacheAdapter) : Bus :=
  {| iteratorWorkerPoolSize := gomaxprocs;
     iteratorQueueBuffer := 100;
     iteratorResultBuffer := 0;
     initialized := 0;
     shuttingDown := 0;
     iteratorWorkers := 0;
     handlers := [];
     iteratorHandlers := [];
     errorHandlers := [];
     cacheAdapters := [mem];
     iteratorQueryQueue := [] |}.

(** Field updates of the bus. *)
Definition set_handlers (v : list Handler) (b : Bus) : Bus :=
  {| iteratorWorkerPoolSize := iteratorWorkerPoolSize b;
     iteratorQueueBuffer := iteratorQueueBuffer b;
     iteratorResultBuffer := iteratorResultBuffer b;
     initialized := initialized b; shuttingDown := shuttingDown b;
     iteratorWorkers := iteratorWorkers b;
     handlers := v; iteratorHandlers := iteratorHandlers b;
     errorHandlers := errorHandlers b; cacheAdapters := cacheAdapters b;
     iteratorQueryQueue := iteratorQueryQueue b |}.

Definition set_iteratorHandlers (v : list IteratorHandler) (b : Bus) : Bus :=
  {| iteratorWorkerPoolSize := iteratorWorkerPoolSize b;
     iteratorQueueBuffer := iteratorQueueBuffer b;
     iteratorResultBuffer := iteratorResultBuffer b;
     initialized := initialized b; shuttingDown := shuttingDown b;
     iteratorWorkers := iteratorWorkers b;
     handlers := handlers b; iteratorHandlers := v;
     errorHandlers := errorHandlers b; cacheAdapters := cacheAdapters b;
     iteratorQueryQueue := iteratorQueryQueue b |}.

Definition set_errorHandlers (v : list ErrorHandler) (b : Bus) : Bus :=
  {| iteratorWorkerPoolSize := iteratorWorkerPoolSize b;
     iteratorQueueBuffer := iteratorQueueBuffer b;
     iteratorResultBuffer := iteratorResultBuffer b;
     initialized := initialized b; shuttingDown := shuttingDown b;
     iteratorWorkers := iteratorWorkers b;
     handlers := handlers b; iteratorHandlers := iteratorHandlers b;
     errorHandlers := v; cacheAdapters := cacheAdapters b;
     iteratorQueryQueue := iteratorQueryQueue b |}.

Definition set_cacheAdapters (v : list CacheAdapter) (b : Bus) : Bus :=
  {| iteratorWorkerPoolSize := iteratorWorkerPoolSize b;
     iteratorQueueBuffer := iteratorQueueBuffer b;
     iteratorResultBuffer := iteratorResultBuffer b;
     initialized := initialized b; shuttingDown := shuttingDown b;
     iteratorWorkers := iteratorWorkers b;
     handlers := handlers b; iteratorHandlers := iteratorHandlers b;
     errorHandlers := errorHandlers b; cacheAdapters := v;
     iteratorQueryQueue := iteratorQueryQueue b |}.

Definition set_iteratorWorkerPoolSize (v : Z) (b : Bus) : Bus :=
  {| iteratorWorkerPoolSize := v;
     iteratorQueueBuffer := iteratorQueueBuffer b;
     iteratorResultBuffer := iteratorResultBuffer b;
     initialized := initialized b; shuttingDown := shuttingDown b;
     iteratorWorkers := iteratorWorkers b;
     handlers := handlers b; iteratorHandlers := iteratorHandlers b;
     errorHandlers := errorHandlers b; cacheAdapters := cacheAdapters b;
     iteratorQueryQueue := iteratorQueryQueue b |}.

Definition set_iteratorQueueBuffer (v : Z) (b : Bus) : Bus :=
  {| iteratorWorkerPoolSize := iteratorWorkerPoolSize b;
     iteratorQueueBuffer := v;
     iteratorResultBuffer := iteratorResultBuffer b;
     initialized := initialized b; shuttingDown := shuttingDown b;
     iteratorWorkers := iteratorWorkers b;
     handlers := handlers b; iteratorHandlers := iteratorHandlers b;
     errorHandlers := errorHandlers b; cacheAdapters := cacheAdapters b;
     iteratorQueryQueue := iteratorQueryQueue b |}.

Definition set_iteratorResultBuffer (v : Z) (b : Bus) : Bus :=
  {| iteratorWorkerPoolSize := iteratorWorkerPoolSize b;
     iteratorQueueBuffer := iteratorQueueBuffer b;
     iteratorResultBuffer := v;
     initialized := initialized b; shuttingDown := shuttingDown b;
     iteratorWorkers := iteratorWorkers b;
     handlers := handlers b; iteratorHandlers := iteratorHandlers b;
     errorHandlers := errorHandlers b; cacheAdapters := cacheAdapters b;
     iteratorQueryQueue := iteratorQueryQueue b |}.

Definition set_initialized (v : Z) (b : Bus) : Bus :=
  {| iteratorWorkerPoolSize := iteratorWorkerPoolSize b;
     iteratorQueueBuffer := iteratorQueueBuffer b;
     iteratorResultBuffer := iteratorResultBuffer b;
     initialized := v; shuttingDown := shuttingDown b;
     iteratorWorkers := iteratorWorkers b;
     handlers := handlers b; iteratorHandlers := iteratorHandlers b;
     errorHandlers := errorHandlers b; cacheAdapters := cacheAdapters b;
     iteratorQueryQueue := iteratorQueryQueue b |}.

Definition set_shuttingDown (v : Z) (b : Bus) : Bus :=
  {| iteratorWorkerPoolSize := iteratorWorkerPoolSize b;
     iteratorQueueBuffer := iteratorQueueBuffer b;
     iteratorResultBuffer := iteratorResultBuffer b;
     initialized := initialized b; shuttingDown := v;
     iteratorWorkers := iteratorWorkers b;
     handlers := handlers b; iteratorHandlers := iteratorHandlers b;
     errorHandlers := errorHandlers b; cacheAdapters := cacheAdapters b;
     iteratorQueryQueue := iteratorQueryQueue b |}.

Definition set_iteratorWorkers (v : Z) (b : Bus) : Bus :=
  {| iteratorWorkerPoolSize := iteratorWorkerPoolSize b;
     iteratorQueueBuffer := iteratorQueueBuffer b;
     iteratorResultBuffer := iteratorResultBuffer b;
     initialized := initialized b; shuttingDown := shuttingDown b;
     iteratorWorkers := v;
     handlers := handlers b; iteratorHandlers := iteratorHandlers b;
     errorHandlers := errorHandlers b; cacheAdapters := cacheAdapters b;
     iteratorQueryQueue := iteratorQueryQueue b |}.

Definition set_iteratorQueryQueue
    (v : list (option pendingIteratorQuery)) (b : Bus) : Bus :=
  {| iteratorWorkerPoolSize := iteratorWorkerPoolSize b;
     iteratorQueueBuffer := iteratorQueueBuffer b;
     iteratorResultBuffer := iteratorResultBuffer b;
     initialized := initialized b; shuttingDown := shuttingDown b;
     iteratorWorkers := iteratorWorkers b;
     handlers := handlers b; iteratorHandlers := iteratorHandlers b;
     errorHandlers := errorHandlers b; cacheAdapters := cacheAdapters b;
     iteratorQueryQueue := v |}.

(** ** The monad of engine code

    Engine code threads the world and the store of iterator results, and
    emits the events of the calls it makes, oldest first. *)

Record Store := {
  world : W;
  iters : list IteratorResult
}.

Definition M (A : Type) : Type := Store -> A * Store * list Event.

Definition ret {A} (a : A) : M A := fun st => (a, st, []).

Definition bind {A B} (m : M A) (k : A -> M B) : M B :=
  fun st =>
    let '(a, st1, t1) := m st in
    let '(b, st2, t2) := k a st1 in
    (b, st2, t1 ++ t2).

(** A call on a collaborator: logged, then run on the world. *)
Definition call {A} (ev : Event) (f : W -> W * A) : M A :=
  fun st =>
    let '(w, a) := f (world st) in
    (a, {| world := w; iters := iters st |}, [ev]).

Definition now : M Time := fun st => (time_Now (world st), st, []).

Notation "x <- m ;; k" := (bind m (fun x => k))
  (at level 100, m at next level, right associativity).
Notation "m ;;; k" := (bind m (fun _ => k))
  (at level 100, right associativity).

(** ** Error fan-out *)

Fixpoint error_loop (hdls : list ErrorHandler)
    (ctx : Ctx) (qry : Query) (err : Err) : M unit :=
  match hdls with
  | [] => ret tt
  | errHdl :: rest =>
      call (EvError (ehdl_id errHdl) qry err)
           (fun w => (ehdl_Handle errHdl w ctx qry err, tt)) ;;;
      error_loop rest ctx qry err
  end.

(** [bus.error]: every registered error handler, in registration order. *)
Definition error (bus : Bus) (ctx : Ctx) (qry : Query) (err : Err) : M unit :=
  error_loop (errorHandlers bus) ctx qry err.

(** ** Registration *)

Definition Handlers (bus : Bus) (hdls : list Handler) : Bus :=
  set_handlers hdls bus.

Definition ErrorHandlers (bus : Bus) (hdls : list ErrorHandler) : Bus :=
  set_errorHandlers hdls bus.

Fixpoint shutdown_adapters (adps : list CacheAdapter) : M unit :=
  match adps with
  | [] => ret tt
  | adp :: rest =>
      call (EvAdapterShutdown (adp_id adp))
           (fun w => (adp_Shutdown adp w, tt)) ;;;
      shutdown_adapters rest
  end.

(** [bus.CacheAdapters]: the registered adapters are shut down, then the
    list is replaced. *)
Definition CacheAdapters (bus : Bus) (adps : list CacheAdapter) : M Bus :=
  shutdown_adapters (cacheAdapters bus) ;;;
  ret (set_cacheAdapters adps bus).

Definition isInitialized (bus : Bus) : bool := (initialized bus =? 1)%Z.
Definition isShuttingDown (bus : Bus) : bool := (shuttingDown bus =? 1)%Z.

Definition IteratorWorkerPoolSize (bus : Bus) (workerPoolSize : Z) : Bus :=
  if negb (isInitialized bus)
  then set_iteratorWorkerPoolSize workerPoolSize bus
  else bus.

Definition IteratorQueueBuffer (bus : Bus) (buf : Z) : Bus :=
  if negb (isInitialized bus)
  then set_iteratorQueueBuffer buf bus
  else bus.

Definition IteratorResultBuffer (bus : Bus) (buf : Z) : Bus :=
  set_iteratorResultBuffer buf bus.

(** ** Synchronous dispatch *)

(** [bus.isValid] *)
Definition isValid (bus : Bus) (ctx : Ctx) (qry : Query) : M (option Err) :=
  match qry with
  | None =>
      error bus ctx qry InvalidQueryError ;;;
      ret (Some InvalidQueryError)
  | Some _ => ret None
  end.

(** The loop of [bus.result] over the adapters: the first non-nil [Get]
    is marked as loaded from the cache and returned. *)
Fixpoint result_loop (adps : list CacheAdapter)
    (ctx : Ctx) (qry : Query) : M (option Result) :=
  match adps with
  | [] => ret None
  | adp :: rest =>
      r <- call (EvGet (adp_id adp) qry) (fun w => adp_Get adp w ctx qry) ;;
      match r with
      | Some res => ret (Some (loadedFromCache res))
      | None => result_loop rest ctx qry
      end
  end.

(** [bus.result] *)
Definition result (bus : Bus) (ctx : Ctx) (qry : Query) : M (Result * bool) :=
  match asCacheable qry with
  | Some c =>
      r <- result_loop (cacheAdapters bus) ctx qry ;;
      match r with
      | Some res => ret (res, true)
      | None => ret (newCacheableResult c, false)
      end
  | None => ret (newResult, false)
  end.

(** The loop of [bus.handleCache]: [cached = cached || adp.Set(...)].
    Go's [||] evaluates its right operand only when the left one is
    false, so once [cached] is true [Set] is not called any more. *)
Fixpoint handleCache_loop (adps : list CacheAdapter)
    (ctx : Ctx) (qry : Query) (res : Result) (cached : bool) : M bool :=
  match adps with
  | [] => ret cached
  | adp :: rest =>
      if cached
      then handleCache_loop rest ctx qry res true
      else
        c <- call (EvSet (adp_id adp) qry)
                  (fun w => adp_Set adp w ctx qry res) ;;
        handleCache_loop rest ctx qry res c
  end.

(** [bus.handleCache]; the result is passed by pointer, so the updated
    result is handed back. *)
Definition handleCache (bus : Bus) (ctx : Ctx) (qry : Query) (res : Result)
    : M Result :=
  match asCacheable qry with
  | Some c =>
      if (0 <? CacheDuration c)%Z
      then
        at_ <- now ;;
        let res1 := expires res (at_ + CacheDuration c)%Z in
        is_cached <- handleCache_loop (cacheAdapters bus) ctx qry res1 false ;;
        if is_cached then ret (cached res1 at_) else ret res1
      else ret res
  | None => ret res
  end.

(** The loop of [bus.query].  It hands back the result as the handlers
    left it and the error the function returns from inside the loop, if
    any ([None] when the loop ends by exhaustion or by [break]). *)
Fixpoint query_loop (bus : Bus) (hdls : list Handler)
    (ctx : Ctx) (qry : Query) (res : Result) : M (Result * option Err) :=
  match hdls with
  | [] => ret (res, None)
  | hdl :: rest =>
      r <- call (EvHandle (hdl_id hdl) qry)
                (fun w => let '(w1, r1, e) := hdl_Handle hdl w ctx qry res
                          in (w1, (r1, e))) ;;
      let '(res1, e) := r in
      match e with
      | Some err =>
          error bus ctx qry err ;;;
          ret (res1, Some err)
      | None =>
          if propagationStopped res1
          then ret (res1, None)
          else query_loop bus rest ctx qry res1
      end
  end.

(** [bus.query] *)
Definition query (bus : Bus) (ctx : Ctx) (qry : Query) (res : Result)
    : M (Result * option Err) :=
  r <- query_loop bus (handlers bus) ctx qry res ;;
  let '(res1, e) := r in
  match e with
  | Some err => ret (res1, Some err)
  | None =>
      if negb (isHandled res1)
      then
        let err := NewErrorNoQueryHandlersFound qry in
        error bus ctx qry err ;;;
        ret (res1, Some err)
      else
        res2 <- handleCache bus ctx qry res1 ;;
        ret (res2, None)
  end.

(** [bus.Query]; the first component is the [*Result], [None] when nil. *)
Definition Bus_Query (bus : Bus) (ctx : Ctx) (qry : Query)
    : M (option Result * option Err) :=
  e <- isValid bus ctx qry ;;
  match e with
  | Some err => ret (None, Some err)
  | None =>
      r <- result bus ctx qry ;;
      let '(res, is_cached) := r in
      if is_cached
      then ret (Some res, None)
      else
        r1 <- query bus ctx qry res ;;
        let '(res1, err) := r1 in
        ret (Some res1, err)
  end.

(** ** Streaming dispatch *)

(** The iterator result a handle points to. *)
Definition read_result (h : nat) : M IteratorResult :=
  fun st => (iters st !!! h, st, []).

(** [hdl.Handle(ctx, qry, res)] on the iterator result behind [h]. *)
Definition call_iteratorHandler (hdl : IteratorHandler)
    (ctx : Ctx) (qry : Query) (h : nat) : M (option Err) :=
  fun st =>
    let '(w, r, e) := ihdl_Handle hdl (world st) ctx qry (iters st !!! h) in
    (e, {| world := w; iters := <[h := r]> (iters st) |},
     [EvIteratorHandle (ihdl_id hdl) qry h]).

(** The loop of [bus.iteratorQuery]; [true] when the function returned
    from inside the loop. *)
Fixpoint iteratorQuery_loop (bus : Bus) (hdls : list IteratorHandler)
    (ctx : Ctx) (qry : Query) (h : nat) : M bool :=
  match hdls with
  | [] => ret false
  | hdl :: rest =>
      e <- call_iteratorHandler hdl ctx qry h ;;
      match e with
      | Some err =>
          error bus ctx qry err ;;;
          ret true
      | None =>
          r <- read_result h ;;
          if it_stopPropagation r
          then ret true
          else iteratorQuery_loop bus rest ctx qry h
      end
  end.

(** [bus.iteratorQuery] *)
Definition iteratorQuery (bus : Bus) (ctx : Ctx) (qry : Query) (h : nat)
    : M unit :=
  returned <- iteratorQuery_loop bus (iteratorHandlers bus) ctx qry h ;;
  if returned : bool
  then ret tt
  else
    r <- read_result h ;;
    if negb (it_handled r)
    then error bus ctx qry (NewErrorNoQueryHandlersFound qry)
    else ret tt.

(** [res.close()] *)
Definition close (h : nat) : M unit :=
  fun st =>
    (tt,
     {| world := world st;
        iters := <[h := close_result (iters st !!! h)]> (iters st) |},
     [EvClose h]).

(** Modelled from the spec: [res.waitListener(iteratorListenerTimeout)]
    answers whether a consumer has attached by the deadline, that is, the
    readiness signal of the handle at the moment the worker decides. *)
Definition waitListener (h : nat) : M bool :=
  r <- read_result h ;;
  ret (listening r).

(** One turn of the loop of [bus.iteratorWorker] on a non-nil pending
    query. *)
Definition iteratorWorker_body (bus : Bus) (penQry : pendingIteratorQuery)
    : M unit :=
  l <- waitListener (pen_res penQry) ;;
  if l : bool
  then
    iteratorQuery bus (pen_ctx penQry) (pen_qry penQry) (pen_res penQry) ;;;
    close (pen_res penQry)
  else
    error bus (pen_ctx penQry) (pen_qry penQry)
          (NewErrorQueryTimedOut (pen_qry penQry)).

(** [bus.isIteratorValid] *)
Definition isIteratorValid (bus : Bus) (ctx : Ctx) (qry : Query)
    : M (option Err) :=
  e <- isValid bus ctx qry ;;
  match e with
  | Some err => ret (Some err)
  | None =>
      if negb (isInitialized bus)
      then
        error bus ctx qry BusNotInitializedError ;;;
        ret (Some BusNotInitializedError)
      else if isShuttingDown bus
      then
        error bus ctx qry BusIsShuttingDownError ;;;
        ret (Some BusIsShuttingDownError)
      else ret None
  end.

(** ** The pool as a transition system *)

(** Where a worker goroutine stands: blocked on the receive of
    [range qryQ], about to send on [closed], or returned. *)
Inductive WorkerPC := WRecv | WSend | WExit.

(** Where a caller of [Shutdown] stands: before the compare-and-swap,
    at the head of the drain loop, about to push the nil sentinel, blocked
    on [<-bus.closed], about to decrement the worker count, in the loop
    over the cache adapters (those left to shut down; with none left the
    next thing is the reset of [initialized]), about to reset
    [shuttingDown], returned (and whether it ran [shutdown]). *)
Inductive ShutdownPC :=
| SCall
| SLoop
| SSend
| SRecv
| SDown
| SAdapters (rest : list CacheAdapter)
| SResetShut
| SReturn (ran : bool).

Record Sys := {
  sys_bus : Bus;
  sys_store : Store;
  sys_workers : list WorkerPC;
  sys_callers : list ShutdownPC
}.

Definition is_WRecv (pc : WorkerPC) : bool :=
  match pc with WRecv => true | _ => false end.
Definition is_live (pc : WorkerPC) : bool :=
  match pc with WExit => false | _ => true end.

Fixpoint countb {A} (f : A -> bool) (l : list A) : nat :=
  match l with
  | [] => 0
  | x :: r => (if f x then 1 else 0) + countb f r
  end.

(** A send on the queue goes through when the buffer has room or a
    worker is blocked on the receive; an item sits in the model's queue
    from the send until a worker's next step takes it. *)
Definition can_send (bus : Bus) (workers : list WorkerPC) : bool :=
  length (iteratorQueryQueue bus)
    <? Z.to_nat (iteratorQueueBuffer bus) + countb is_WRecv workers.

Definition with_bus (b : Bus) (s : Sys) : Sys :=
  {| sys_bus := b; sys_store := sys_store s;
     sys_workers := sys_workers s; sys_callers := sys_callers s |}.
Definition with_store (st : Store) (s : Sys) : Sys :=
  {| sys_bus := sys_bus s; sys_store := st;
     sys_workers := sys_workers s; sys_callers := sys_callers s |}.
Definition with_worker (i : nat) (pc : WorkerPC) (s : Sys) : Sys :=
  {| sys_bus := sys_bus s; sys_store := sys_store s;
     sys_workers := <[i := pc]> (sys_workers s);
     sys_callers := sys_callers s |}.
Definition with_caller (t : nat) (pc : ShutdownPC) (s : Sys) : Sys :=
  {| sys_bus := sys_bus s; sys_store := sys_store s;
     sys_workers := sys_workers s;
     sys_callers := <[t := pc]> (sys_callers s) |}.

Inductive Action :=
| ACaller (t : nat)
| AWorker (i : nat)
| AAck (t i : nat)
| AAttach (h : nat)
| AQuery (ctx : Ctx) (qry : Query).

(** One step of a [Shutdown] caller: [bus.Shutdown] up to the
    compare-and-swap, then [bus.shutdown] statement by statement. *)
Definition caller_step (t : nat) (pc : ShutdownPC) (s : Sys)
    : option (Sys * list Event) :=
  let b := sys_bus s in
  match pc with
  | SCall =>
      let '(v, swapped) := CompareAndSwapUint32 (shuttingDown b) 0 1 in
      Some (with_caller t (if swapped then SLoop else SReturn false)
              (with_bus (set_shuttingDown v b) s), [])
  | SLoop =>
      if (0 <? iteratorWorkers b)%Z
      then Some (with_caller t SSend s, [])
      else Some (with_caller t (SAdapters (cacheAdapters b)) s, [])
  | SSend =>
      if can_send b (sys_workers s)
      then Some (with_caller t SRecv
                   (with_bus (set_iteratorQueryQueue
                                (iteratorQueryQueue b ++ [None]) b) s),
                 [EvSentinel])
      else None
  | SRecv => None
  | SDown =>
      Some (with_caller t SLoop
              (with_bus (set_iteratorWorkers
                           (AddUint32 (iteratorWorkers b)
                                      (uint32_modulus - 1)) b) s), [])
  | SAdapters (adp :: rest) =>
      let '(_, st, tr) := shutdown_adapters [adp] (sys_store s) in
      Some (with_caller t (SAdapters rest) (with_store st s), tr)
  | SAdapters [] =>
      let '(v, _) := CompareAndSwapUint32 (initialized b) 1 0 in
      Some (with_caller t SResetShut (with_bus (set_initialized v b) s),
            [EvResetInitialized])
  | SResetShut =>
      let '(v, _) := CompareAndSwapUint32 (shuttingDown b) 1 0 in
      Some (with_caller t (SReturn true)
              (with_bus (set_shuttingDown v b) s),
            [EvResetShuttingDown])
  | SReturn _ => None
  end.

(** One step of a worker blocked on the receive: a nil item breaks out of
    the loop, anything else is served. *)
Definition worker_step (i : nat) (s : Sys) : option (Sys * list Event) :=
  let b := sys_bus s in
  match iteratorQueryQueue b with
  | [] => None
  | None :: q =>
      Some (with_worker i WSend (with_bus (set_iteratorQueryQueue q b) s), [])
  | Some penQry :: q =>
      let '(_, st, tr) := iteratorWorker_body b penQry (sys_store s) in
      Some (with_store st (with_bus (set_iteratorQueryQueue q b) s), tr)
  end.

(** [bus.IteratorQuery] as one step of its caller: the Go results (the
    handle, nil when [None], and the error) and the new state; [None] when
    the send on the queue blocks. *)
Definition Bus_IteratorQuery (s : Sys) (ctx : Ctx) (qry : Query)
    : option (option nat * option Err * Sys * list Event) :=
  let b := sys_bus s in
  let '(e, st, tr) := isIteratorValid b ctx qry (sys_store s) in
  match e with
  | Some err => Some (None, Some err, with_store st s, tr)
  | None =>
      if can_send b (sys_workers s)
      then
        let h := length (iters st) in
        let st1 := {| world := world st;
                      iters := iters st
                               ++ [newIteratorResult (iteratorResultBuffer b)] |} in
        let penQry := {| pen_ctx := ctx; pen_qry := qry; pen_res := h |} in
        Some (Some h, None,
              with_store st1
                (with_bus (set_iteratorQueryQueue
                             (iteratorQueryQueue b ++ [Some penQry]) b) s),
              tr)
      else None
  end.

Definition step (s : Sys) (a : Action) : option (Sys * list Event) :=
  match a with
  | ACaller t =>
      match sys_callers s !! t with
      | Some pc => caller_step t pc s
      | None => None
      end
  | AWorker i =>
      match sys_workers s !! i with
      | Some WRecv => worker_step i s
      | _ => None
      end
  | AAck t i =>
      match sys_callers s !! t, sys_workers s !! i with
      | Some SRecv, Some WSend =>
          Some (with_caller t SDown (with_worker i WExit s), [EvClosed i])
      | _, _ => None
      end
  | AAttach h =>
      let st := sys_store s in
      Some (with_store
              {| world := world st;
                 iters := <[h := attach_result (iters st !!! h)]> (iters st) |}
              s, [])
  | AQuery ctx qry =>
      match Bus_IteratorQuery s ctx qry with
      | Some (_, _, s1, tr) => Some (s1, tr)
      | None => None
      end
  end.

(** Runs of the system, with the events they emit. *)
Inductive steps : Sys -> list Event -> Sys -> Prop :=
| steps_refl s : steps s [] s
| steps_snoc s tr s1 a s2 evs :
    steps s tr s1 -> step s1 a = Some (s2, evs) -> steps s (tr ++ evs) s2.

(** A schedule, run from the left; [None] when an action is not enabled. *)
Fixpoint run (acts : list Action) (s : Sys) : option (Sys * list Event) :=
  match acts with
  | [] => Some (s, [])
  | a :: rest =>
      match step s a with
      | Some (s1, t1) =>
          match run rest s1 with
          | Some (s2, t2) => Some (s2, t1 ++ t2)
          | None => None
          end
      | None => None
      end
  end.

(** [bus.InitializeIteratorHandlers], called while no other goroutine
    touches the bus.  [make] panics on a negative buffer size: [None]. *)
Definition InitializeIteratorHandlers (s : Sys) (hdls : list IteratorHandler)
    : option Sys :=
  let b := sys_bus s in
  let '(v, swapped) := CompareAndSwapUint32 (initialized b) 0 1 in
  if swapped
  then
    if (iteratorQueueBuffer b <? 0)%Z
    then None
    else
      let n := Z.to_nat (iteratorWorkerPoolSize b) in
      let b1 := set_iteratorQueryQueue []
                  (set_iteratorHandlers hdls (set_initialized v b)) in
      let b2 := set_iteratorWorkers
                  (Nat.iter n (fun c => AddUint32 c 1) (iteratorWorkers b1))
                  b1 in
      Some {| sys_bus := b2; sys_store := sys_store s;
              sys_workers := sys_workers s ++ replicate n WRecv;
              sys_callers := sys_callers s |}
  else Some s.

(** The system around a bus on which nothing runs yet. *)
Definition boot (b : Bus) (w : W) : Sys :=
  {| sys_bus := b; sys_store := {| world := w; iters := [] |};
     sys_workers := []; sys_callers := [] |}.

(** The schedule that takes a [Shutdown] call to its return when nothing
    else interferes: the pending queries are served, then each worker in
    turn takes a sentinel and acknowledges. *)
Definition drain_turn (t i : nat) : list Action :=
  [ACaller t; ACaller t; AWorker i; AAck t i; ACaller t].

Fixpoint drain_actions (t i : nat) (ws : list WorkerPC) : list Action :=
  match ws with
  | [] => []
  | WRecv :: rest => drain_turn t i ++ drain_actions t (S i) rest
  | _ :: rest => drain_actions t (S i) rest
  end.

Fixpoint idle_index (i : nat) (ws : list WorkerPC) : option nat :=
  match ws with
  | [] => None
  | WRecv :: _ => Some i
  | _ :: rest => idle_index (S i) rest
  end.

Definition shutdown_actions (t : nat) (s : Sys) : list Action :=
  [ACaller t]
  ++ match idle_index 0 (sys_workers s) with
     | Some i => replicate (length (iteratorQueryQueue (sys_bus s))) (AWorker i)
     | None => []
     end
  ++ drain_actions t 0 (sys_workers s)
  ++ [ACaller t]
  ++ replicate (length (cacheAdapters (sys_bus s))) (ACaller t)
  ++ [ACaller t; ACaller t].

(** [bus.Shutdown] called and run to its return under that schedule. *)
Definition Bus_Shutdown (s : Sys) : option (Sys * list Event) :=
  let t := length (sys_callers s) in
  let s1 := {| sys_bus := sys_bus s; sys_store := sys_store s;
               sys_workers := sys_workers s;
               sys_callers := sys_callers s ++ [SCall] |} in
  run (shutdown_actions t s1) s1.

(** ** The atomic helpers of the bus *)

(** [^uint32(0)]: the bitwise complement of a 32-bit word. *)
Definition uint32_not (v : Z) : Z := Z.lxor v (uint32_modulus - 1).

(** [bus.iteratorWorkerUp] *)
Definition iteratorWorkerUp (bus : Bus) : Bus :=
  set_iteratorWorkers (AddUint32 (iteratorWorkers bus) 1) bus.

(** [bus.iteratorWorkerDown] *)
Definition iteratorWorkerDown (bus : Bus) : Bus :=
  set_iteratorWorkers (AddUint32 (iteratorWorkers bus) (uint32_not 0)) bus.

(** ** The pool with racing workers

    The same pool with the loop of [bus.iteratorWorker] taken a statement
    at a time: a worker receives a pending query in one step and serves
    it in a later one, so that another worker may receive and serve in
    between. *)

(** Where a worker goroutine stands in its loop: blocked on the receive
    of [range qryQ], holding the pending query it received, about to send
    on [closed], or returned. *)
Inductive RacePC :=
| RRecv
| RServe (penQry : pendingIteratorQuery)
| RSend
| RExit.

Record Race := {
  race_bus : Bus;
  race_store : Store;
  race_workers : list RacePC;
  race_callers : list ShutdownPC
}.

Definition is_RRecv (pc : RacePC) : bool :=
  match pc with RRecv => true | _ => false end.

(** The pool as the callers of [Shutdown] and [IteratorQuery] and the
    consumers meet it: of the workers, their steps depend on how many are
    blocked on the receive, and on nothing else. *)
Definition callers_view (s : Race) : Sys :=
  {| sys_bus := race_bus s;
     sys_store := race_store s;
     sys_workers := replicate (countb is_RRecv (race_workers s)) WRecv;
     sys_callers := race_callers s |}.

Definition from_view (s : Race) (v : Sys) : Race :=
  {| race_bus := sys_bus v;
     race_store := sys_store v;
     race_workers := race_workers s;
     race_callers := sys_callers v |}.

(** One step of a worker: at the receive, a nil item breaks out of the
    loop and any other is held; a held query is served, which takes the
    worker back to the receive. *)
Definition race_worker_step (i : nat) (pc : RacePC) (s : Race)
    : option (Race * list Event) :=
  let b := race_bus s in
  match pc with
  | RRecv =>
      match iteratorQueryQueue b with
      | [] => None
      | None :: q =>
          Some ({| race_bus := set_iteratorQueryQueue q b;
                   race_store := race_store s;
                   race_workers := <[i := RSend]> (race_workers s);
                   race_callers := race_callers s |}, [])
      | Some penQry :: q =>
          Some ({| race_bus := set_iteratorQueryQueue q b;
                   race_store := race_store s;
                   race_workers := <[i := RServe penQry]> (race_workers s);
                   race_callers := race_callers s |}, [])
      end
  | RServe penQry =>
      let '(_, st, tr) := iteratorWorker_body b penQry (race_store s) in
      Some ({| race_bus := b;
               race_store := st;
               race_workers := <[i := RRecv]> (race_workers s);
               race_callers := race_callers s |}, tr)
  | RSend | RExit => None
  end.

Definition race_step (s : Race) (a : Action) : option (Race * list Event) :=
  match a with
  | AWorker i =>
      match race_workers s !! i with
      | Some pc => race_worker_step i pc s
      | None => None
      end
  | AAck t i =>
      match race_callers s !! t, race_workers s !! i with
      | Some SRecv, Some RSend =>
          Some ({| race_bus := race_bus s;
                   race_store := race_store s;
                   race_workers := <[i := RExit]> (race_workers s);
                   race_callers := <[t := SDown]> (race_callers s) |},
                [EvClosed i])
      | _, _ => None
      end
  | ACaller _ | AAttach _ | AQuery _ _ =>
      match step (callers_view s) a with
      | Some (v, evs) => Some (from_view s v, evs)
      | None => None
      end
  end.

Inductive race_steps : Race -> list Event -> Race -> Prop :=
| race_steps_refl s : race_steps s [] s
| race_steps_snoc s tr s1 a s2 evs :
    race_steps s tr s1 -> race_step s1 a = Some (s2, evs) ->
    race_steps s (tr ++ evs) s2.

Fixpoint race_run (acts : list Action) (s : Race)
    : option (Race * list Event) :=
  match acts with
  | [] => Some (s, [])
  | a :: rest =>
      match race_step s a with
      | Some (s1, t1) =>
          match race_run rest s1 with
          | Some (s2, t2) => Some (s2, t1 ++ t2)
          | None => None
          end
      | None => None
      end
  end.

(** The pool whose workers take a query and serve it in one step, as
    a pool with racing workers. *)
Definition racing_pc (pc : WorkerPC) : RacePC :=
  match pc with WRecv => RRecv | WSend => RSend | WExit => RExit end.

Definition racing (s : Sys) : Race :=
  {| race_bus := sys_bus s;
     race_store := sys_store s;
     race_workers := map racing_pc (sys_workers s);
     race_callers := sys_callers s |}.

End Engine.

Notation "x <- m ;; k" := (bind m (fun x => k))
  (at level 100, m at next level, right associativity).
Notation "m ;;; k" := (bind m (fun _ => k))
  (at level 100, right associativity).

Arguments hdl_id {W} _.
Arguments ihdl_id {W} _.
Arguments ehdl_id {W} _.
Arguments adp_id {W} _.
Arguments can_send : simpl never.
Arguments SCall {W}.
Arguments SLoop {W}.
Arguments SSend {W}.
Arguments SRecv {W}.
Arguments SDown {W}.
Arguments SAdapters {W} _.
Arguments SResetShut {W}.
Arguments SReturn {W} _.

(** * What the specification says, as relations

    The read path, the write path and the handler chain, written from
    the words of the specification; the theorems below relate the code
    to them. *)

Section Specification.

Variable W : Type.

(** What Error Fan-out delivers for one error, and what it leaves of the
    world: every registered observer, in registration order. *)
Definition fanout_events (bus : Bus W) (qry : Query) (err : Err) : list Event :=
  map (fun errHdl => EvError (ehdl_id errHdl) qry err) (errorHandlers bus).

Definition fanout_world (bus : Bus W) (ctx : Ctx) (qry : Query) (err : Err)
    (w : W) : W :=
  fold_left (fun w errHdl => ehdl_Handle errHdl w ctx qry err)
            (errorHandlers bus) w.

(** The read path: adapters are probed in registration order, a miss
    advances to the next one, the first hit wins.  [probe adps w ids w1 o]:
    from world [w] the adapters [ids] were asked, in this order, leaving
    the world [w1] and the hit [o] (none after the last adapter). *)
Inductive probe (ctx : Ctx) (qry : Query)
  : list (CacheAdapter W) -> W -> list nat -> W -> option Result -> Prop :=
| probe_none w : probe ctx qry [] w [] w None
| probe_hit adp adps w w1 res :
    adp_Get adp w ctx qry = (w1, Some res) ->
    probe ctx qry (adp :: adps) w [adp_id adp] w1 (Some res)
| probe_miss adp adps w w1 ids w2 o :
    adp_Get adp w ctx qry = (w1, None) ->
    probe ctx qry adps w1 ids w2 o ->
    probe ctx qry (adp :: adps) w (adp_id adp :: ids) w2 o.

(** The write path as the code has it: adapters are offered the result
    in registration order until one accepts it.  [offer adps w ids w1 ok]:
    [Set] was called on the adapters [ids], in this order, and [ok] tells
    whether the last of them accepted. *)
Inductive offer (ctx : Ctx) (qry : Query) (res : Result)
  : list (CacheAdapter W) -> W -> list nat -> W -> bool -> Prop :=
| offer_none w : offer ctx qry res [] w [] w false
| offer_accepted adp adps w w1 :
    adp_Set adp w ctx qry res = (w1, true) ->
    offer ctx qry res (adp :: adps) w [adp_id adp] w1 true
| offer_refused adp adps w w1 ids w2 ok :
    adp_Set adp w ctx qry res = (w1, false) ->
    offer ctx qry res adps w1 ids w2 ok ->
    offer ctx qry res (adp :: adps) w (adp_id adp :: ids) w2 ok.

(** How a handler chain ends. *)
Inductive ChainEnd :=
| Errored (err : Err)
| Stopped
| Exhausted.

(** The handler chain, for any kind of handler [H] working on a result
    of type [R]: handlers run in registration order; an error aborts the
    chain, "propagation stopped" ends it, otherwise the next handler
    runs.  [chain hdls w r ids e w1 r1]: the handlers [ids] ran, in this
    order, the chain ended as [e], leaving the world [w1] and the result
    [r1]. *)
Inductive chain {H R : Type} (id : H -> nat)
    (handle : H -> W -> R -> W * R * option Err) (stopped : R -> bool)
  : list H -> W -> R -> list nat -> ChainEnd -> W -> R -> Prop :=
| chain_exhausted w r : chain id handle stopped [] w r [] Exhausted w r
| chain_error hdl hdls w r w1 r1 err :
    handle hdl w r = (w1, r1, Some err) ->
    chain id handle stopped (hdl :: hdls) w r [id hdl] (Errored err) w1 r1
| chain_stopped hdl hdls w r w1 r1 :
    handle hdl w r = (w1, r1, None) ->
    stopped r1 = true ->
    chain id handle stopped (hdl :: hdls) w r [id hdl] Stopped w1 r1
| chain_next hdl hdls w r w1 r1 ids e w2 r2 :
    handle hdl w r = (w1, r1, None) ->
    stopped r1 = false ->
    chain id handle stopped hdls w1 r1 ids e w2 r2 ->
    chain id handle stopped (hdl :: hdls) w r (id hdl :: ids) e w2 r2.

Definition is_Errored (e : ChainEnd) : bool :=
  match e with Errored _ => true | _ => false end.

(** What [bus.query] comes to once its chain has run the handlers [ids]
    and ended as [e] with the world [w1] and the result [r1]: a handler's
    error is reported and returned; otherwise, also after "propagation
    stopped", an unhandled result is reported and returned as
    [NoHandlersFound], and a handled one goes to the cache write-back. *)
Definition query_outcome (time_Now : W -> Time) (bus : Bus W)
    (ctx : Ctx) (qry : Query) (its : list IteratorResult)
    (ids : list nat) (e : ChainEnd) (w1 : W) (r1 : Result)
    : Result * option Err * Store W * list Event :=
  let evs := map (fun i => EvHandle i qry) ids in
  let reported err :=
    (r1, Some err,
     {| world := fanout_world bus ctx qry err w1; iters := its |},
     evs ++ fanout_events bus qry err) in
  match e with
  | Errored err => reported err
  | Stopped | Exhausted =>
      if isHandled r1
      then
        let '(r2, st2, tr) :=
          handleCache time_Now bus ctx qry r1 {| world := w1; iters := its |} in
        (r2, None, st2, evs ++ tr)
      else reported (NewErrorNoQueryHandlersFound qry)
  end.

(** What [bus.iteratorQuery] comes to, likewise: a handler's error is
    reported; after "propagation stopped" nothing is reported, whether the
    result was handled or not; when every handler ran, an unhandled
    result is reported as [NoHandlersFound]. *)
Definition iteratorQuery_outcome (bus : Bus W)
    (ctx : Ctx) (qry : Query) (h : nat) (its : list IteratorResult)
    (ids : list nat) (e : ChainEnd) (w1 : W) (r1 : IteratorResult)
    : unit * Store W * list Event :=
  let evs := map (fun i => EvIteratorHandle i qry h) ids in
  let its1 := <[h := r1]> its in
  let reported err :=
    (tt, {| world := fanout_world bus ctx qry err w1; iters := its1 |},
     evs ++ fanout_events bus qry err) in
  let silent := (tt, {| world := w1; iters := its1 |}, evs) in
  match e with
  | Errored err => reported err
  | Stopped => silent
  | Exhausted =>
      if it_handled r1
      then silent
      else reported (NewErrorNoQueryHandlersFound qry)
  end.

(** A streaming handler that acts on the result through [Yield] and
    [Done] only: it stops the propagation on handled results only. *)
Definition keeps_interface (hdl : IteratorHandler W) : Prop :=
  forall w ctx qry r,
    stop_means_handled r ->
    stop_means_handled (ihdl_Handle hdl w ctx qry r).1.2.

(** The write path as the specification words it: every registered
    adapter receives the write call. *)
Definition Set_on_every_adapter (time_Now : W -> Time) (bus : Bus W)
    (ctx : Ctx) (qry : Query) (res : Result) (st : Store W) : Prop :=
  forall adp, adp ∈ cacheAdapters bus ->
    EvSet (adp_id adp) qry ∈ (handleCache time_Now bus ctx qry res st).2.

(** The failure behaviour as the specification words it: a failing
    [Query] hands the caller a result together with the error. *)
Definition failure_comes_with_result (time_Now : W -> Time) (bus : Bus W)
    (ctx : Ctx) (qry : Query) (st : Store W) : Prop :=
  let '(r, e, _, _) := Bus_Query time_Now bus ctx qry st in
  is_Some e -> is_Some r.

(** ** Vocabulary for the pool *)

Definition is_crit (pc : ShutdownPC W) : bool :=
  match pc with SCall | SReturn _ => false | _ => true end.
Definition is_SRecv (pc : ShutdownPC W) : bool :=
  match pc with SRecv => true | _ => false end.
Definition is_SDown (pc : ShutdownPC W) : bool :=
  match pc with SDown => true | _ => false end.
Definition is_teardown_pc (pc : ShutdownPC W) : bool :=
  match pc with SAdapters _ | SResetShut => true | _ => false end.
Definition is_SResetShut (pc : ShutdownPC W) : bool :=
  match pc with SResetShut => true | _ => false end.

Definition is_sentinel (ev : Event) : bool :=
  match ev with EvSentinel => true | _ => false end.
Definition is_ack (ev : Event) : bool :=
  match ev with EvClosed _ => true | _ => false end.
Definition is_reset_initialized (ev : Event) : bool :=
  match ev with EvResetInitialized => true | _ => false end.
Definition is_reset_shuttingDown (ev : Event) : bool :=
  match ev with EvResetShuttingDown => true | _ => false end.

(** The events of the teardown that follows the drain: a cache adapter
    shut down, a flag reset. *)
Definition is_teardown (ev : Event) : bool :=
  match ev with
  | EvAdapterShutdown _ | EvResetInitialized | EvResetShuttingDown => true
  | _ => false
  end.

(** The events of serving and validating queries. *)
Definition is_service (ev : Event) : bool :=
  match ev with
  | EvIteratorHandle _ _ _ | EvError _ _ _ | EvClose _ => true
  | _ => false
  end.

(** Workers that have not returned. *)
Definition live (ws : list WorkerPC) : nat := countb is_live ws.

Definition all_exited (ws : list WorkerPC) : Prop :=
  Forall (fun pc => pc = WExit) ws.

(** The handles of the pending queries on a queue. *)
Fixpoint handles (q : list (option pendingIteratorQuery)) : list nat :=
  match q with
  | [] => []
  | Some penQry :: rest => pen_res penQry :: handles rest
  | None :: rest => handles rest
  end.

(** Every pending query has a handle of its own, and a live one. *)
Definition handles_wf (s : Sys W) : Prop :=
  NoDup (handles (iteratorQueryQueue (sys_bus s)))
  /\ Forall (fun h => h < length (iters (sys_store s)))
            (handles (iteratorQueryQueue (sys_bus s))).

(** The handle a worker of the racing pool holds, and the handles held
    by the workers of a pool. *)
Definition held (pc : RacePC) : list nat :=
  match pc with RServe penQry => [pen_res penQry] | _ => [] end.

Fixpoint serving (ws : list RacePC) : list nat :=
  match ws with
  | [] => []
  | pc :: rest => held pc ++ serving rest
  end.

(** The queries in flight in a racing pool: those a worker holds and
    those on the queue. *)
Definition in_flight (s : Race W) : list nat :=
  serving (race_workers s) ++ handles (iteratorQueryQueue (race_bus s)).

(** Every query in flight has a handle of its own, and a live one. *)
Definition race_wf (s : Race W) : Prop :=
  NoDup (in_flight s)
  /\ Forall (fun h => h < length (iters (race_store s))) (in_flight s).

(** A bus on which no [Shutdown] is under way: the flag is down, no
    caller is inside [shutdown], every worker is blocked on the queue or
    has returned, and the worker count is the number of the former. *)
Record quiescent (s : Sys W) : Prop := {
  q_shuttingDown : shuttingDown (sys_bus s) = 0%Z;
  q_initialized :
    initialized (sys_bus s) = 0%Z \/ initialized (sys_bus s) = 1%Z;
  q_callers : countb is_crit (sys_callers s) = 0;
  q_workers : Forall (fun pc => pc = WRecv \/ pc = WExit) (sys_workers s);
  q_count : iteratorWorkers (sys_bus s) = Z.of_nat (live (sys_workers s));
  q_bound : (Z.of_nat (live (sys_workers s)) < uint32_modulus)%Z
}.

(** What holds along every run from a quiescent state with [n0] live
    workers, [tr] being the events so far. *)
Record pool_inv (n0 : nat) (tr : list Event) (s : Sys W) : Prop := {
  inv_shuttingDown :
    shuttingDown (sys_bus s) = Z.of_nat (countb is_crit (sys_callers s));
  inv_exclusive : countb is_crit (sys_callers s) <= 1;
  inv_initialized :
    initialized (sys_bus s) = 0%Z \/ initialized (sys_bus s) = 1%Z;
  inv_count :
    iteratorWorkers (sys_bus s)
    = Z.of_nat (live (sys_workers s) + countb is_SDown (sys_callers s));
  inv_acks : countb is_ack tr + live (sys_workers s) = n0;
  inv_bound : (Z.of_nat n0 < uint32_modulus)%Z;
  inv_down : countb is_SDown (sys_callers s) <= countb is_ack tr;
  inv_sentinels :
    countb is_sentinel tr
    = countb is_ack tr + countb is_SRecv (sys_callers s);
  inv_teardown_pc :
    0 < countb is_teardown_pc (sys_callers s) -> live (sys_workers s) = 0;
  inv_teardown :
    0 < countb is_teardown tr -> live (sys_workers s) = 0;
  inv_reset :
    0 < countb is_reset_initialized tr -> initialized (sys_bus s) = 0%Z;
  inv_reset_order :
    countb is_reset_shuttingDown tr + countb is_SResetShut (sys_callers s)
    = countb is_reset_initialized tr
}.

(** The engine has no business left with the handle [h]: it is a live
    handle, no pending query points to it, and its closed flag is [c]. *)
Definition untouched (h : nat) (c : bool) (s : Sys W) : Prop :=
  h < length (iters (sys_store s))
  /\ (h ∉ handles (iteratorQueryQueue (sys_bus s)))
  /\ it_closed (iters (sys_store s) !!! h) = c.

(** The events of the drain of the workers [ws], numbered from [i]: one
    sentinel and one acknowledgement per worker blocked on the queue. *)
Fixpoint drain_events (i : nat) (ws : list WorkerPC) : list Event :=
  match ws with
  | [] => []
  | WRecv :: rest => EvSentinel :: EvClosed i :: drain_events (S i) rest
  | _ :: rest => drain_events (S i) rest
  end.

(** What registration fixed on a bus is the same on another. *)
Definition same_config (b b' : Bus W) : Prop :=
  iteratorWorkerPoolSize b' = iteratorWorkerPoolSize b
  /\ iteratorQueueBuffer b' = iteratorQueueBuffer b
  /\ iteratorResultBuffer b' = iteratorResultBuffer b
  /\ handlers b' = handlers b
  /\ iteratorHandlers b' = iteratorHandlers b
  /\ errorHandlers b' = errorHandlers b
  /\ cacheAdapters b' = cacheAdapters b.

(** The state after a completed [Shutdown] as the specification words
    it: a streaming query then fails with [ShuttingDown]. *)
Definition ShuttingDown_after_Shutdown (s : Sys W) (ctx : Ctx) (qry : Query)
    : Prop :=
  forall s1 tr1,
    Bus_Shutdown s = Some (s1, tr1) ->
    exists s2 tr2,
      Bus_IteratorQuery s1 ctx qry
      = Some (None, Some BusIsShuttingDownError, s2, tr2).

(** Idempotence as the specification words it: a [Shutdown] made after
    the first one has completed shuts down no cache adapter. *)
Definition second_Shutdown_spares_adapters (s : Sys W) : Prop :=
  forall s1 tr1 s2 tr2,
    Bus_Shutdown s = Some (s1, tr1) ->
    Bus_Shutdown s1 = Some (s2, tr2) ->
    forall adp, EvAdapterShutdown adp ∉ tr2.

(** ** Reading a trace *)

Definition is_error_event (ev : Event) : bool :=
  match ev with EvError _ _ _ => true | _ => false end.
Definition is_cache_read (ev : Event) : bool :=
  match ev with EvGet _ _ => true | _ => false end.
Definition is_cache_write (ev : Event) : bool :=
  match ev with EvSet _ _ => true | _ => false end.
Definition is_handle (ev : Event) : bool :=
  match ev with EvHandle _ _ => true | _ => false end.
Definition is_iterator_handle (ev : Event) : bool :=
  match ev with EvIteratorHandle _ _ _ => true | _ => false end.

(** The handles closed along a trace, oldest first. *)
Fixpoint closes (tr : list Event) : list nat :=
  match tr with
  | [] => []
  | EvClose h :: rest => h :: closes rest
  | _ :: rest => closes rest
  end.

(** The buses [b] and [b'] dispatch alike: same handlers, error handlers
    and cache adapters. *)
Definition same_dispatch (b b' : Bus W) : Prop :=
  handlers b' = handlers b
  /\ errorHandlers b' = errorHandlers b
  /\ cacheAdapters b' = cacheAdapters b.

(** ** Vocabulary for the drain of the queue *)

Definition is_WSend (pc : WorkerPC) : bool :=
  match pc with WSend => true | _ => false end.

(** A [Shutdown] caller that has a sentinel to push or in flight. *)
Definition is_waiting (pc : ShutdownPC W) : bool :=
  match pc with SSend | SRecv => true | _ => false end.

(** What holds of the queue along every run from a quiescent state
    whose queue holds no sentinel, [tr] being the events so far: the
    sentinels sit behind the pending queries, there is one for each caller
    waiting on [closed] whose sentinel no worker has taken yet, and once a
    worker has taken a sentinel no pending query is left; a caller pushes
    and waits only while a worker lives; and an acknowledged drain is
    either still under way or has reset [initialized]. *)
Record drain_inv (tr : list Event) (s : Sys W) : Prop := {
  d_queue :
    exists somes k,
      iteratorQueryQueue (sys_bus s) = somes ++ replicate k None
      /\ Forall is_Some somes
      /\ k + countb is_WSend (sys_workers s)
         = countb is_SRecv (sys_callers s)
      /\ (0 < countb is_ack tr + countb is_WSend (sys_workers s) ->
          somes = []);
  d_wait :
    0 < countb is_waiting (sys_callers s) -> 0 < live (sys_workers s);
  d_closed :
    0 < countb is_ack tr ->
    0 < countb is_crit (sys_callers s) + countb is_reset_initialized tr
}.

End Specification.

Arguments is_crit {W} _.
Arguments is_SRecv {W} _.
Arguments is_SDown {W} _.
Arguments is_teardown_pc {W} _.
Arguments is_SResetShut {W} _.
Arguments is_waiting {W} _.
Arguments keeps_interface {W} _.

(** * Scenarios

    Concrete collaborators over a world that is a tick counter, the
    clock reading one second per tick. *)

Module Scenario.

Definition clock (w : nat) : Time := (Z.of_nat w * 1000000000)%Z.

Definition qUUID : Query := Some {| ID := "UUID"; cacheable := None |}.

Definition cCache : Cacheable :=
  {| CacheKey := "CACHE-KEY"; CacheDuration := 1000000000%Z |}.

Definition qCache : Query :=
  Some {| ID := "UUID-CACHE"; cacheable := Some cCache |}.

Definition add (v : Value) (res : Result) : Result :=
  {| data := data res ++ [v]; handled := true;
     stopPropagation := stopPropagation res; loaded := loaded res;
     cachedAt := cachedAt res; expiresAt := expiresAt res |}.

(** A handler that answers every query with ["bar"] and takes one tick. *)
Definition barHandler (id : nat) : Handler nat :=
  {| hdl_id := id;
     hdl_Handle := fun w _ _ res => (S w, add "bar" res, None) |}.

(** A handler that fails. *)
Definition failingHandler (id : nat) : Handler nat :=
  {| hdl_id := id;
     hdl_Handle := fun w _ _ res => (w, res, Some (HandlerError "query failed")) |}.

(** A streaming handler that only stops the propagation. *)
Definition stoppingIteratorHandler (id : nat) : IteratorHandler nat :=
  {| ihdl_id := id;
     ihdl_Handle := fun w _ _ res =>
       (w,
        {| items := items res; buffer := buffer res;
           it_handled := it_handled res; it_stopPropagation := true;
           it_closed := it_closed res; listening := listening res |},
        None) |}.

(** A streaming handler that yields ["bar"] and is done. *)
Definition barIteratorHandler (id : nat) : IteratorHandler nat :=
  {| ihdl_id := id;
     ihdl_Handle := fun w _ _ res =>
       (w,
        {| items := items res ++ ["bar"]; buffer := buffer res;
           it_handled := true; it_stopPropagation := true;
           it_closed := it_closed res; listening := listening res |},
        None) |}.

Definition silentErrorHandler (id : nat) : ErrorHandler nat :=
  {| ehdl_id := id; ehdl_Handle := fun w _ _ _ => w |}.

(** An adapter that holds nothing and answers [accepts] to every [Set]. *)
Definition emptyAdapter (id : nat) (accepts : bool) : CacheAdapter nat :=
  {| adp_id := id;
     adp_Set := fun w _ _ _ => (w, accepts);
     adp_Get := fun w _ _ => (w, None);
     adp_Expire := fun w _ _ => w;
     adp_Shutdown := fun w => w |}.

(** An adapter that holds [res] for every query. *)
Definition fullAdapter (id : nat) (res : Result) : CacheAdapter nat :=
  {| adp_id := id;
     adp_Set := fun w _ _ _ => (w, true);
     adp_Get := fun w _ _ => (w, Some res);
     adp_Expire := fun w _ _ => w;
     adp_Shutdown := fun w => w |}.

Definition store0 : Store nat := {| world := 5; iters := [] |}.

(** A bus with two accepting adapters, one handler and one error handler. *)
Definition busTwoAdapters : Bus nat :=
  ErrorHandlers
    (Handlers
       (set_cacheAdapters [emptyAdapter 1 true; emptyAdapter 2 true]
          (NewBus 2%Z (emptyAdapter 0 true)))
       [barHandler 0])
    [silentErrorHandler 0].

Definition barResult : Result := add "bar" newResult.

(** The same bus with an adapter that misses, one that holds a result,
    and one that is never reached. *)
Definition busHit : Bus nat :=
  set_cacheAdapters
    [emptyAdapter 1 true; fullAdapter 2 barResult; emptyAdapter 3 true]
    busTwoAdapters.

(** A bus whose first handler fails. *)
Definition busFailing : Bus nat :=
  ErrorHandlers
    (Handlers (NewBus 2%Z (emptyAdapter 0 true))
              [failingHandler 0; barHandler 1])
    [silentErrorHandler 0].

(** A bus as [NewBus] leaves it, with one error observer. *)
Definition busPool : Bus nat :=
  ErrorHandlers (NewBus 2%Z (emptyAdapter 7 true)) [silentErrorHandler 0].

(** A handler and a streaming handler that let every query pass. *)
Definition idleHandler (id : nat) : Handler nat :=
  {| hdl_id := id; hdl_Handle := fun w _ _ res => (w, res, None) |}.

Definition idleIteratorHandler (id : nat) : IteratorHandler nat :=
  {| ihdl_id := id; ihdl_Handle := fun w _ _ res => (w, res, None) |}.

(** A bus whose handlers let every query pass. *)
Definition busIdle : Bus nat :=
  set_iteratorHandlers [idleIteratorHandler 0]
                       (Handlers busPool [idleHandler 0]).

(** A bus with two streaming handlers that each yield ["bar"] and are
    done. *)
Definition busDone : Bus nat :=
  set_iteratorHandlers [barIteratorHandler 0; barIteratorHandler 1] busPool.

(** A store with one open iterator result nobody listens to. *)
Definition storeOne : Store nat :=
  {| world := 5; iters := [newIteratorResult 0] |}.

(** The pool once [InitializeIteratorHandlers] has started its two
    workers. *)
Definition sysReady : Sys nat :=
  {| sys_bus :=
       set_iteratorWorkers 2
         (set_iteratorQueryQueue []
            (set_iteratorHandlers [stoppingIteratorHandler 0]
               (set_initialized 1 busPool)));
     sys_store := store0;
     sys_workers := [WRecv; WRecv];
     sys_callers := [] |}.

Definition penUUID (h : nat) : pendingIteratorQuery :=
  {| pen_ctx := "ctx"; pen_qry := qUUID; pen_res := h |}.

(** The pool with one streaming query pending, no consumer attached. *)
Definition sysPending : Sys nat :=
  {| sys_bus := set_iteratorQueryQueue [Some (penUUID 0)] (sys_bus sysReady);
     sys_store := {| world := 5; iters := [newIteratorResult 0] |};
     sys_workers := [WRecv; WRecv];
     sys_callers := [] |}.

(** The same once the consumer has attached. *)
Definition sysListening : Sys nat :=
  {| sys_bus := sys_bus sysPending;
     sys_store :=
       {| world := 5; iters := [attach_result (newIteratorResult 0)] |};
     sys_workers := [WRecv; WRecv];
     sys_callers := [] |}.

(** The pool with the query pending on a streaming handler that yields
    and is done, the consumer attached. *)
Definition sysServing : Sys nat :=
  {| sys_bus := set_iteratorHandlers [barIteratorHandler 0]
                                     (sys_bus sysPending);
     sys_store :=
       {| world := 5; iters := [attach_result (newIteratorResult 0)] |};
     sys_workers := [WRecv; WRecv];
     sys_callers := [] |}.

(** The ready pool with a [Shutdown] call about to start, and the same
    once the first worker has taken its sentinel and acknowledged: the
    caller is about to decrement the worker count. *)
Definition sysReadyCalled : Sys nat :=
  {| sys_bus := sys_bus sysReady;
     sys_store := sys_store sysReady;
     sys_workers := [WRecv; WRecv];
     sys_callers := [SCall] |}.

Definition sysReadyAtDown : Sys nat :=
  {| sys_bus := set_shuttingDown 1 (sys_bus sysReady);
     sys_store := sys_store sysReady;
     sys_workers := [WExit; WRecv];
     sys_callers := [SDown] |}.

(** The pool with one query pending and a [Shutdown] call about to
    start, and the same once the call has returned. *)
Definition sysPendingCalled : Sys nat :=
  {| sys_bus := sys_bus sysPending;
     sys_store := sys_store sysPending;
     sys_workers := [WRecv; WRecv];
     sys_callers := [SCall] |}.

Definition sysPendingDown : Sys nat :=
  {| sys_bus :=
       set_initialized 0
         (set_iteratorWorkers 0
            (set_iteratorQueryQueue [] (sys_bus sysPending)));
     sys_store := sys_store sysPending;
     sys_workers := [WExit; WExit];
     sys_callers := [SReturn true] |}.

(** The events of that call: the pending query times out, the two
    workers are drained, the adapter is shut down, the flags are reset. *)
Definition shutdownOfPending : list Event :=
  [EvError 0 qUUID (NewErrorQueryTimedOut qUUID);
   EvSentinel; EvClosed 0; EvSentinel; EvClosed 1;
   EvAdapterShutdown 7; EvResetInitialized; EvResetShuttingDown].

(** A racing pool of two workers with two queries on the queue, the
    consumers attached, and the same once both queries are served. *)
Definition raceTwo : Race nat :=
  {| race_bus :=
       set_iteratorQueryQueue [Some (penUUID 0); Some (penUUID 1)]
                              (sys_bus sysServing);
     race_store :=
       {| world := 5;
          iters := [attach_result (newIteratorResult 0);
                    attach_result (newIteratorResult 0)] |};
     race_workers := [RRecv; RRecv];
     race_callers := [] |}.

Definition servedResult : IteratorResult :=
  close_result
    (IteratorResult_Done
       (IteratorResult_Yield "bar" (attach_result (newIteratorResult 0)))).

Definition raceTwoServed : Race nat :=
  {| race_bus := set_iteratorQueryQueue [] (sys_bus sysServing);
     race_store := {| world := 5; iters := [servedResult; servedResult] |};
     race_workers := [RRecv; RRecv];
     race_callers := [] |}.

(** A bus fresh from [NewBus] whose pool size was set to zero, before
    anything runs on it. *)
Definition sysNoPool : Sys nat := boot (IteratorWorkerPoolSize busPool 0) 5.

(** The same on an unbuffered queue. *)
Definition sysNoPoolUnbuffered : Sys nat :=
  boot (IteratorQueueBuffer (IteratorWorkerPoolSize busPool 0) 0) 5.

End Scenario.

(** * Test support

    The helpers of the test suite that have a state of their own. *)

(** [storeErrorsHandler]: the error handler of the tests, a map from
    the key of a query to the last error reported for it.  The mutex makes
    each method one atomic step. *)
Definition storeErrorsHandler := gmap string (option Err).

(** [hdl.key(qry)] *)
Definition storeErrorsHandler_key (qry : Query) : string :=
  match qry with
  | None => "nil"
  | Some q => ID q
  end.

(** [hdl.Handle(ctx, qry, err)] *)
Definition storeErrorsHandler_Handle (hdl : storeErrorsHandler)
    (ctx : Ctx) (qry : Query) (err : option Err) : storeErrorsHandler :=
  <[storeErrorsHandler_key qry := err]> hdl.

(** [hdl.Error(qry)] *)
Definition storeErrorsHandler_Error (hdl : storeErrorsHandler) (qry : Query)
    : option Err :=
  match hdl !! storeErrorsHandler_key qry with
  | Some err => err
  | None => None
  end.

(** The handler registered on a bus whose world is its map. *)
Definition storeErrors (id : nat) : ErrorHandler storeErrorsHandler :=
  {| ehdl_id := id;
     ehdl_Handle := fun hdl ctx qry err =>
       storeErrorsHandler_Handle hdl ctx qry (Some err) |}.

(** [testHandlerOrderQuery]: the contents of its two counters. *)
Record testHandlerOrderQuery := {
  position : Z;
  unordered : Z
}.

(** [qry.HandlerPosition(position)] *)
Definition HandlerPosition (qry : testHandlerOrderQuery) (pos : Z)
    : testHandlerOrderQuery :=
  {| position := AddUint32 (position qry) 1;
     unordered := if negb (pos =? position qry)%Z then 1%Z
                  else unordered qry |}.

(** [qry.IsUnordered()] *)
Definition IsUnordered (qry : testHandlerOrderQuery) : bool :=
  (unordered qry =? 1)%Z.

(** A bus whose world is the map of a [storeErrorsHandler], with that
    handler as its only error handler and an adapter that holds nothing. *)
Definition deafAdapter (id : nat) : CacheAdapter storeErrorsHandler :=
  {| adp_id := id;
     adp_Set := fun w _ _ _ => (w, false);
     adp_Get := fun w _ _ => (w, None);
     adp_Expire := fun w _ _ => w;
     adp_Shutdown := fun w => w |}.

Definition busStoringErrors : Bus storeErrorsHandler :=
  ErrorHandlers (NewBus 2%Z (deafAdapter 0)) [storeErrors 0].

Definition stillClock (w : storeErrorsHandler) : Time := 0%Z.

(** * Properties *)

Unset Implicit Arguments.

Section Properties.

Variable W : Type.
Variable time_Now : W -> Time.

Implicit Types (bus : Bus W) (st : Store W) (ctx : Ctx) (qry : Query).

(** ** Error fan-out and registration *)

Lemma error_loop_spec (hdls : list (ErrorHandler W)) ctx qry err st :
  error_loop hdls ctx qry err st
  = (tt,
     {| world := fold_left (fun w errHdl => ehdl_Handle errHdl w ctx qry err)
                           hdls (world st);
        iters := iters st |},
     map (fun errHdl => EvError (ehdl_id errHdl) qry err) hdls).
Proof.
  revert st. induction hdls as [|errHdl rest IH]; intros st.
  - destruct st; reflexivity.
  - cbn [error_loop]. unfold bind, call. cbn. rewrite IH. reflexivity.
Qed.

(** Error Fan-out reaches every registered observer, in registration
    order, and touches nothing but the world. *)
Lemma error_spec bus ctx qry err st :
  error bus ctx qry err st
  = (tt, {| world := fanout_world bus ctx qry err (world st);
            iters := iters st |},
     fanout_events bus qry err).
Proof. apply error_loop_spec. Qed.

Lemma shutdown_adapters_spec (adps : list (CacheAdapter W)) st :
  shutdown_adapters adps st
  = (tt,
     {| world := fold_left (fun w adp => adp_Shutdown adp w) adps (world st);
        iters := iters st |},
     map (fun adp => EvAdapterShutdown (adp_id adp)) adps).
Proof.
  revert st. induction adps as [|adp rest IH]; intros st.
  - destruct st; reflexivity.
  - cbn [shutdown_adapters]. unfold bind, call. cbn. rewrite IH. reflexivity.
Qed.

(** C9. Registering replacement cache adapters through the
    [CacheAdapters] setter calls [Shutdown] on every adapter registered
    before, in registration order and on nothing else, and then installs
    the new list; on a bus fresh from [NewBus] the adapter shut down is
    the default in-memory one. *)
Theorem CacheAdapters_shuts_down_previous bus
    (adps : list (CacheAdapter W)) st (gomaxprocs : Z) (mem : CacheAdapter W) :
  CacheAdapters bus adps st
  = (set_cacheAdapters adps bus,
     {| world := fold_left (fun w adp => adp_Shutdown adp w)
                           (cacheAdapters bus) (world st);
        iters := iters st |},
     map (fun adp => EvAdapterShutdown (adp_id adp)) (cacheAdapters bus))
  /\ cacheAdapters (set_cacheAdapters adps bus) = adps
  /\ CacheAdapters (NewBus gomaxprocs mem) adps st
     = (set_cacheAdapters adps (NewBus gomaxprocs mem),
        {| world := adp_Shutdown mem (world st); iters := iters st |},
        [EvAdapterShutdown (adp_id mem)]).
Proof.
  assert (Hgen : forall b : Bus W,
    CacheAdapters b adps st
    = (set_cacheAdapters adps b,
       {| world := fold_left (fun w adp => adp_Shutdown adp w)
                             (cacheAdapters b) (world st);
          iters := iters st |},
       map (fun adp => EvAdapterShutdown (adp_id adp)) (cacheAdapters b))).
  { intros b. unfold CacheAdapters, bind, ret.
    rewrite shutdown_adapters_spec. cbn. rewrite app_nil_r. reflexivity. }
  split; [apply Hgen|]. split; [reflexivity|]. apply Hgen.
Qed.

(** ** The cache read path *)

(** The read path always has an outcome. *)
Lemma probe_total (adps : list (CacheAdapter W)) ctx qry (w : W) :
  exists ids w1 o, probe ctx qry adps w ids w1 o.
Proof.
  revert w. induction adps as [|adp rest IH]; intros w.
  - exists [], w, None. constructor.
  - destruct (adp_Get adp w ctx qry) as [w1 [res|]] eqn:Hget.
    + exists [adp_id adp], w1, (Some res). by apply probe_hit.
    + destruct (IH w1) as (ids & w2 & o & Hp).
      exists (adp_id adp :: ids), w2, o. by eapply probe_miss.
Qed.

(** The loop of [bus.result] follows it. *)
Lemma result_loop_of_probe (adps : list (CacheAdapter W)) ctx qry
    (w : W) (ids : list nat) (w1 : W) (o : option Result) :
  probe ctx qry adps w ids w1 o ->
  ids `prefix_of` map adp_id adps
  /\ (o = None -> ids = map adp_id adps)
  /\ forall its,
       result_loop adps ctx qry {| world := w; iters := its |}
       = (loadedFromCache <$> o, {| world := w1; iters := its |},
          map (fun a => EvGet a qry) ids).
Proof.
  induction 1 as [w|adp adps w w1 res Hget
                  |adp adps w w1 ids w2 o Hget _ (Hpre & Hall & IH)].
  - split; [apply prefix_nil|]. split; [done|]. reflexivity.
  - split; [cbn; apply prefix_cons, prefix_nil|]. split; [discriminate|].
    intros its. cbn [result_loop]. unfold bind, call. cbn [world iters].
    by rewrite Hget.
  - split; [cbn; by apply prefix_cons|].
    split; [intros Ho; cbn; by rewrite Hall|].
    intros its. cbn [result_loop]. unfold bind, call. cbn [world iters].
    rewrite Hget. cbn. by rewrite IH.
Qed.

(** ** The cache write path *)

Lemma handleCache_loop_cached (adps : list (CacheAdapter W)) ctx qry res st :
  handleCache_loop adps ctx qry res true st = (true, st, []).
Proof. induction adps as [|adp rest IH]; [reflexivity | exact IH]. Qed.

(** The write path always has an outcome. *)
Lemma offer_total (adps : list (CacheAdapter W)) ctx qry (res : Result)
    (w : W) :
  exists ids w1 ok, offer ctx qry res adps w ids w1 ok.
Proof.
  revert w. induction adps as [|adp rest IH]; intros w.
  - exists [], w, false. constructor.
  - destruct (adp_Set adp w ctx qry res) as [w1 [|]] eqn:Hset.
    + exists [adp_id adp], w1, true. by apply offer_accepted.
    + destruct (IH w1) as (ids & w2 & ok & Ho).
      exists (adp_id adp :: ids), w2, ok. by eapply offer_refused.
Qed.

(** The loop of [bus.handleCache] follows it. *)
Lemma handleCache_loop_of_offer (adps : list (CacheAdapter W)) ctx qry
    (res : Result) (w : W) (ids : list nat) (w1 : W) (ok : bool) :
  offer ctx qry res adps w ids w1 ok ->
  ids `prefix_of` map adp_id adps
  /\ (ok = false -> ids = map adp_id adps)
  /\ forall its,
       handleCache_loop adps ctx qry res false {| world := w; iters := its |}
       = (ok, {| world := w1; iters := its |},
          map (fun a => EvSet a qry) ids).
Proof.
  induction 1 as [w|adp adps w w1 Hset
                  |adp adps w w1 ids w2 ok Hset _ (Hpre & Hall & IH)].
  - split; [apply prefix_nil|]. split; [done|]. reflexivity.
  - split; [cbn; apply prefix_cons, prefix_nil|]. split; [discriminate|].
    intros its. cbn [handleCache_loop]. unfold bind, call.
    cbn [world iters]. rewrite Hset. by rewrite handleCache_loop_cached.
  - split; [cbn; by apply prefix_cons|].
    split; [intros Hok; cbn; by rewrite Hall|].
    intros its. cbn [handleCache_loop]. unfold bind, call.
    cbn [world iters]. rewrite Hset. by rewrite IH.
Qed.

(** The loop of [bus.query] follows the chain. *)
Lemma query_loop_of_chain bus (hdls : list (Handler W)) ctx qry
    (res : Result) (w : W) (its : list IteratorResult)
    (ids : list nat) (e : ChainEnd) (w1 : W) (r1 : Result) :
  chain hdl_id (fun hdl w r => hdl_Handle hdl w ctx qry r)
        propagationStopped hdls w res ids e w1 r1 ->
  query_loop bus hdls ctx qry res {| world := w; iters := its |}
  = match e with
    | Errored err =>
        (r1, Some err,
         {| world := fanout_world bus ctx qry err w1; iters := its |},
         map (fun i => EvHandle i qry) ids ++ fanout_events bus qry err)
    | _ =>
        (r1, None, {| world := w1; iters := its |},
         map (fun i => EvHandle i qry) ids)
    end.
Proof.
  induction 1 as [w r|hdl hdls w r w1 r1 err Hh|hdl hdls w r w1 r1 Hh Hs
                  |hdl hdls w r w1 r1 ids e w2 r2 Hh Hs _ IH].
  - reflexivity.
  - cbn [query_loop]. unfold bind, call. cbn [world iters]. rewrite Hh.
    rewrite error_spec. cbn. by rewrite app_nil_r.
  - cbn [query_loop]. unfold bind, call. cbn [world iters]. rewrite Hh, Hs.
    reflexivity.
  - cbn [query_loop]. unfold bind, call. cbn [world iters]. rewrite Hh, Hs.
    rewrite IH. by destruct e.
Qed.

(** [bus.query] comes to the outcome of the chain its handlers run. *)
Lemma query_of_chain bus ctx qry (res : Result) st
    (ids : list nat) (e : ChainEnd) (w1 : W) (r1 : Result) :
  chain hdl_id (fun hdl w r => hdl_Handle hdl w ctx qry r)
        propagationStopped (handlers bus) (world st) res ids e w1 r1 ->
  query time_Now bus ctx qry res st
  = query_outcome time_Now bus ctx qry (iters st) ids e w1 r1.
Proof.
  intros Hch. destruct st as [w its]. cbn [world iters] in *.
  unfold query, bind, query_outcome.
  rewrite (query_loop_of_chain bus _ ctx qry res w its ids e w1 r1 Hch).
  destruct e as [err| |]; [cbn; by rewrite app_nil_r | ..].
  all: destruct (isHandled r1); cbn [negb]; unfold bind.
  all: try (destruct (handleCache time_Now bus ctx qry r1 _)
              as [[r2 st2] tr]; cbn; by rewrite app_nil_r).
  all: rewrite error_spec; cbn; by rewrite app_nil_r.
Qed.

(** C1, as the code has it.  For a Cacheable query with a strictly
    positive cache duration: when the handler chain ends without a
    handler error on a handled result, [Query] goes on to the write-back
    and returns its result with a nil error.  The write-back reads the
    clock ([at]), sets the expiry of the result to [at] plus the
    duration, and offers the result to the cache adapters in registration
    order until one accepts: [Set] is called on the adapters up to and
    including the first that returns true and on none after it, and on
    all of them when none accepts.  The result is marked cached, at [at],
    exactly when one of these calls returned true. *)
Theorem handleCache_write_back bus ctx qry (c : Cacheable) :
  asCacheable qry = Some c ->
  (0 < CacheDuration c)%Z ->
  (forall (res : Result) st ids e w1 r1,
     chain hdl_id (fun hdl w r => hdl_Handle hdl w ctx qry r)
           propagationStopped (handlers bus) (world st) res ids e w1 r1 ->
     is_Errored e = false ->
     isHandled r1 = true ->
     query time_Now bus ctx qry res st
     = (let '(r2, st2, tr) :=
          handleCache time_Now bus ctx qry r1
                      {| world := w1; iters := iters st |} in
        (r2, None, st2, map (fun i => EvHandle i qry) ids ++ tr)))
  /\ (forall (res : Result) st,
        let at_ := time_Now (world st) in
        let res1 := expires res (at_ + CacheDuration c)%Z in
        (exists ids w1 ok,
           offer ctx qry res1 (cacheAdapters bus) (world st) ids w1 ok)
        /\ forall ids w1 ok,
             offer ctx qry res1 (cacheAdapters bus) (world st) ids w1 ok ->
             ids `prefix_of` map adp_id (cacheAdapters bus)
             /\ (ok = false -> ids = map adp_id (cacheAdapters bus))
             /\ handleCache time_Now bus ctx qry res st
                = (if ok then cached res1 at_ else res1,
                   {| world := w1; iters := iters st |},
                   map (fun a => EvSet a qry) ids)
             /\ expiresAt (if ok then cached res1 at_ else res1)
                = Some (at_ + CacheDuration c)%Z
             /\ cachedAt (if ok then cached res1 at_ else res1)
                = if ok then Some at_ else cachedAt res).
Proof.
  intros Hc Hpos. split.
  - intros res st ids e w1 r1 Hch He Hh.
    rewrite (query_of_chain bus ctx qry res st ids e w1 r1 Hch).
    unfold query_outcome. rewrite Hh. by destruct e.
  - intros res st at_ res1. split; [apply offer_total|].
    intros ids w1 ok Ho.
    destruct (handleCache_loop_of_offer _ _ _ _ _ _ _ _ Ho)
      as (Hpre & Hall & Heq).
    do 2 (split; [assumption|]). split.
    + unfold handleCache. rewrite Hc.
      apply Z.ltb_lt in Hpos. rewrite Hpos.
      unfold bind, now. fold at_. fold res1.
      destruct st as [w its]. cbn [world iters] in *. rewrite Heq.
      destruct ok; cbn; by rewrite app_nil_r.
    + destruct ok; split; reflexivity.
Qed.

(** Without a positive duration, or for a query that is not Cacheable,
    nothing is written. *)
Lemma handleCache_skips bus ctx qry (res : Result) st :
  match asCacheable qry with
  | Some c => (CacheDuration c <= 0)%Z
  | None => True
  end ->
  handleCache time_Now bus ctx qry res st = (res, st, []).
Proof.
  intros H. unfold handleCache. destruct (asCacheable qry) as [c|]; [|done].
  destruct (Z.ltb_spec 0 (CacheDuration c)); [lia | done].
Qed.

(** ** Failures of the synchronous dispatch *)

Lemma query_loop_error_reported bus (hdls : list (Handler W)) ctx qry res st
    (r : Result) (e : Err) st' tr :
  query_loop bus hdls ctx qry res st = (r, Some e, st', tr) ->
  exists tr0, tr = tr0 ++ fanout_events bus qry e.
Proof.
  revert res st st' tr.
  induction hdls as [|hdl rest IH]; intros res st st' tr.
  - discriminate.
  - cbn [query_loop]. unfold bind, call.
    destruct (hdl_Handle hdl (world st) ctx qry res) as [[w1 r1] [err|]].
    + rewrite error_spec. cbn. intros [= -> -> <- <-].
      exists [EvHandle (hdl_id hdl) qry]. by rewrite app_nil_r.
    + destruct (propagationStopped r1); [discriminate|].
      destruct (query_loop bus rest ctx qry r1 _) as [[[r2 e2] st2] tr2] eqn:Hl.
      intros [= -> -> <- <-].
      destruct (IH _ _ _ _ Hl) as [tr0 ->].
      exists ([EvHandle (hdl_id hdl) qry] ++ tr0). by rewrite <- app_assoc.
Qed.

Lemma query_error_reported bus ctx qry res st (r : Result) (e : Err) st' tr :
  query time_Now bus ctx qry res st = (r, Some e, st', tr) ->
  exists tr0, tr = tr0 ++ fanout_events bus qry e.
Proof.
  unfold query, bind.
  destruct (query_loop bus (handlers bus) ctx qry res st)
    as [[[r1 [e1|]] st1] tr1] eqn:Hl.
  - cbn. intros [= -> -> <- <-].
    destruct (query_loop_error_reported _ _ _ _ _ _ _ _ _ _ Hl) as [tr0 ->].
    exists tr0. by rewrite app_nil_r.
  - destruct (negb (isHandled r1)).
    + unfold bind. rewrite error_spec. cbn. intros [= -> <- <- <-].
      exists tr1. by rewrite app_nil_r.
    + unfold bind.
      destruct (handleCache time_Now bus ctx qry r1 st1) as [[r2 st2] tr2].
      discriminate.
Qed.

(** C8, as the code has it.  A nil query fails validation: the caller
    gets [InvalidQuery] and a nil result, and the error is delivered to
    every error observer.  Every other failing [Query] call returns a
    non-nil result together with its error, and the last thing the call
    did was to deliver that error to every error observer. *)
Theorem Query_failure_results bus ctx st :
  Bus_Query time_Now bus ctx None st
  = (None, Some InvalidQueryError,
     {| world := fanout_world bus ctx None InvalidQueryError (world st);
        iters := iters st |},
     fanout_events bus None InvalidQueryError)
  /\ forall (q : QueryVal) (r : option Result) (e : Err) st' tr,
       Bus_Query time_Now bus ctx (Some q) st = (r, Some e, st', tr) ->
       is_Some r
       /\ exists tr0, tr = tr0 ++ fanout_events bus (Some q) e.
Proof.
  split.
  - unfold Bus_Query, bind, isValid, bind. rewrite error_spec. cbn.
    by rewrite !app_nil_r.
  - intros q r e st' tr.
    unfold Bus_Query, bind, isValid, ret.
    destruct (result bus ctx (Some q) st) as [[[res [|]] st1] tr1] eqn:Hres.
    + discriminate.
    + destruct (query time_Now bus ctx (Some q) res st1)
        as [[[r2 e2] st2] tr2] eqn:Hq.
      cbn. intros [= <- -> <- <-]. split; [eauto|].
      destruct (query_error_reported _ _ _ _ _ _ _ _ _ Hq) as [tr0 ->].
      exists (tr1 ++ tr0). by rewrite app_nil_r, app_assoc.
Qed.

(** ** The handler chain *)

(** A chain always has an outcome, and the handlers that ran are a
    prefix of the registered ones: all of them when the chain is
    exhausted. *)
Lemma chain_total {H R : Type} (id : H -> nat)
    (handle : H -> W -> R -> W * R * option Err) (stopped : R -> bool)
    (hdls : list H) (w : W) (r : R) :
  exists ids e w1 r1, chain id handle stopped hdls w r ids e w1 r1.
Proof.
  revert w r. induction hdls as [|hdl rest IH]; intros w r.
  - exists [], Exhausted, w, r. constructor.
  - destruct (handle hdl w r) as [[w1 r1] [err|]] eqn:Hh.
    + exists [id hdl], (Errored err), w1, r1. by apply chain_error.
    + destruct (stopped r1) eqn:Hs.
      * exists [id hdl], Stopped, w1, r1. by apply chain_stopped.
      * destruct (IH w1 r1) as (ids & e & w2 & r2 & Hch).
        exists (id hdl :: ids), e, w2, r2. by eapply chain_next.
Qed.

Lemma chain_prefix {H R : Type} (id : H -> nat)
    (handle : H -> W -> R -> W * R * option Err) (stopped : R -> bool)
    (hdls : list H) (w : W) (r : R) ids e w1 r1 :
  chain id handle stopped hdls w r ids e w1 r1 ->
  ids `prefix_of` map id hdls /\ (e = Exhausted -> ids = map id hdls).
Proof.
  induction 1 as [w r|hdl hdls w r w1 r1 err Hh|hdl hdls w r w1 r1 Hh Hs
                  |hdl hdls w r w1 r1 ids e w2 r2 Hh Hs _ [IH1 IH2]].
  - split; [apply prefix_nil | done].
  - split; [cbn; apply prefix_cons, prefix_nil | discriminate].
  - split; [cbn; apply prefix_cons, prefix_nil | discriminate].
  - split; [cbn; by apply prefix_cons|]. intros He. cbn. by rewrite IH2.
Qed.

(** The loop of [bus.iteratorQuery] follows the chain. *)
Lemma iteratorQuery_loop_of_chain bus (hdls : list (IteratorHandler W))
    ctx qry (w : W) (r : IteratorResult)
    (ids : list nat) (e : ChainEnd) (w1 : W) (r1 : IteratorResult) :
  chain ihdl_id (fun hdl w r => ihdl_Handle hdl w ctx qry r)
        it_stopPropagation hdls w r ids e w1 r1 ->
  forall (h : nat) (its : list IteratorResult),
    h < length its ->
    its !!! h = r ->
    iteratorQuery_loop bus hdls ctx qry h {| world := w; iters := its |}
    = match e with
      | Errored err =>
          (true,
           {| world := fanout_world bus ctx qry err w1;
              iters := <[h := r1]> its |},
           map (fun i => EvIteratorHandle i qry h) ids
           ++ fanout_events bus qry err)
      | Stopped =>
          (true, {| world := w1; iters := <[h := r1]> its |},
           map (fun i => EvIteratorHandle i qry h) ids)
      | Exhausted =>
          (false, {| world := w1; iters := <[h := r1]> its |},
           map (fun i => EvIteratorHandle i qry h) ids)
      end.
Proof.
  induction 1 as [w r|hdl hdls w r w1 r1 err Hh|hdl hdls w r w1 r1 Hh Hs
                  |hdl hdls w r w1 r1 ids e w2 r2 Hh Hs _ IH];
    intros h its Hlt Hr.
  - cbn. rewrite list_insert_id; [done|].
    rewrite <- Hr. by apply list_lookup_lookup_total_lt.
  - cbn [iteratorQuery_loop]. unfold bind, call_iteratorHandler.
    cbn [world iters]. rewrite Hr, Hh. rewrite error_spec. cbn.
    by rewrite app_nil_r.
  - cbn [iteratorQuery_loop]. unfold bind, call_iteratorHandler, read_result.
    cbn [world iters]. rewrite Hr, Hh. cbn [iters].
    rewrite list_lookup_total_insert_eq by done. by rewrite Hs.
  - cbn [iteratorQuery_loop]. unfold bind, call_iteratorHandler, read_result.
    cbn [world iters]. rewrite Hr, Hh. cbn [iters].
    rewrite list_lookup_total_insert_eq by done. rewrite Hs.
    rewrite (IH h (<[h := r1]> its));
      [|by rewrite length_insert|by apply list_lookup_total_insert_eq].
    rewrite list_insert_insert_eq. by destruct e.
Qed.

(** [bus.iteratorQuery] comes to the outcome of the chain its handlers
    run on the iterator result behind a live handle. *)
Lemma iteratorQuery_of_chain bus ctx qry (h : nat) st
    (ids : list nat) (e : ChainEnd) (w1 : W) (r1 : IteratorResult) :
  h < length (iters st) ->
  chain ihdl_id (fun hdl w r => ihdl_Handle hdl w ctx qry r)
        it_stopPropagation (iteratorHandlers bus) (world st) (iters st !!! h)
        ids e w1 r1 ->
  iteratorQuery bus ctx qry h st
  = iteratorQuery_outcome bus ctx qry h (iters st) ids e w1 r1.
Proof.
  intros Hlt Hch. destruct st as [w its]. cbn [world iters] in *.
  unfold iteratorQuery, bind, iteratorQuery_outcome.
  rewrite (iteratorQuery_loop_of_chain bus _ ctx qry w _ ids e w1 r1 Hch
             h its Hlt eq_refl).
  destruct e as [err| |]; cbn; try by rewrite app_nil_r.
  unfold read_result. cbn [iters].
  rewrite list_lookup_total_insert_eq by done.
  destruct (it_handled r1); cbn.
  - by rewrite !app_nil_r.
  - rewrite error_spec. cbn. reflexivity.
Qed.

(** A chain of handlers that keep to the interface of the result
    leaves a result stopped only when handled. *)
(** A fresh iterator result keeps the interface, as does every result
    that [Yield] and [Done] lead to; attaching and closing change
    nothing to it. *)
Lemma results_keep_interface (buf : Z) (v : Value) (r : IteratorResult) :
  stop_means_handled (newIteratorResult buf)
  /\ stop_means_handled (IteratorResult_Yield v r)
  /\ stop_means_handled (IteratorResult_Done r)
  /\ (stop_means_handled r ->
      stop_means_handled (attach_result r)
      /\ stop_means_handled (close_result r)).
Proof.
  unfold stop_means_handled. cbn. repeat split; try done.
Qed.

Lemma chain_keeps_interface (hdls : list (IteratorHandler W)) ctx qry
    (w : W) (r : IteratorResult) ids e w1 r1 :
  Forall keeps_interface hdls ->
  stop_means_handled r ->
  chain ihdl_id (fun hdl w r => ihdl_Handle hdl w ctx qry r)
        it_stopPropagation hdls w r ids e w1 r1 ->
  stop_means_handled r1.
Proof.
  intros Hk Hr Hch.
  induction Hch as [w r|hdl hdls w r w1 r1 err Hh|hdl hdls w r w1 r1 Hh Hs
                    |hdl hdls w r w1 r1 ids e w2 r2 Hh Hs _ IH].
  - done.
  - apply Forall_cons in Hk as [Hk _].
    specialize (Hk w ctx qry r Hr). by rewrite Hh in Hk.
  - apply Forall_cons in Hk as [Hk _].
    specialize (Hk w ctx qry r Hr). by rewrite Hh in Hk.
  - apply Forall_cons in Hk as [Hk Hks]. apply IH; [done|].
    specialize (Hk w ctx qry r Hr). by rewrite Hh in Hk.
Qed.


(** ** The cache read path, end to end *)

(** C5. For a Cacheable query, [Query] probes the cache adapters in
    registration order, a miss advancing to the next adapter.  On the
    first hit the stored result is returned as it is, marked as loaded
    from the cache, with a nil error, and the trace holds nothing but the
    [Get] calls up to the hit: no handler is invoked.  When every adapter
    misses, all of them were asked, and the handler chain is then run on
    a new result: after the [Get] calls come the calls of the handlers of
    that chain, in order, and the outcome of [Query] is the outcome of
    the chain. *)
Theorem Query_cache_read_path bus ctx qry (c : Cacheable) st :
  asCacheable qry = Some c ->
  (exists ids w1 o, probe ctx qry (cacheAdapters bus) (world st) ids w1 o)
  /\ forall ids w1 o,
       probe ctx qry (cacheAdapters bus) (world st) ids w1 o ->
       ids `prefix_of` map adp_id (cacheAdapters bus)
       /\ match o with
          | Some res =>
              Bus_Query time_Now bus ctx qry st
              = (Some (loadedFromCache res), None,
                 {| world := w1; iters := iters st |},
                 map (fun a => EvGet a qry) ids)
              /\ loaded (loadedFromCache res) = true
              /\ data (loadedFromCache res) = data res
              /\ forall hdl q,
                   EvHandle hdl q ∉ map (fun a => EvGet a qry) ids
          | None =>
              ids = map adp_id (cacheAdapters bus)
              /\ Bus_Query time_Now bus ctx qry st
                 = (let '(r, e, st2, tr) :=
                      query time_Now bus ctx qry (newCacheableResult c)
                            {| world := w1; iters := iters st |} in
                    (Some r, e, st2, map (fun a => EvGet a qry) ids ++ tr))
              /\ (exists ran e w2 r1,
                    chain hdl_id (fun hdl w r => hdl_Handle hdl w ctx qry r)
                          propagationStopped (handlers bus) w1
                          (newCacheableResult c) ran e w2 r1)
              /\ forall ran e w2 r1,
                   chain hdl_id (fun hdl w r => hdl_Handle hdl w ctx qry r)
                         propagationStopped (handlers bus) w1
                         (newCacheableResult c) ran e w2 r1 ->
                   ran `prefix_of` map hdl_id (handlers bus)
                   /\ (e = Exhausted -> ran = map hdl_id (handlers bus))
                   /\ Bus_Query time_Now bus ctx qry st
                      = (let '(r, err, st2, tr) :=
                           query_outcome time_Now bus ctx qry (iters st)
                                         ran e w2 r1 in
                         (Some r, err, st2,
                          map (fun a => EvGet a qry) ids ++ tr))
                   /\ exists rest,
                        (Bus_Query time_Now bus ctx qry st).2
                        = map (fun a => EvGet a qry) ids
                          ++ map (fun i => EvHandle i qry) ran
                          ++ rest
          end.
Proof.
  intros Hc. split; [apply probe_total|].
  intros ids w1 o Hp.
  destruct (result_loop_of_probe _ _ _ _ _ _ _ Hp) as (Hpre & Hall & Heq).
  split; [exact Hpre|].
  assert (Hq : exists q, qry = Some q).
  { destruct qry; [eauto | discriminate]. }
  destruct Hq as [q ->]. destruct st as [w its]. cbn [world iters] in *.
  assert (Hmiss : o = None ->
            Bus_Query time_Now bus ctx (Some q) {| world := w; iters := its |}
            = (let '(r, e, st2, tr) :=
                 query time_Now bus ctx (Some q) (newCacheableResult c)
                       {| world := w1; iters := its |} in
               (Some r, e, st2, map (fun a => EvGet a (Some q)) ids ++ tr))).
  { intros ->. unfold Bus_Query, bind, isValid, ret, result. rewrite Hc.
    unfold bind. rewrite Heq. cbn.
    destruct (query time_Now bus ctx (Some q) (newCacheableResult c)
                {| world := w1; iters := its |}) as [[[r e] st2] tr].
    cbn. by rewrite !app_nil_r. }
  destruct o as [res|].
  - unfold Bus_Query, bind, isValid, ret, result. rewrite Hc.
    unfold bind. rewrite Heq. cbn.
    split; [by rewrite !app_nil_r|]. do 2 (split; [reflexivity|]).
    intros hdl q' Hin. apply list_elem_of_fmap in Hin as (a & Ha & _).
    discriminate.
  - specialize (Hmiss eq_refl).
    split; [by apply Hall|]. split; [exact Hmiss|].
    split; [apply chain_total|].
    intros ran e w2 r1 Hch.
    destruct (chain_prefix _ _ _ _ _ _ _ _ _ _ Hch) as [Hrp Hra].
    do 2 (split; [assumption|]).
    rewrite Hmiss.
    rewrite (query_of_chain bus ctx (Some q) (newCacheableResult c)
               {| world := w1; iters := its |} ran e w2 r1 Hch).
    cbn [iters]. split; [reflexivity|].
    unfold query_outcome.
    destruct (handleCache time_Now bus ctx (Some q) r1
                {| world := w2; iters := its |}) as [[r2 st2] tr2].
    destruct e as [err| |]; [|destruct (isHandled r1)..]; cbn;
      by eexists.
Qed.

(** ** Counting *)

Lemma countb_app {A} (f : A -> bool) (l1 l2 : list A) :
  countb f (l1 ++ l2) = countb f l1 + countb f l2.
Proof. induction l1 as [|x l1 IH]; cbn; [done | rewrite IH; lia]. Qed.

Lemma countb_insert {A} (f : A -> bool) (l : list A) (i : nat) (x y : A) :
  l !! i = Some x ->
  countb f (<[i := y]> l) + (if f x then 1 else 0)
  = countb f l + (if f y then 1 else 0).
Proof.
  revert i. induction l as [|z l IH]; intros [|i] Hi; try discriminate.
  - simpl in *. injection Hi as ->. lia.
  - simpl in *. specialize (IH i Hi). lia.
Qed.

Lemma countb_lookup {A} (f : A -> bool) (l : list A) (i : nat) (x : A) :
  l !! i = Some x -> (if f x then 1 else 0) <= countb f l.
Proof.
  revert i. induction l as [|z l IH]; intros [|i] Hi; try discriminate.
  - simpl in *. injection Hi as ->. lia.
  - simpl in *. specialize (IH i Hi). lia.
Qed.

Lemma countb_replicate {A} (f : A -> bool) (n : nat) (x : A) :
  countb f (replicate n x) = if f x then n else 0.
Proof. induction n as [|n IH]; cbn; [by destruct (f x) | rewrite IH; by destruct (f x)]. Qed.

Lemma countb_le {A} (f g : A -> bool) (l : list A) :
  (forall x, f x = true -> g x = true) -> countb f l <= countb g l.
Proof.
  intros Hfg. induction l as [|x l IH]; cbn; [lia|].
  specialize (Hfg x). destruct (f x), (g x); lia.
Qed.

Lemma countb_zero {A} (f : A -> bool) (l : list A) :
  Forall (fun x => f x = false) l -> countb f l = 0.
Proof. induction 1 as [|x l Hx _ IH]; cbn; [done | by rewrite Hx]. Qed.

Lemma countb_zero_Forall {A} (f : A -> bool) (l : list A) :
  countb f l = 0 -> Forall (fun x => f x = false) l.
Proof.
  induction l as [|x l IH]; cbn; [constructor|].
  destruct (f x) eqn:Hx; [lia|]. intros H. constructor; auto.
Qed.

Lemma live_zero_all_exited (ws : list WorkerPC) :
  live ws = 0 <-> all_exited ws.
Proof.
  unfold live, all_exited. split.
  - intros H. apply countb_zero_Forall in H.
    eapply Forall_impl; [exact H|]. by intros [| |].
  - intros H. apply countb_zero. eapply Forall_impl; [exact H|].
    by intros pc ->.
Qed.

(** ** Wrap-around of the worker count *)

Lemma AddUint32_down (c : Z) :
  (0 < c < uint32_modulus)%Z ->
  AddUint32 c (uint32_modulus - 1) = (c - 1)%Z.
Proof.
  intros H. unfold AddUint32.
  replace (c + (uint32_modulus - 1))%Z with (c - 1 + 1 * uint32_modulus)%Z
    by lia.
  rewrite Z_mod_plus_full. apply Z.mod_small. lia.
Qed.

Lemma AddUint32_up (c : Z) :
  (0 <= c < uint32_modulus - 1)%Z -> AddUint32 c 1 = (c + 1)%Z.
Proof. intros H. unfold AddUint32. apply Z.mod_small. lia. Qed.

(** ** The events of serving a query *)

Lemma fanout_events_service bus qry err :
  Forall (fun ev => is_service ev = true) (fanout_events bus qry err).
Proof. unfold fanout_events. apply Forall_fmap, Forall_true. done. Qed.

Lemma iteratorQuery_loop_service bus (hdls : list (IteratorHandler W))
    ctx qry (h : nat) st :
  Forall (fun ev => is_service ev = true)
         (iteratorQuery_loop bus hdls ctx qry h st).2.
Proof.
  revert st. induction hdls as [|hdl rest IH]; intros st; [constructor|].
  cbn [iteratorQuery_loop]. unfold bind, call_iteratorHandler, read_result.
  destruct (ihdl_Handle hdl (world st) ctx qry (iters st !!! h))
    as [[w1 r1] [err|]].
  - rewrite error_spec. cbn. constructor; [done|].
    rewrite app_nil_r. apply fanout_events_service.
  - cbn [iters]. destruct (it_stopPropagation _).
    + cbn. by constructor.
    + specialize (IH {| world := w1; iters := <[h := r1]> (iters st) |}).
      destruct (iteratorQuery_loop bus rest ctx qry h _) as [[b st2] t2].
      cbn in *. by constructor.
Qed.

Lemma iteratorQuery_service bus ctx qry (h : nat) st :
  Forall (fun ev => is_service ev = true) (iteratorQuery bus ctx qry h st).2.
Proof.
  unfold iteratorQuery, bind.
  pose proof (iteratorQuery_loop_service bus (iteratorHandlers bus) ctx qry h st)
    as Hl.
  destruct (iteratorQuery_loop bus (iteratorHandlers bus) ctx qry h st)
    as [[[|] st1] t1]; cbn in *.
  - by rewrite app_nil_r.
  - unfold read_result. destruct (negb _); cbn.
    + rewrite error_spec. cbn. apply Forall_app. split; [done|].
      apply fanout_events_service.
    + by rewrite app_nil_r.
Qed.

Lemma iteratorWorker_body_service bus (penQry : pendingIteratorQuery) st :
  Forall (fun ev => is_service ev = true) (iteratorWorker_body bus penQry st).2.
Proof.
  unfold iteratorWorker_body, bind, waitListener, bind, read_result, ret.
  cbn. destruct (listening _).
  - pose proof (iteratorQuery_service bus (pen_ctx penQry) (pen_qry penQry)
                  (pen_res penQry) st) as Hq.
    destruct (iteratorQuery _ _ _ _ st) as [[u st1] t1]. cbn in *.
    apply Forall_app. split; [done|]. by constructor.
  - rewrite error_spec. cbn. apply fanout_events_service.
Qed.

Lemma isIteratorValid_service bus ctx qry st :
  Forall (fun ev => is_service ev = true) (isIteratorValid bus ctx qry st).2.
Proof.
  unfold isIteratorValid, bind, isValid.
  destruct qry as [q|]; cbn.
  - destruct (negb (isInitialized bus)); cbn.
    + unfold bind. rewrite error_spec. cbn. rewrite app_nil_r.
      apply fanout_events_service.
    + destruct (isShuttingDown bus); cbn; [|constructor].
      unfold bind. rewrite error_spec. cbn. rewrite app_nil_r.
      apply fanout_events_service.
  - unfold bind. rewrite error_spec. cbn. rewrite !app_nil_r.
    apply fanout_events_service.
Qed.

Lemma service_countb (f : Event -> bool) (tr : list Event) :
  (forall ev, is_service ev = true -> f ev = false) ->
  Forall (fun ev => is_service ev = true) tr ->
  countb f tr = 0.
Proof.
  intros Hf Htr. apply countb_zero. eapply Forall_impl; [exact Htr|]. exact Hf.
Qed.

(** ** The invariant of the pool *)

Lemma pool_inv_init (s : Sys W) :
  quiescent s -> pool_inv (live (sys_workers s)) [] s.
Proof.
  intros [Hsd Hinit Hcrit Hws Hcnt Hb].
  pose proof (countb_le is_SDown is_crit (sys_callers s)) as H1.
  pose proof (countb_le is_SRecv is_crit (sys_callers s)) as H2.
  pose proof (countb_le is_teardown_pc is_crit (sys_callers s)) as H3.
  pose proof (countb_le is_SResetShut is_crit (sys_callers s)) as H4.
  assert (countb is_SResetShut (sys_callers s) = 0)
    by (cut (countb is_SResetShut (sys_callers s)
             <= countb is_crit (sys_callers s));
        [lia | apply H4; by intros []]).
  assert (countb is_SDown (sys_callers s) = 0)
    by (cut (countb is_SDown (sys_callers s) <= countb is_crit (sys_callers s));
        [lia | apply H1; by intros []]).
  assert (countb is_SRecv (sys_callers s) = 0)
    by (cut (countb is_SRecv (sys_callers s) <= countb is_crit (sys_callers s));
        [lia | apply H2; by intros []]).
  assert (countb is_teardown_pc (sys_callers s) = 0)
    by (cut (countb is_teardown_pc (sys_callers s)
             <= countb is_crit (sys_callers s));
        [lia | apply H3; by intros []]).
  constructor; cbn; try lia; try done.
Qed.

Ltac callers_facts Hlk new :=
  let H1 := fresh "Hc" in let H2 := fresh "Hc" in
  let H3 := fresh "Hc" in let H4 := fresh "Hc" in
  pose proof (countb_insert is_crit _ _ _ new Hlk) as H1;
  pose proof (countb_insert is_SDown _ _ _ new Hlk) as H2;
  pose proof (countb_insert is_SRecv _ _ _ new Hlk) as H3;
  pose proof (countb_insert is_teardown_pc _ _ _ new Hlk) as H4;
  let H5 := fresh "Hc" in let H6 := fresh "Hc" in
  let H7 := fresh "Hc" in let H8 := fresh "Hc" in
  pose proof (countb_lookup is_crit _ _ _ Hlk) as H5;
  pose proof (countb_lookup is_SDown _ _ _ Hlk) as H6;
  pose proof (countb_lookup is_SRecv _ _ _ Hlk) as H7;
  pose proof (countb_lookup is_teardown_pc _ _ _ Hlk) as H8;
  let H9 := fresh "Hc" in let H10 := fresh "Hc" in
  pose proof (countb_insert is_SResetShut _ _ _ new Hlk) as H9;
  pose proof (countb_lookup is_SResetShut _ _ _ Hlk) as H10;
  cbn in H1, H2, H3, H4, H5, H6, H7, H8, H9, H10.

Ltac inv_split Hinv :=
  destruct Hinv as [Isd Iex Iinit Icnt Iacks Ibound Idown Isent Itpc Itev
                      Ireset Iord];
  constructor; cbn [sys_bus sys_store sys_workers sys_callers with_bus
                    with_store with_worker with_caller
                    shuttingDown initialized iteratorWorkers
                    set_shuttingDown set_initialized set_iteratorWorkers
                    set_iteratorQueryQueue];
  rewrite ?countb_app; cbn [countb is_ack is_sentinel is_teardown
                            is_reset_initialized is_reset_shuttingDown];
  unfold live in *.

Lemma pool_inv_caller_step n0 tr (s : Sys W) (t : nat) (pc : ShutdownPC W)
    s' evs :
  pool_inv n0 tr s ->
  sys_callers s !! t = Some pc ->
  caller_step t pc s = Some (s', evs) ->
  pool_inv n0 (tr ++ evs) s'.
Proof.
  intros Hinv Hlk Hstep.
  destruct pc as [| | | | |[|adp rest]| |ran]; unfold caller_step in Hstep.
  - unfold CompareAndSwapUint32 in Hstep.
    destruct (Z.eqb_spec (shuttingDown (sys_bus s)) 0) as [Hsd|Hsd];
      injection Hstep as <- <-.
    + callers_facts Hlk (@SLoop W). inv_split Hinv; lia.
    + callers_facts Hlk (@SReturn W false). inv_split Hinv; lia.
  - destruct (Z.ltb_spec 0 (iteratorWorkers (sys_bus s))) as [Hw|Hw];
      injection Hstep as <- <-.
    + callers_facts Hlk (@SSend W). inv_split Hinv; lia.
    + callers_facts Hlk (SAdapters (cacheAdapters (sys_bus s))).
      inv_split Hinv; lia.
  - destruct (can_send _ _); [|discriminate]. injection Hstep as <- <-.
    callers_facts Hlk (@SRecv W). inv_split Hinv; lia.
  - discriminate.
  - injection Hstep as <- <-.
    callers_facts Hlk (@SLoop W).
    assert (Hdown : AddUint32 (iteratorWorkers (sys_bus s)) (uint32_modulus - 1)
                    = (iteratorWorkers (sys_bus s) - 1)%Z).
    { apply AddUint32_down. destruct Hinv. lia. }
    inv_split Hinv; rewrite ?Hdown; lia.
  - unfold CompareAndSwapUint32 in Hstep.
    destruct (Z.eqb_spec (initialized (sys_bus s)) 1) as [Hi|Hi];
      injection Hstep as <- <-.
    + callers_facts Hlk (@SResetShut W). inv_split Hinv; lia.
    + callers_facts Hlk (@SResetShut W). inv_split Hinv; lia.
  - rewrite shutdown_adapters_spec in Hstep. injection Hstep as <- <-.
    callers_facts Hlk (SAdapters rest). inv_split Hinv; lia.
  - unfold CompareAndSwapUint32 in Hstep.
    destruct (Z.eqb_spec (shuttingDown (sys_bus s)) 1) as [Hsd|Hsd];
      injection Hstep as <- <-.
    + callers_facts Hlk (@SReturn W true). inv_split Hinv; lia.
    + callers_facts Hlk (@SReturn W true). inv_split Hinv; lia.
  - discriminate.
Qed.

Ltac service_counts Hsv :=
  let H1 := fresh "Hs" in let H2 := fresh "Hs" in let H3 := fresh "Hs" in
  let H4 := fresh "Hs" in let H5 := fresh "Hs" in
  pose proof (service_countb is_ack _ ltac:(by intros []) Hsv) as H1;
  pose proof (service_countb is_sentinel _ ltac:(by intros []) Hsv) as H2;
  pose proof (service_countb is_teardown _ ltac:(by intros []) Hsv) as H3;
  pose proof (service_countb is_reset_initialized _ ltac:(by intros []) Hsv) as H4;
  pose proof (service_countb is_reset_shuttingDown _ ltac:(by intros []) Hsv) as H5.

Lemma pool_inv_step n0 tr (s : Sys W) (a : Action) s' evs :
  pool_inv n0 tr s ->
  step s a = Some (s', evs) ->
  pool_inv n0 (tr ++ evs) s'.
Proof.
  intros Hinv Hstep. destruct a as [t|i|t i|h|ctx qry]; unfold step in Hstep.
  - destruct (sys_callers s !! t) as [pc|] eqn:Hlk; [|discriminate].
    by eapply pool_inv_caller_step.
  - destruct (sys_workers s !! i) as [[| |]|] eqn:Hlk; try discriminate.
    unfold worker_step in Hstep.
    destruct (iteratorQueryQueue (sys_bus s)) as [|[penQry|] q];
      [discriminate| |].
    + pose proof (iteratorWorker_body_service (sys_bus s) penQry (sys_store s))
        as Hsv.
      destruct (iteratorWorker_body _ _ _) as [[u st] tr1].
      injection Hstep as <- <-. cbn in Hsv. service_counts Hsv.
      inv_split Hinv; lia.
    + injection Hstep as <- <-.
      pose proof (countb_insert is_live _ _ _ WSend Hlk) as Hl. cbn in Hl.
      unfold live in *. inv_split Hinv; lia.
  - destruct (sys_callers s !! t) as [[| | | | | | |]|] eqn:Hlk;
      try discriminate.
    destruct (sys_workers s !! i) as [[| |]|] eqn:Hlw; try discriminate.
    injection Hstep as <- <-.
    callers_facts Hlk (@SDown W).
    pose proof (countb_insert is_live _ _ _ WExit Hlw) as Hl. cbn in Hl.
    unfold live in *. inv_split Hinv; lia.
  - injection Hstep as <- <-. inv_split Hinv; lia.
  - unfold Bus_IteratorQuery in Hstep.
    pose proof (isIteratorValid_service (sys_bus s) ctx qry (sys_store s))
      as Hsv.
    destruct (isIteratorValid _ _ _ _) as [[[err|] st] tr1]; cbn in Hsv.
    + injection Hstep as <- <-. service_counts Hsv. inv_split Hinv; lia.
    + destruct (can_send _ _); [|discriminate].
      injection Hstep as <- <-. service_counts Hsv. inv_split Hinv; lia.
Qed.

Lemma pool_inv_steps (s0 : Sys W) tr s :
  quiescent s0 -> steps s0 tr s -> pool_inv (live (sys_workers s0)) tr s.
Proof.
  intros Hq Hsteps. induction Hsteps as [s0|s0 tr s1 a s2 evs _ IH Hstep].
  - by apply pool_inv_init.
  - eapply pool_inv_step; eauto.
Qed.

(** ** What serving a query touches *)

Lemma insert_lookup_total_id (l : list IteratorResult) (h : nat) :
  <[h := l !!! h]> l = l.
Proof.
  apply list_insert_id'. intros Hlt. by apply list_lookup_lookup_total_lt.
Qed.

Lemma iteratorQuery_loop_frame bus (hdls : list (IteratorHandler W))
    ctx qry (h : nat) st :
  exists r,
    iters (iteratorQuery_loop bus hdls ctx qry h st).1.2
    = <[h := r]> (iters st).
Proof.
  revert st. induction hdls as [|hdl rest IH]; intros st.
  - exists (iters st !!! h). cbn. by rewrite insert_lookup_total_id.
  - cbn [iteratorQuery_loop]. unfold bind, call_iteratorHandler, read_result.
    destruct (ihdl_Handle hdl (world st) ctx qry (iters st !!! h))
      as [[w1 r1] [err|]].
    + rewrite error_spec. cbn. by exists r1.
    + cbn [iters]. destruct (it_stopPropagation _).
      * cbn. by exists r1.
      * destruct (IH {| world := w1; iters := <[h := r1]> (iters st) |})
          as [r Hr].
        destruct (iteratorQuery_loop bus rest ctx qry h _) as [[b st2] t2].
        cbn in *. exists r. by rewrite Hr, list_insert_insert_eq.
Qed.

Lemma iteratorQuery_frame bus ctx qry (h : nat) st :
  exists r,
    iters (iteratorQuery bus ctx qry h st).1.2 = <[h := r]> (iters st).
Proof.
  unfold iteratorQuery, bind.
  destruct (iteratorQuery_loop_frame bus (iteratorHandlers bus) ctx qry h st)
    as [r Hr].
  destruct (iteratorQuery_loop bus (iteratorHandlers bus) ctx qry h st)
    as [[[|] st1] t1]; cbn in *.
  - by exists r.
  - unfold read_result. destruct (negb _); cbn.
    + rewrite error_spec. cbn. by exists r.
    + by exists r.
Qed.

Lemma iteratorQuery_closes_nothing bus ctx qry (h k : nat) st :
  EvClose k ∉ (iteratorQuery bus ctx qry h st).2.
Proof.
  intros Hin.
  pose proof (iteratorQuery_service bus ctx qry h st) as Hsv.
  assert (Hno : forall tr,
    EvClose k ∈ tr ->
    Forall (fun ev => match ev with EvClose _ => False | _ => True end) tr ->
    False).
  { intros tr Hk Hall. rewrite Forall_forall in Hall. exact (Hall _ Hk). }
  apply (Hno _ Hin). clear Hin Hno Hsv.
  unfold iteratorQuery, bind.
  assert (Hloop : forall hdls st0,
    Forall (fun ev => match ev with EvClose _ => False | _ => True end)
           (iteratorQuery_loop bus hdls ctx qry h st0).2).
  { induction hdls as [|hdl rest IH]; intros st0; [constructor|].
    cbn [iteratorQuery_loop]. unfold bind, call_iteratorHandler, read_result.
    destruct (ihdl_Handle hdl (world st0) ctx qry (iters st0 !!! h))
      as [[w1 r1] [err|]].
    - rewrite error_spec. cbn. constructor; [done|]. rewrite app_nil_r.
      unfold fanout_events. by apply Forall_fmap, Forall_true.
    - cbn [iters]. destruct (it_stopPropagation _).
      + cbn. by constructor.
      + specialize (IH {| world := w1; iters := <[h := r1]> (iters st0) |}).
        destruct (iteratorQuery_loop bus rest ctx qry h _) as [[b st2] t2].
        cbn in *. by constructor. }
  specialize (Hloop (iteratorHandlers bus) st).
  destruct (iteratorQuery_loop bus (iteratorHandlers bus) ctx qry h st)
    as [[[|] st1] t1]; cbn in *.
  - by rewrite app_nil_r.
  - unfold read_result. destruct (negb _); cbn.
    + rewrite error_spec. cbn. apply Forall_app. split; [done|].
      unfold fanout_events. by apply Forall_fmap, Forall_true.
    + by rewrite app_nil_r.
Qed.

(** A turn of the worker touches no iterator result but the one of the
    query it serves, and closes no other. *)
Lemma iteratorWorker_body_frame bus (penQry : pendingIteratorQuery) st :
  (exists r,
     iters (iteratorWorker_body bus penQry st).1.2
     = <[pen_res penQry := r]> (iters st))
  /\ forall k, EvClose k ∈ (iteratorWorker_body bus penQry st).2 ->
               k = pen_res penQry.
Proof.
  unfold iteratorWorker_body, bind, waitListener, bind, read_result, ret.
  cbn. destruct (listening _).
  - destruct (iteratorQuery_frame bus (pen_ctx penQry) (pen_qry penQry)
                (pen_res penQry) st) as [r Hr].
    pose proof (iteratorQuery_closes_nothing bus (pen_ctx penQry)
                  (pen_qry penQry) (pen_res penQry)) as Hnc.
    specialize (fun k => Hnc k st).
    destruct (iteratorQuery _ _ _ _ st) as [[u st1] t1]. cbn in *. split.
    + eexists. rewrite Hr, list_insert_insert_eq. reflexivity.
    + intros k Hk. apply elem_of_app in Hk as [Hk|Hk].
      * by apply Hnc in Hk.
      * apply list_elem_of_singleton in Hk. congruence.
  - rewrite error_spec. cbn. split.
    + exists (iters st !!! pen_res penQry). by rewrite insert_lookup_total_id.
    + intros k Hk. unfold fanout_events in Hk.
      apply list_elem_of_fmap in Hk as (eh & Heq & _). discriminate.
Qed.

(** C7. A worker that takes a pending query off the queue decides on
    the readiness signal of its iterator result.  If no consumer has
    attached by the deadline, the query is dropped from the queue, the
    only thing done is the delivery of [QueryTimedOut] to every error
    observer, and no streaming handler is invoked: the store of iterator
    results is as before.  If a consumer has attached, the worker runs the
    streaming handler chain on the iterator result of the query, from the
    first registered handler on, and then closes that result: whatever
    chain the handlers make, the step leaves the world and the events of
    that chain, with one [EvIteratorHandle] per handler that ran, in
    order, then what the chain reported, then the closing of the handle;
    the result the chain left is the one that is closed.  In both cases
    the worker goes on to the next item of the queue. *)
Theorem worker_waits_for_listener (s : Sys W) (i : nat)
    (penQry : pendingIteratorQuery) (q : list (option pendingIteratorQuery)) :
  sys_workers s !! i = Some WRecv ->
  iteratorQueryQueue (sys_bus s) = Some penQry :: q ->
  pen_res penQry < length (iters (sys_store s)) ->
  let b := sys_bus s in
  let st := sys_store s in
  let h := pen_res penQry in
  let ctx := pen_ctx penQry in
  let qry := pen_qry penQry in
  let timedOut := NewErrorQueryTimedOut qry in
  let dequeued := with_bus (set_iteratorQueryQueue q b) s in
  if listening (iters st !!! h)
  then
    (exists ids e w1 r1,
       chain ihdl_id (fun hdl w r => ihdl_Handle hdl w ctx qry r)
             it_stopPropagation
             (iteratorHandlers b) (world st) (iters st !!! h) ids e w1 r1)
    /\ forall ids e w1 r1,
         chain ihdl_id (fun hdl w r => ihdl_Handle hdl w ctx qry r)
               it_stopPropagation
               (iteratorHandlers b) (world st) (iters st !!! h)
               ids e w1 r1 ->
         let served := iteratorQuery_outcome b ctx qry h (iters st)
                                             ids e w1 r1 in
         ids `prefix_of` map ihdl_id (iteratorHandlers b)
         /\ (e = Exhausted -> ids = map ihdl_id (iteratorHandlers b))
         /\ iteratorQuery b ctx qry h st = served
         /\ step s (AWorker i)
            = Some (with_store
                      {| world := world served.1.2;
                         iters := <[h := close_result r1]> (iters st) |}
                      dequeued,
                    served.2 ++ [EvClose h])
         /\ (exists reported,
               served.2
               = map (fun k => EvIteratorHandle k qry h) ids ++ reported
               /\ (forall k, EvClose k ∉ reported)
               /\ forall hdl qry' r, EvIteratorHandle hdl qry' r ∉ reported)
         /\ it_closed (<[h := close_result r1]> (iters st) !!! h) = true
  else
    step s (AWorker i)
    = Some (with_store
              {| world := fanout_world b ctx qry timedOut (world st);
                 iters := iters st |}
              dequeued,
            fanout_events b qry timedOut)
    /\ forall hdl qry' r,
         EvIteratorHandle hdl qry' r ∉ fanout_events b qry timedOut.
Proof.
  intros Hw Hq Hlt b st h ctx qry timedOut dequeued.
  assert (Hquiet : forall err hdl qry' r,
            EvIteratorHandle hdl qry' r ∉ fanout_events b qry err).
  { intros err hdl qry' r Hin. unfold fanout_events in Hin.
    apply list_elem_of_fmap in Hin as (eh & Heq & _). discriminate. }
  assert (Hopen : forall err k, EvClose k ∉ fanout_events b qry err).
  { intros err k Hin. unfold fanout_events in Hin.
    apply list_elem_of_fmap in Hin as (eh & Heq & _). discriminate. }
  unfold step. rewrite Hw. unfold worker_step. rewrite Hq.
  unfold iteratorWorker_body, bind, waitListener, bind, read_result, ret.
  cbn [fst snd]. fold b st h ctx qry.
  destruct (listening (iters st !!! h)) eqn:Hl.
  - split; [apply chain_total|]. intros ids e w1 r1 Hch.
    destruct (chain_prefix _ _ _ _ _ _ _ _ _ _ Hch) as [Hpre Hall].
    do 2 (split; [assumption|]).
    rewrite (iteratorQuery_of_chain b ctx qry h st ids e w1 r1 Hlt Hch).
    set (served := iteratorQuery_outcome b ctx qry h (iters st)
                                         ids e w1 r1).
    split; [reflexivity|].
    assert (Hits : iters served.1.2 = <[h := r1]> (iters st)).
    { unfold served, iteratorQuery_outcome.
      destruct e as [err| |]; [done|done|by destruct (it_handled r1)]. }
    split; [|split].
    + destruct served as [[[] st1] tr1] eqn:Hs. cbn [fst snd] in *.
      unfold close, read_result. cbn. rewrite Hits.
      rewrite list_lookup_total_insert_eq by exact Hlt.
      by rewrite list_insert_insert_eq.
    + unfold served, iteratorQuery_outcome.
      destruct e as [err| |]; cbn [snd].
      * exists (fanout_events b qry err). split; [done|]. split; auto.
      * exists []. rewrite app_nil_r. split; [done|].
        split; intros; apply not_elem_of_nil.
      * destruct (it_handled r1); cbn [snd].
        -- exists []. rewrite app_nil_r. split; [done|].
           split; intros; apply not_elem_of_nil.
        -- exists (fanout_events b qry (NewErrorNoQueryHandlersFound qry)).
           split; [done|]. split; auto.
    + rewrite list_lookup_total_insert_eq by exact Hlt. reflexivity.
  - rewrite error_spec. split; [reflexivity|]. apply Hquiet.
Qed.

(** ** Handles the engine is done with *)

Lemma handles_app (q1 q2 : list (option pendingIteratorQuery)) :
  handles (q1 ++ q2) = handles q1 ++ handles q2.
Proof.
  induction q1 as [|[p|] q1 IH]; cbn; [done | by rewrite IH | done].
Qed.

Lemma isIteratorValid_iters bus ctx qry st :
  iters (isIteratorValid bus ctx qry st).1.2 = iters st.
Proof.
  unfold isIteratorValid, bind, isValid.
  destruct qry as [q|]; cbn.
  - destruct (negb (isInitialized bus)); cbn.
    + unfold bind. by rewrite error_spec.
    + destruct (isShuttingDown bus); cbn; [|done].
      unfold bind. by rewrite error_spec.
  - unfold bind. by rewrite error_spec.
Qed.

Ltac no_close :=
  let Hin := fresh "Hin" in
  intros Hin;
  first [ by apply elem_of_nil in Hin
        | apply list_elem_of_singleton in Hin; discriminate ].

Ltac keeps := cbn; repeat split; try done; try no_close.

Lemma isIteratorValid_closes_nothing bus ctx qry st (k : nat) :
  EvClose k ∉ (isIteratorValid bus ctx qry st).2.
Proof.
  assert (Hf : forall err, EvClose k ∉ fanout_events bus qry err).
  { intros err Hin. apply list_elem_of_fmap in Hin as (eh & Heq & _).
    discriminate. }
  unfold isIteratorValid, bind, isValid.
  destruct qry as [q|]; cbn.
  - destruct (negb (isInitialized bus)); cbn.
    + unfold bind. rewrite error_spec. cbn. rewrite app_nil_r. apply Hf.
    + destruct (isShuttingDown bus); cbn; [|apply not_elem_of_nil].
      unfold bind. rewrite error_spec. cbn. rewrite app_nil_r. apply Hf.
  - unfold bind. rewrite error_spec. cbn. rewrite !app_nil_r. apply Hf.
Qed.

Lemma untouched_step (h : nat) (c : bool) (s : Sys W) (a : Action) s' evs :
  untouched h c s ->
  step s a = Some (s', evs) ->
  untouched h c s' /\ EvClose h ∉ evs.
Proof.
  intros (Hlt & Hq & Hc) Hstep. unfold untouched.
  destruct a as [t|i|t i|k|ctx qry]; unfold step in Hstep.
  - destruct (sys_callers s !! t) as [pc|] eqn:Hlk; [|discriminate].
    destruct pc as [| | | | |[|adp rest]| |ran]; unfold caller_step in Hstep.
    + destruct (CompareAndSwapUint32 _ _ _) as [v sw].
      injection Hstep as <- <-. keeps.
    + destruct (_ <? _)%Z; injection Hstep as <- <-; keeps.
    + destruct (can_send _ _); [|discriminate]. injection Hstep as <- <-.
      cbn. rewrite handles_app, app_nil_r. keeps.
    + discriminate.
    + injection Hstep as <- <-. keeps.
    + destruct (CompareAndSwapUint32 _ _ _) as [v sw].
      injection Hstep as <- <-. keeps.
    + rewrite shutdown_adapters_spec in Hstep. injection Hstep as <- <-.
      keeps.
    + destruct (CompareAndSwapUint32 _ _ _) as [v sw].
      injection Hstep as <- <-. keeps.
    + discriminate.
  - destruct (sys_workers s !! i) as [[| |]|] eqn:Hlk; try discriminate.
    unfold worker_step in Hstep.
    destruct (iteratorQueryQueue (sys_bus s)) as [|[penQry|] q] eqn:Hqueue;
      [discriminate| |].
    + destruct (iteratorWorker_body_frame (sys_bus s) penQry (sys_store s))
        as [[r Hr] Hcl].
      destruct (iteratorWorker_body _ _ _) as [[u st] tr1].
      injection Hstep as <- <-. cbn in *.
      apply not_elem_of_cons in Hq as [Hne Hq].
      rewrite Hr, length_insert, list_lookup_total_insert_ne by done.
      repeat split; try done. intros Hin. by apply Hcl in Hin.
    + injection Hstep as <- <-. cbn in *. keeps.
  - destruct (sys_callers s !! t) as [[| | | | | | |]|]; try discriminate.
    destruct (sys_workers s !! i) as [[| |]|]; try discriminate.
    injection Hstep as <- <-. keeps.
  - injection Hstep as <- <-. cbn. rewrite length_insert.
    repeat split; try done; try no_close.
    destruct (decide (k = h)) as [->|Hne].
    + by rewrite list_lookup_total_insert_eq.
    + by rewrite list_lookup_total_insert_ne.
  - unfold Bus_IteratorQuery in Hstep.
    pose proof (isIteratorValid_iters (sys_bus s) ctx qry (sys_store s)) as Hi.
    pose proof (isIteratorValid_closes_nothing (sys_bus s) ctx qry
                  (sys_store s) h) as Hnc.
    destruct (isIteratorValid _ _ _ _) as [[[err|] st] tr1]; cbn [fst snd] in *.
    + injection Hstep as <- <-. cbn. by rewrite Hi.
    + destruct (can_send _ _); [|discriminate].
      injection Hstep as <- <-. cbn.
      rewrite Hi, length_app, handles_app, lookup_total_app_l by done.
      cbn. repeat split; try done; [lia|].
      rewrite not_elem_of_app. split; [done|].
      intros Hin. apply list_elem_of_singleton in Hin. lia.
Qed.

Lemma untouched_steps (h : nat) (c : bool) (s : Sys W) tr s' :
  untouched h c s -> steps s tr s' -> untouched h c s' /\ EvClose h ∉ tr.
Proof.
  intros Hu Hsteps. induction Hsteps as [s|s tr s1 a s2 evs _ IH Hstep].
  - split; [done | apply not_elem_of_nil].
  - destruct (IH Hu) as [Hu1 Hn1].
    destruct (untouched_step _ _ _ _ _ _ Hu1 Hstep) as [Hu2 Hn2].
    split; [done|]. rewrite not_elem_of_app. by split.
Qed.

(** Pending queries keep handles of their own along every step. *)
Lemma handles_wf_step (s : Sys W) (a : Action) s' evs :
  handles_wf s -> step s a = Some (s', evs) -> handles_wf s'.
Proof.
  intros [Hnd Hlive] Hstep. unfold handles_wf.
  destruct a as [t|i|t i|k|ctx qry]; unfold step in Hstep.
  - destruct (sys_callers s !! t) as [pc|] eqn:Hlk; [|discriminate].
    destruct pc as [| | | | |[|adp rest]| |ran]; unfold caller_step in Hstep;
      try discriminate.
    + destruct (CompareAndSwapUint32 _ _ _) as [v sw].
      by injection Hstep as <- <-.
    + by destruct (_ <? _)%Z; injection Hstep as <- <-.
    + destruct (can_send _ _); [|discriminate]. injection Hstep as <- <-.
      cbn. by rewrite handles_app, app_nil_r.
    + by injection Hstep as <- <-.
    + destruct (CompareAndSwapUint32 _ _ _) as [v sw].
      by injection Hstep as <- <-.
    + rewrite shutdown_adapters_spec in Hstep. by injection Hstep as <- <-.
    + destruct (CompareAndSwapUint32 _ _ _) as [v sw].
      by injection Hstep as <- <-.
  - destruct (sys_workers s !! i) as [[| |]|] eqn:Hlk; try discriminate.
    unfold worker_step in Hstep.
    destruct (iteratorQueryQueue (sys_bus s)) as [|[penQry|] q] eqn:Hqueue;
      [discriminate| |].
    + destruct (iteratorWorker_body_frame (sys_bus s) penQry (sys_store s))
        as [[r Hr] _].
      destruct (iteratorWorker_body _ _ _) as [[u st] tr1].
      injection Hstep as <- <-. cbn in *. rewrite Hr, length_insert.
      apply NoDup_cons in Hnd as [_ Hnd].
      apply Forall_cons in Hlive as [_ Hlive]. done.
    + by injection Hstep as <- <-.
  - destruct (sys_callers s !! t) as [[| | | | | | |]|]; try discriminate.
    destruct (sys_workers s !! i) as [[| |]|]; try discriminate.
    by injection Hstep as <- <-.
  - injection Hstep as <- <-. cbn. by rewrite length_insert.
  - unfold Bus_IteratorQuery in Hstep.
    pose proof (isIteratorValid_iters (sys_bus s) ctx qry (sys_store s)) as Hi.
    destruct (isIteratorValid _ _ _ _) as [[[err|] st] tr1]; cbn [fst snd] in *.
    + injection Hstep as <- <-. cbn. by rewrite Hi.
    + destruct (can_send _ _); [|discriminate].
      injection Hstep as <- <-. cbn.
      rewrite Hi, length_app, handles_app. cbn. split.
      * apply NoDup_app. split; [done|]. split; [|apply NoDup_singleton].
        intros x Hx Hin. apply list_elem_of_singleton in Hin as ->.
        rewrite Forall_forall in Hlive. specialize (Hlive _ Hx). lia.
      * apply Forall_app. split.
        -- eapply Forall_impl; [exact Hlive|]. cbn. intros; lia.
        -- constructor; [lia | constructor].
Qed.

(** C10. When a worker abandons a pending query because no listener
    attached in time, it does not close the iterator result, and nothing
    the engine does afterwards closes it: along every later run of the
    pool (workers serving other queries, [Shutdown] callers, new
    [IteratorQuery] calls, the consumer attaching late) no [close] is
    issued on that handle and its closed flag stays as it was. *)
Theorem abandoned_request_never_closed (s : Sys W) (i : nat)
    (penQry : pendingIteratorQuery) (q : list (option pendingIteratorQuery)) :
  handles_wf s ->
  sys_workers s !! i = Some WRecv ->
  iteratorQueryQueue (sys_bus s) = Some penQry :: q ->
  listening (iters (sys_store s) !!! pen_res penQry) = false ->
  exists s1 tr1,
    step s (AWorker i) = Some (s1, tr1)
    /\ iters (sys_store s1) = iters (sys_store s)
    /\ (EvClose (pen_res penQry) ∉ tr1)
    /\ forall tr2 s2,
         steps s1 tr2 s2 ->
         (EvClose (pen_res penQry) ∉ tr2)
         /\ it_closed (iters (sys_store s2) !!! pen_res penQry)
            = it_closed (iters (sys_store s) !!! pen_res penQry).
Proof.
  intros [Hnd Hlive] Hw Hq Hl. rewrite Hq in Hnd, Hlive. cbn in Hnd, Hlive.
  apply NoDup_cons in Hnd as [Hfresh _].
  apply Forall_cons in Hlive as [Hlt _].
  unfold step. rewrite Hw. unfold worker_step. rewrite Hq.
  unfold iteratorWorker_body, bind, waitListener, bind, read_result, ret.
  cbn [fst snd]. rewrite Hl, error_spec.
  eexists _, _. split; [reflexivity|]. split; [reflexivity|]. split.
  - intros Hin. apply list_elem_of_fmap in Hin as (eh & Heq & _).
    discriminate.
  - intros tr2 s2 Hsteps.
    edestruct (@untouched_steps (pen_res penQry)
                 (it_closed (iters (sys_store s) !!! pen_res penQry)))
      as [(_ & _ & Hc) Hn]; [|exact Hsteps|by split].
    by repeat split.
Qed.

(** ** Schedules *)

Lemma run_app (a1 a2 : list Action) (s : Sys W) :
  run (a1 ++ a2) s
  = match run a1 s with
    | Some (s1, t1) =>
        match run a2 s1 with
        | Some (s2, t2) => Some (s2, t1 ++ t2)
        | None => None
        end
    | None => None
    end.
Proof.
  revert s. induction a1 as [|a a1 IH]; intros s; cbn.
  - by destruct (run a2 s) as [[s2 t2]|].
  - destruct (step s a) as [[s1 t1]|]; [|done]. rewrite IH.
    destruct (run a1 s1) as [[s2 t2]|]; [|done].
    destruct (run a2 s2) as [[s3 t3]|]; [|done].
    by rewrite app_assoc.
Qed.

(** A schedule that runs is a run of the system. *)
Lemma run_steps (acts : list Action) (s : Sys W) s' tr :
  run acts s = Some (s', tr) -> steps s tr s'.
Proof.
  assert (Hgen : forall acts (s0 : Sys W) tr0 s1,
    steps s0 tr0 s1 -> forall s2 tr2, run acts s1 = Some (s2, tr2) ->
    steps s0 (tr0 ++ tr2) s2).
  { clear. intros acts0.
    induction acts0 as [|a acts0 IH]; intros s0 tr0 s Hs s' tr Hrun.
    - injection Hrun as <- <-. by rewrite app_nil_r.
    - cbn in Hrun. destruct (step s a) as [[s1 t1]|] eqn:Hstep; [|done].
      destruct (run acts0 s1) as [[s2 t2]|] eqn:Hrest; [|done].
      injection Hrun as <- <-. rewrite app_assoc.
      eapply IH; [|exact Hrest]. by eapply steps_snoc. }
  intros Hrun. apply (Hgen acts s [] s (steps_refl s) s' tr Hrun).
Qed.

Lemma serve_pending_run (items : list (option pendingIteratorQuery))
    (s : Sys W) (i : nat) :
  sys_workers s !! i = Some WRecv ->
  iteratorQueryQueue (sys_bus s) = items ->
  Forall is_Some items ->
  exists st tr,
    run (replicate (length items) (AWorker i)) s
    = Some (with_store st
              (with_bus (set_iteratorQueryQueue [] (sys_bus s)) s), tr)
    /\ Forall (fun ev => is_service ev = true) tr.
Proof.
  revert s. induction items as [|[penQry|] items IH]; intros s Hw Hq Hall.
  - exists (sys_store s), []. split; [|constructor]. cbn.
    destruct s as [b st ws cs]. destruct b. cbn in *. by subst.
  - apply Forall_cons in Hall as [_ Hall].
    cbn [length replicate run]. unfold step at 1. rewrite Hw.
    unfold worker_step. rewrite Hq.
    pose proof (iteratorWorker_body_service (sys_bus s) penQry (sys_store s))
      as Hsv1.
    destruct (iteratorWorker_body (sys_bus s) penQry (sys_store s))
      as [[u st1] tr1].
    destruct (IH (with_store st1
                    (with_bus (set_iteratorQueryQueue items (sys_bus s)) s)))
      as (st & tr & Hrun & Hsv); [done..|].
    rewrite Hrun. exists st, (tr1 ++ tr). split; [reflexivity|].
    apply Forall_app. by split.
  - apply Forall_cons in Hall as [Hnone _]. by destruct Hnone.
Qed.

Lemma can_send_idle (b : Bus W) (ws : list WorkerPC) (j : nat) :
  ws !! j = Some WRecv -> iteratorQueryQueue b = [] -> can_send b ws = true.
Proof.
  intros Hj Hq. unfold can_send. rewrite Hq.
  pose proof (countb_lookup is_WRecv _ _ _ Hj) as Hc. cbn in Hc.
  apply Nat.ltb_lt. cbn [length]. lia.
Qed.

Lemma step_loop_pos (s : Sys W) (t : nat) :
  sys_callers s !! t = Some SLoop ->
  (0 < iteratorWorkers (sys_bus s))%Z ->
  step s (ACaller t) = Some (with_caller t SSend s, []).
Proof.
  intros Ht Hc. unfold step. rewrite Ht. unfold caller_step.
  by destruct (Z.ltb_spec 0 (iteratorWorkers (sys_bus s))); [|lia].
Qed.

Lemma step_loop_zero (s : Sys W) (t : nat) :
  sys_callers s !! t = Some SLoop ->
  iteratorWorkers (sys_bus s) = 0%Z ->
  step s (ACaller t)
  = Some (with_caller t (SAdapters (cacheAdapters (sys_bus s))) s, []).
Proof.
  intros Ht Hc. unfold step. rewrite Ht. unfold caller_step.
  by destruct (Z.ltb_spec 0 (iteratorWorkers (sys_bus s))); [lia|].
Qed.

Lemma step_send (s : Sys W) (t : nat) :
  sys_callers s !! t = Some SSend ->
  can_send (sys_bus s) (sys_workers s) = true ->
  step s (ACaller t)
  = Some (with_caller t SRecv
            (with_bus (set_iteratorQueryQueue
                         (iteratorQueryQueue (sys_bus s) ++ [None])
                         (sys_bus s)) s),
          [EvSentinel]).
Proof. intros Ht Hc. unfold step. rewrite Ht. unfold caller_step. by rewrite Hc. Qed.

Lemma step_take_sentinel (s : Sys W) (j : nat)
    (q : list (option pendingIteratorQuery)) :
  sys_workers s !! j = Some WRecv ->
  iteratorQueryQueue (sys_bus s) = None :: q ->
  step s (AWorker j)
  = Some (with_worker j WSend
            (with_bus (set_iteratorQueryQueue q (sys_bus s)) s), []).
Proof. intros Hj Hq. unfold step. rewrite Hj. unfold worker_step. by rewrite Hq. Qed.

Lemma step_ack (s : Sys W) (t j : nat) :
  sys_callers s !! t = Some SRecv ->
  sys_workers s !! j = Some WSend ->
  step s (AAck t j)
  = Some (with_caller t SDown (with_worker j WExit s), [EvClosed j]).
Proof. intros Ht Hj. unfold step. by rewrite Ht, Hj. Qed.

Lemma step_down (s : Sys W) (t : nat) :
  sys_callers s !! t = Some SDown ->
  (0 < iteratorWorkers (sys_bus s) < uint32_modulus)%Z ->
  step s (ACaller t)
  = Some (with_caller t SLoop
            (with_bus (set_iteratorWorkers (iteratorWorkers (sys_bus s) - 1)
                                           (sys_bus s)) s), []).
Proof.
  intros Ht Hc. unfold step. rewrite Ht. unfold caller_step.
  by rewrite AddUint32_down.
Qed.

(** One turn of the drain: the caller pushes a sentinel, the worker takes
    it and acknowledges, the caller decrements the count. *)
Lemma drain_turn_run (s : Sys W) (t j : nat) :
  sys_callers s !! t = Some SLoop ->
  sys_workers s !! j = Some WRecv ->
  iteratorQueryQueue (sys_bus s) = [] ->
  (0 < iteratorWorkers (sys_bus s) < uint32_modulus)%Z ->
  run (drain_turn t j) s
  = Some (with_worker j WExit
            (with_bus (set_iteratorWorkers (iteratorWorkers (sys_bus s) - 1)
                                           (sys_bus s)) s),
          [EvSentinel; EvClosed j]).
Proof.
  intros Ht Hj Hq Hc.
  assert (Hlt : t < length (sys_callers s)) by by eapply lookup_lt_Some.
  assert (Hlj : j < length (sys_workers s)) by by eapply lookup_lt_Some.
  unfold drain_turn. cbn [run].
  rewrite (step_loop_pos s t Ht) by lia.
  rewrite step_send; cycle 1.
  { cbn. by apply list_lookup_insert_eq. }
  { cbn. by eapply can_send_idle. }
  rewrite (step_take_sentinel _ j []); cycle 1.
  { exact Hj. }
  { cbn. by rewrite Hq. }
  rewrite step_ack; cycle 1.
  { cbn. rewrite list_lookup_insert_eq; [done | by rewrite length_insert]. }
  { cbn. by apply list_lookup_insert_eq. }
  rewrite step_down; cycle 1.
  { cbn. rewrite list_lookup_insert_eq; [done | by rewrite !length_insert]. }
  { exact Hc. }
  destruct s as [b st ws cs]. cbn in *.
  unfold with_caller, with_bus, with_worker. cbn.
  rewrite !list_insert_insert_eq, (list_insert_id cs t SLoop Ht).
  destruct b. cbn in *. by subst.
Qed.

Lemma drain_actions_run (t : nat) (rest : list WorkerPC) :
  forall (done : list WorkerPC) (s : Sys W),
    sys_workers s = done ++ rest ->
    sys_callers s !! t = Some SLoop ->
    iteratorQueryQueue (sys_bus s) = [] ->
    Forall (fun pc => pc = WRecv \/ pc = WExit) rest ->
    iteratorWorkers (sys_bus s) = Z.of_nat (countb is_WRecv rest) ->
    (Z.of_nat (countb is_WRecv rest) < uint32_modulus)%Z ->
    run (drain_actions t (length done) rest) s
    = Some ({| sys_bus := set_iteratorWorkers 0 (sys_bus s);
               sys_store := sys_store s;
               sys_workers := done ++ replicate (length rest) WExit;
               sys_callers := sys_callers s |},
            drain_events (length done) rest).
Proof.
  induction rest as [|pc rest IH]; intros done s Hws Ht Hq Hall Hc Hb.
  - cbn. destruct s as [b st ws cs]. destruct b. cbn in *. by subst.
  - apply Forall_cons in Hall as [Hpc Hall].
    assert (Hlen : length (done ++ [WExit]) = S (length done))
      by (rewrite length_app; cbn; lia).
    destruct Hpc as [-> | ->].
    + cbn [drain_actions drain_events countb is_WRecv] in *.
      rewrite run_app, drain_turn_run; [|done| |done|lia].
      2:{ rewrite Hws. by apply list_lookup_middle. }
      rewrite <- Hlen.
      rewrite IH; [|cbn|by cbn|by cbn|done|cbn; lia|lia].
      * cbn. f_equal. f_equal. f_equal.
        rewrite <- app_assoc. reflexivity.
      * rewrite Hws.
        replace (length done) with (length done + 0) by lia.
        rewrite insert_app_r. cbn. by rewrite <- app_assoc.
    + cbn [drain_actions drain_events countb is_WRecv] in *.
      rewrite <- Hlen.
      rewrite IH; [|by rewrite Hws, <- app_assoc|done..].
      cbn. f_equal. f_equal. f_equal.
      rewrite <- app_assoc. reflexivity.
Qed.

Lemma adapters_run (t : nat) (rest : list (CacheAdapter W)) :
  forall s : Sys W,
    sys_callers s !! t = Some (SAdapters rest) ->
    run (replicate (length rest) (ACaller t)) s
    = Some (with_caller t (SAdapters [])
              (with_store
                 {| world := fold_left (fun w adp => adp_Shutdown adp w) rest
                                       (world (sys_store s));
                    iters := iters (sys_store s) |} s),
            map (fun adp => EvAdapterShutdown (adp_id adp)) rest).
Proof.
  induction rest as [|adp rest IH]; intros s Ht.
  - cbn. destruct s as [b [w its] ws cs]. unfold with_caller, with_store.
    cbn in *. by rewrite list_insert_id.
  - assert (Hlt : t < length (sys_callers s)) by by eapply lookup_lt_Some.
    cbn [length replicate run]. unfold step at 1. rewrite Ht.
    unfold caller_step. rewrite shutdown_adapters_spec.
    rewrite IH by (cbn; by apply list_lookup_insert_eq).
    cbn. unfold with_caller, with_store. cbn.
    by rewrite list_insert_insert_eq.
Qed.

Lemma resets_run (t : nat) (s : Sys W) :
  sys_callers s !! t = Some (SAdapters []) ->
  run [ACaller t; ACaller t] s
  = Some (with_caller t (SReturn true)
            (with_bus
               (set_shuttingDown
                  (CompareAndSwapUint32 (shuttingDown (sys_bus s)) 1 0).1
                  (set_initialized
                     (CompareAndSwapUint32 (initialized (sys_bus s)) 1 0).1
                     (sys_bus s))) s),
          [EvResetInitialized; EvResetShuttingDown]).
Proof.
  intros Ht.
  assert (Hlt : t < length (sys_callers s)) by by eapply lookup_lt_Some.
  cbn [run]. unfold step at 1. rewrite Ht. unfold caller_step.
  destruct (CompareAndSwapUint32 (initialized (sys_bus s)) 1 0) as [v1 b1].
  unfold step. cbn [sys_callers with_caller with_bus].
  rewrite list_lookup_insert_eq by done. unfold caller_step.
  cbn [sys_bus with_caller with_bus set_initialized shuttingDown].
  destruct (CompareAndSwapUint32 (shuttingDown (sys_bus s)) 1 0) as [v2 b2].
  cbn. unfold with_caller, with_bus. cbn.
  by rewrite list_insert_insert_eq.
Qed.

Lemma step_call_free (s : Sys W) (t : nat) :
  sys_callers s !! t = Some SCall ->
  shuttingDown (sys_bus s) = 0%Z ->
  step s (ACaller t)
  = Some (with_caller t SLoop (with_bus (set_shuttingDown 1 (sys_bus s)) s),
          []).
Proof.
  intros Ht Hsd. unfold step. rewrite Ht. unfold caller_step.
  unfold CompareAndSwapUint32. by rewrite Hsd.
Qed.

Lemma set_shuttingDown_same (b : Bus W) :
  set_shuttingDown (shuttingDown b) b = b.
Proof. by destruct b. Qed.

Lemma step_call_busy (s : Sys W) (t : nat) :
  sys_callers s !! t = Some SCall ->
  shuttingDown (sys_bus s) <> 0%Z ->
  step s (ACaller t)
  = Some (with_caller t (SReturn false) s, []).
Proof.
  intros Ht Hsd. unfold step. rewrite Ht. unfold caller_step.
  unfold CompareAndSwapUint32.
  destruct (Z.eqb_spec (shuttingDown (sys_bus s)) 0); [done|].
  rewrite set_shuttingDown_same. by destruct s.
Qed.

Lemma idle_index_spec (ws : list WorkerPC) (k i : nat) :
  idle_index k ws = Some i -> k <= i /\ ws !! (i - k) = Some WRecv.
Proof.
  revert k. induction ws as [|pc ws IH]; intros k; [discriminate|].
  destruct pc; cbn.
  - intros [= <-]. by rewrite Nat.sub_diag.
  - intros H. destruct (IH _ H) as [Hle Hlk]. split; [lia|].
    replace (i - k) with (S (i - S k)) by lia. exact Hlk.
  - intros H. destruct (IH _ H) as [Hle Hlk]. split; [lia|].
    replace (i - k) with (S (i - S k)) by lia. exact Hlk.
Qed.

Lemma idle_index_none (ws : list WorkerPC) (k : nat) :
  idle_index k ws = None -> countb is_WRecv ws = 0.
Proof.
  revert k. induction ws as [|pc ws IH]; intros k; [done|].
  destruct pc; cbn; [discriminate | apply IH..].
Qed.

Lemma live_blocked (ws : list WorkerPC) :
  Forall (fun pc => pc = WRecv \/ pc = WExit) ws ->
  live ws = countb is_WRecv ws.
Proof.
  unfold live. induction 1 as [|pc ws [-> | ->] _ IH]; cbn; [done | by rewrite IH..].
Qed.

Lemma no_idle_worker (t i : nat) (ws : list WorkerPC) :
  Forall (fun pc => pc = WRecv \/ pc = WExit) ws ->
  countb is_WRecv ws = 0 ->
  ws = replicate (length ws) WExit
  /\ drain_actions t i ws = []
  /\ drain_events i ws = [].
Proof.
  intros Hall. revert i.
  induction Hall as [|pc ws [-> | ->] _ IH]; intros i; cbn; [done | lia |].
  intros H0. destruct (IH (S i) H0) as (Hws & Ha & He).
  by rewrite <- Hws.
Qed.

(** From the head of the drain loop with no worker left, the caller
    shuts down every cache adapter, resets both flags and returns. *)
Lemma teardown_run (t : nat) (s : Sys W) :
  sys_callers s !! t = Some SLoop ->
  iteratorWorkers (sys_bus s) = 0%Z ->
  exists s',
    run ([ACaller t]
         ++ replicate (length (cacheAdapters (sys_bus s))) (ACaller t)
         ++ [ACaller t; ACaller t]) s
    = Some (s',
            map (fun adp => EvAdapterShutdown (adp_id adp))
                (cacheAdapters (sys_bus s))
            ++ [EvResetInitialized; EvResetShuttingDown])
    /\ sys_workers s' = sys_workers s
    /\ sys_callers s' = <[t := SReturn true]> (sys_callers s)
    /\ sys_bus s'
       = set_shuttingDown
           (CompareAndSwapUint32 (shuttingDown (sys_bus s)) 1 0).1
           (set_initialized
              (CompareAndSwapUint32 (initialized (sys_bus s)) 1 0).1
              (sys_bus s))
    /\ sys_store s'
       = {| world := fold_left (fun w adp => adp_Shutdown adp w)
                               (cacheAdapters (sys_bus s))
                               (world (sys_store s));
            iters := iters (sys_store s) |}.
Proof.
  intros Ht Hc.
  assert (Hlt : t < length (sys_callers s)) by by eapply lookup_lt_Some.
  eexists. split.
  - rewrite run_app. cbn [run]. rewrite (step_loop_zero s t Ht Hc).
    rewrite run_app.
    rewrite (adapters_run t (cacheAdapters (sys_bus s)))
      by (cbn; by apply list_lookup_insert_eq).
    rewrite resets_run by (cbn; rewrite list_lookup_insert_eq;
                           [done | by rewrite length_insert]).
    cbn [app]. reflexivity.
  - cbn. by rewrite !list_insert_insert_eq.
Qed.

(** A [Shutdown] call on a quiescent bus runs to its return: the pending
    queries are served, every worker takes one sentinel and acknowledges,
    then the cache adapters are shut down and both flags reset. *)
Lemma Bus_Shutdown_completes (s : Sys W) :
  quiescent s ->
  Forall is_Some (iteratorQueryQueue (sys_bus s)) ->
  exists s' served,
    Bus_Shutdown s
    = Some (s',
            served
            ++ drain_events 0 (sys_workers s)
            ++ map (fun adp => EvAdapterShutdown (adp_id adp))
                   (cacheAdapters (sys_bus s))
            ++ [EvResetInitialized; EvResetShuttingDown])
    /\ Forall (fun ev => is_service ev = true) served
    /\ (live (sys_workers s) = 0 -> served = [])
    /\ sys_workers s' = replicate (length (sys_workers s)) WExit
    /\ sys_callers s' = sys_callers s ++ [SReturn true]
    /\ initialized (sys_bus s') = 0%Z
    /\ shuttingDown (sys_bus s') = 0%Z
    /\ iteratorWorkers (sys_bus s') = 0%Z
    /\ same_config (sys_bus s) (sys_bus s')
    /\ Forall is_Some (iteratorQueryQueue (sys_bus s')).
Proof.
  intros [Hsd Hinit Hcrit Hws Hcnt Hb] Hitems.
  unfold Bus_Shutdown.
  set (t := length (sys_callers s)).
  set (s1 := {| sys_bus := sys_bus s; sys_store := sys_store s;
                sys_workers := sys_workers s;
                sys_callers := sys_callers s ++ [SCall] |}).
  assert (Ht1 : sys_callers s1 !! t = Some SCall)
    by (cbn; by apply list_lookup_middle).
  assert (Hlt : t < length (sys_callers s1))
    by (cbn; rewrite length_app; cbn; lia).
  unfold shutdown_actions. cbn [sys_workers sys_bus s1].
  rewrite run_app. cbn [run]. rewrite (step_call_free s1 t Ht1 Hsd).
  set (s2 := with_caller t SLoop
               (with_bus (set_shuttingDown 1 (sys_bus s1)) s1)).
  assert (Ht2 : sys_callers s2 !! t = Some SLoop)
    by (cbn; by apply list_lookup_insert_eq).
  assert (Hidle : live (sys_workers s) = countb is_WRecv (sys_workers s))
    by by apply live_blocked.
  assert (Hcas : forall v : Z, v = 0%Z \/ v = 1%Z ->
                 (CompareAndSwapUint32 v 1 0).1 = 0%Z)
    by (intros v [-> | ->]; reflexivity).
  assert (Hfinal : sys_callers s ++ [SReturn true]
                   = <[t := SReturn true]> (sys_callers s ++ [SCall])).
  { unfold t. replace (length (sys_callers s))
      with (length (sys_callers s) + 0) by lia.
    by rewrite insert_app_r. }
  rewrite run_app.
  destruct (idle_index 0 (sys_workers s)) as [i|] eqn:Hidx.
  - apply idle_index_spec in Hidx as [_ Hi]. rewrite Nat.sub_0_r in Hi.
    destruct (serve_pending_run (iteratorQueryQueue (sys_bus s)) s2 i)
      as (st & served & Hrun & Hsv); [done..|].
    rewrite Hrun.
    set (s3 := with_store st
                 (with_bus (set_iteratorQueryQueue [] (sys_bus s2)) s2)).
    rewrite run_app.
    assert (Hd := drain_actions_run t (sys_workers s) [] s3 eq_refl Ht2
                    eq_refl Hws).
    cbn [length] in Hd. rewrite Hd by (by rewrite <- Hidle). clear Hd.
    set (s4 := {| sys_bus := set_iteratorWorkers 0 (sys_bus s3);
                  sys_store := sys_store s3;
                  sys_workers := [] ++ replicate (length (sys_workers s)) WExit;
                  sys_callers := sys_callers s3 |}).
    destruct (teardown_run t s4) as (s5 & Hrun5 & Hw5 & Hc5 & Hb5 & Hst5);
      [done..|].
    cbn [sys_bus s4 s3 s2 s1 with_store with_bus with_caller
         set_iteratorWorkers set_iteratorQueryQueue set_shuttingDown
         cacheAdapters] in Hrun5.
    rewrite Hrun5. exists s5, served. split.
    { reflexivity. }
    split; [done|]. split.
    { intros Hlive. rewrite Hidle in Hlive.
      pose proof (countb_lookup is_WRecv _ _ _ Hi) as Hc. cbn in Hc. lia. }
    rewrite Hw5, Hc5, Hb5. cbn. rewrite Hcas by done.
    rewrite list_insert_insert_eq, <- Hfinal. by repeat split.
  - apply idle_index_none in Hidx.
    destruct (no_idle_worker t 0 (sys_workers s) Hws Hidx) as (Hex & Ha & He).
    rewrite Ha, He. cbn [run app].
    destruct (teardown_run t s2) as (s5 & Hrun5 & Hw5 & Hc5 & Hb5 & Hst5);
      [done | cbn; lia |].
    cbn [sys_bus s2 s1 with_bus with_caller set_shuttingDown cacheAdapters
         run app] in Hrun5.
    rewrite Hrun5. exists s5, []. split; [done|].
    split; [constructor|]. split; [done|].
    rewrite Hw5, Hc5, Hb5. cbn. rewrite Hcas by done.
    rewrite list_insert_insert_eq, <- Hfinal, <- Hex.
    split; [done|]. split; [done|].
    split; [done|]. split; [done|]. split; [|done].
    rewrite Hcnt, Hidle, Hidx. done.
Qed.

Lemma drain_events_counts (i : nat) (ws : list WorkerPC) :
  countb is_sentinel (drain_events i ws) = countb is_WRecv ws
  /\ countb is_ack (drain_events i ws) = countb is_WRecv ws
  /\ countb is_teardown (drain_events i ws) = 0.
Proof.
  revert i. induction ws as [|pc ws IH]; intros i; [done|].
  destruct (IH (S i)) as (H1 & H2 & H3). destruct pc; cbn; by rewrite ?H1, ?H2.
Qed.

Lemma drain_events_exited (i n : nat) :
  drain_events i (replicate n WExit) = [].
Proof. revert i. induction n as [|n IH]; intros i; [done | apply IH]. Qed.

Lemma live_replicate_exited (n : nat) : live (replicate n WExit) = 0.
Proof. unfold live. by rewrite countb_replicate. Qed.

Lemma quiescent_returned (s s' : Sys W) :
  quiescent s ->
  sys_workers s' = replicate (length (sys_workers s)) WExit ->
  sys_callers s' = sys_callers s ++ [SReturn true] ->
  initialized (sys_bus s') = 0%Z ->
  shuttingDown (sys_bus s') = 0%Z ->
  iteratorWorkers (sys_bus s') = 0%Z ->
  quiescent s'.
Proof.
  intros [Hsd Hinit Hcrit Hws Hcnt Hb] Hw Hc Hi Hs Hn.
  constructor; rewrite ?Hw, ?Hc, ?live_replicate_exited; try done.
  - by left.
  - rewrite countb_app, Hcrit. done.
  - apply Forall_replicate. by right.
Qed.

Lemma iter_AddUint32_up (n : nat) (c : Z) :
  (0 <= c)%Z -> (c + Z.of_nat n < uint32_modulus)%Z ->
  Nat.iter n (fun v => AddUint32 v 1) c = (c + Z.of_nat n)%Z.
Proof.
  intros Hc. induction n as [|n IH]; intros Hn.
  - cbn. lia.
  - rewrite Nat.iter_succ, IH by lia. rewrite AddUint32_up by lia. lia.
Qed.

(** [InitializeIteratorHandlers] on a bus that is not initialized and has
    no worker left starts the pool from scratch. *)
Lemma Initialize_restarts (s : Sys W) (hdls : list (IteratorHandler W)) :
  quiescent s ->
  initialized (sys_bus s) = 0%Z ->
  live (sys_workers s) = 0 ->
  (0 <= iteratorQueueBuffer (sys_bus s))%Z ->
  (iteratorWorkerPoolSize (sys_bus s) < uint32_modulus)%Z ->
  exists s',
    InitializeIteratorHandlers s hdls = Some s'
    /\ quiescent s'
    /\ initialized (sys_bus s') = 1%Z
    /\ shuttingDown (sys_bus s') = 0%Z
    /\ iteratorHandlers (sys_bus s') = hdls
    /\ iteratorQueryQueue (sys_bus s') = []
    /\ iteratorWorkers (sys_bus s')
       = Z.of_nat (Z.to_nat (iteratorWorkerPoolSize (sys_bus s)))
    /\ live (sys_workers s') = Z.to_nat (iteratorWorkerPoolSize (sys_bus s))
    /\ sys_workers s'
       = sys_workers s
         ++ replicate (Z.to_nat (iteratorWorkerPoolSize (sys_bus s))) WRecv.
Proof.
  intros [Hsd Hinit Hcrit Hws Hcnt Hb] Hi Hlive Hbuf Hsize.
  unfold InitializeIteratorHandlers, CompareAndSwapUint32. rewrite Hi.
  cbn [Z.eqb]. destruct (Z.ltb_spec (iteratorQueueBuffer (sys_bus s)) 0);
    [lia|].
  set (n := Z.to_nat (iteratorWorkerPoolSize (sys_bus s))).
  assert (Hn : (Z.of_nat n < uint32_modulus)%Z) by (unfold n; lia).
  assert (Hiter : Nat.iter n (fun c => AddUint32 c 1)
                    (iteratorWorkers (sys_bus s)) = Z.of_nat n).
  { rewrite Hcnt, Hlive. rewrite iter_AddUint32_up; cbn; lia. }
  assert (Hl : live (sys_workers s ++ replicate n WRecv) = n).
  { unfold live in *. by rewrite countb_app, Hlive, countb_replicate. }
  eexists. split; [reflexivity|]. cbn. rewrite Hiter.
  split; [|by repeat split].
  constructor; cbn; fold (live (sys_workers s ++ replicate n WRecv));
    rewrite ?Hl; try done.
  - by right.
  - apply Forall_app. split; [done|]. apply Forall_replicate. by left.
Qed.

(** Only a [Shutdown] caller past the drain loop emits a teardown event. *)
Lemma teardown_step_pc (s : Sys W) (a : Action) s' evs :
  step s a = Some (s', evs) ->
  0 < countb is_teardown evs ->
  0 < countb is_teardown_pc (sys_callers s).
Proof.
  intros Hstep Hev.
  destruct a as [t|i|t i|h|ctx qry]; unfold step in Hstep.
  - destruct (sys_callers s !! t) as [pc|] eqn:Hlk; [|discriminate].
    pose proof (countb_lookup is_teardown_pc _ _ _ Hlk) as Hc.
    destruct pc as [| | | | |[|adp rest]| |ran]; unfold caller_step in Hstep;
      cbn in Hc; try lia; exfalso.
    + destruct (CompareAndSwapUint32 _ _ _) as [v sw].
      injection Hstep as <- <-. cbn in Hev. lia.
    + destruct (_ <? _)%Z; injection Hstep as <- <-; cbn in Hev; lia.
    + destruct (can_send _ _); [|discriminate].
      injection Hstep as <- <-. cbn in Hev. lia.
    + discriminate.
    + injection Hstep as <- <-. cbn in Hev. lia.
    + discriminate.
  - exfalso.
    destruct (sys_workers s !! i) as [[| |]|] eqn:Hlk; try discriminate.
    unfold worker_step in Hstep.
    destruct (iteratorQueryQueue (sys_bus s)) as [|[penQry|] q];
      [discriminate| |].
    + pose proof (iteratorWorker_body_service (sys_bus s) penQry (sys_store s))
        as Hsv.
      destruct (iteratorWorker_body _ _ _) as [[u st] tr1].
      injection Hstep as <- <-. cbn in Hsv. service_counts Hsv. lia.
    + injection Hstep as <- <-. cbn in Hev. lia.
  - exfalso.
    destruct (sys_callers s !! t) as [[| | | | | | |]|]; try discriminate.
    destruct (sys_workers s !! i) as [[| |]|]; try discriminate.
    injection Hstep as <- <-. cbn in Hev. lia.
  - exfalso. injection Hstep as <- <-. cbn in Hev. lia.
  - exfalso. unfold Bus_IteratorQuery in Hstep.
    pose proof (isIteratorValid_service (sys_bus s) ctx qry (sys_store s))
      as Hsv.
    destruct (isIteratorValid _ _ _ _) as [[[err|] st] tr1]; cbn in Hsv.
    + injection Hstep as <- <-. service_counts Hsv. lia.
    + destruct (can_send _ _); [|discriminate].
      injection Hstep as <- <-. service_counts Hsv. lia.
Qed.

Lemma countb_disjoint3 {A} (f g h k : A -> bool) (l : list A) :
  (forall x, (if f x then 1 else 0) + (if g x then 1 else 0)
             + (if h x then 1 else 0) <= if k x then 1 else 0) ->
  countb f l + countb g l + countb h l <= countb k l.
Proof.
  intros H. induction l as [|x l IH]; cbn; [lia|]. specialize (H x). lia.
Qed.

(** Before a teardown event, the drain is over. *)
Lemma drained_before_teardown (s0 : Sys W) tr s a s' evs :
  quiescent s0 ->
  steps s0 tr s ->
  step s a = Some (s', evs) ->
  0 < countb is_teardown evs ->
  all_exited (sys_workers s)
  /\ iteratorWorkers (sys_bus s) = 0%Z
  /\ countb is_sentinel tr = live (sys_workers s0)
  /\ countb is_ack tr = live (sys_workers s0).
Proof.
  intros Hq Hsteps Hstep Hev.
  pose proof (pool_inv_steps s0 tr s Hq Hsteps) as
    [Isd Iex Iinit Icnt Iacks Ibound Idown Isent Itpc Itev Ireset Iord].
  pose proof (teardown_step_pc s a s' evs Hstep Hev) as Hpc.
  pose proof (countb_disjoint3 (@is_SDown W) is_teardown_pc is_SRecv is_crit
                (sys_callers s)) as Hdis.
  assert (countb is_SDown (sys_callers s)
          + countb is_teardown_pc (sys_callers s)
          + countb is_SRecv (sys_callers s)
          <= countb is_crit (sys_callers s))
    by (apply Hdis; intros []; cbn; lia).
  specialize (Itpc Hpc). split; [by apply live_zero_all_exited|].
  repeat split; lia.
Qed.

(** ** Validation, re-entry and the drain *)

Lemma Bus_IteratorQuery_invalid (s : Sys W) ctx qry (err : Err) st tr :
  isIteratorValid (sys_bus s) ctx qry (sys_store s) = (Some err, st, tr) ->
  Bus_IteratorQuery s ctx qry = Some (None, Some err, with_store st s, tr).
Proof. intros H. unfold Bus_IteratorQuery. by rewrite H. Qed.

Lemma isIteratorValid_nil bus ctx st :
  isIteratorValid bus ctx None st
  = (Some InvalidQueryError,
     {| world := fanout_world bus ctx None InvalidQueryError (world st);
        iters := iters st |},
     fanout_events bus None InvalidQueryError).
Proof.
  unfold isIteratorValid, bind, isValid, bind. rewrite error_spec. cbn.
  by rewrite !app_nil_r.
Qed.

Lemma isIteratorValid_not_initialized bus ctx (q : QueryVal) st :
  initialized bus <> 1%Z ->
  isIteratorValid bus ctx (Some q) st
  = (Some BusNotInitializedError,
     {| world := fanout_world bus ctx (Some q) BusNotInitializedError (world st);
        iters := iters st |},
     fanout_events bus (Some q) BusNotInitializedError).
Proof.
  intros Hi. unfold isIteratorValid, bind, isValid, ret, isInitialized.
  destruct (Z.eqb_spec (initialized bus) 1); [done|]. cbn [negb].
  unfold bind. rewrite error_spec. cbn. by rewrite app_nil_r.
Qed.

Lemma isIteratorValid_shutting_down bus ctx (q : QueryVal) st :
  initialized bus = 1%Z ->
  shuttingDown bus = 1%Z ->
  isIteratorValid bus ctx (Some q) st
  = (Some BusIsShuttingDownError,
     {| world := fanout_world bus ctx (Some q) BusIsShuttingDownError (world st);
        iters := iters st |},
     fanout_events bus (Some q) BusIsShuttingDownError).
Proof.
  intros Hi Hs.
  unfold isIteratorValid, bind, isValid, ret, isInitialized, isShuttingDown.
  rewrite Hi, Hs. cbn [Z.eqb Pos.eqb negb].
  unfold bind. rewrite error_spec. cbn. by rewrite app_nil_r.
Qed.

Lemma isIteratorValid_ready bus ctx (q : QueryVal) st :
  initialized bus = 1%Z ->
  shuttingDown bus = 0%Z ->
  isIteratorValid bus ctx (Some q) st = (None, st, []).
Proof.
  intros Hi Hs.
  unfold isIteratorValid, bind, isValid, ret, isInitialized, isShuttingDown.
  rewrite Hi, Hs. reflexivity.
Qed.

(** C3, as the code has it.  A nil query fails with [InvalidQuery] in
    every state.  A streaming query on a bus that is not initialized, as a
    bus fresh from [NewBus] is, fails with [NotInitialized], whatever the
    shutting-down flag; on an initialized bus whose shutting-down flag is
    up, that is, while a drain is under way, it fails with [ShuttingDown].
    A completed [Shutdown] has reset both flags, so from then on and until
    the bus is initialized again a streaming query fails with
    [NotInitialized]; once re-initialized, validation passes. *)
Theorem IteratorQuery_validation (s : Sys W) ctx :
  Bus_IteratorQuery s ctx None
  = Some (None, Some InvalidQueryError,
          with_store
            {| world := fanout_world (sys_bus s) ctx None InvalidQueryError
                                     (world (sys_store s));
               iters := iters (sys_store s) |} s,
          fanout_events (sys_bus s) None InvalidQueryError)
  /\ (forall q : QueryVal,
        initialized (sys_bus s) <> 1%Z ->
        Bus_IteratorQuery s ctx (Some q)
        = Some (None, Some BusNotInitializedError,
                with_store
                  {| world := fanout_world (sys_bus s) ctx (Some q)
                                BusNotInitializedError (world (sys_store s));
                     iters := iters (sys_store s) |} s,
                fanout_events (sys_bus s) (Some q) BusNotInitializedError))
  /\ (forall (gomaxprocs : Z) (mem : CacheAdapter W),
        initialized (NewBus gomaxprocs mem) = 0%Z)
  /\ (forall q : QueryVal,
        initialized (sys_bus s) = 1%Z ->
        shuttingDown (sys_bus s) = 1%Z ->
        Bus_IteratorQuery s ctx (Some q)
        = Some (None, Some BusIsShuttingDownError,
                with_store
                  {| world := fanout_world (sys_bus s) ctx (Some q)
                                BusIsShuttingDownError (world (sys_store s));
                     iters := iters (sys_store s) |} s,
                fanout_events (sys_bus s) (Some q) BusIsShuttingDownError))
  /\ (quiescent s ->
      forall tr s',
        steps s tr s' ->
        0 < countb is_reset_shuttingDown tr ->
        initialized (sys_bus s') = 0%Z)
  /\ (quiescent s ->
      Forall is_Some (iteratorQueryQueue (sys_bus s)) ->
      exists s1 tr1,
        Bus_Shutdown s = Some (s1, tr1)
        /\ forall q : QueryVal,
             (exists s2 tr2,
                Bus_IteratorQuery s1 ctx (Some q)
                = Some (None, Some BusNotInitializedError, s2, tr2))
             /\ forall hdls : list (IteratorHandler W),
                  (0 <= iteratorQueueBuffer (sys_bus s))%Z ->
                  (iteratorWorkerPoolSize (sys_bus s) < uint32_modulus)%Z ->
                  exists s3,
                    InitializeIteratorHandlers s1 hdls = Some s3
                    /\ isIteratorValid (sys_bus s3) ctx (Some q) (sys_store s3)
                       = (None, sys_store s3, [])).
Proof.
  split.
  { apply Bus_IteratorQuery_invalid, isIteratorValid_nil. }
  split.
  { intros q Hi.
    by apply Bus_IteratorQuery_invalid, isIteratorValid_not_initialized. }
  split; [reflexivity|]. split.
  { intros q Hi Hs.
    by apply Bus_IteratorQuery_invalid, isIteratorValid_shutting_down. }
  split.
  { intros Hq tr s' Hsteps Hreset.
    pose proof (pool_inv_steps s tr s' Hq Hsteps) as
      [Isd Iex Iinit Icnt Iacks Ibound Idown Isent Itpc Itev Ireset Iord].
    apply Ireset. lia. }
  intros Hq Hitems.
  destruct (Bus_Shutdown_completes s Hq Hitems)
    as (s1 & served & Hrun & Hsv & Hserved & Hw & Hc & Hi & Hs & Hn & Hcfg
        & Hitems1).
  eexists s1, _. split; [exact Hrun|]. intros q. split.
  - eexists _, _.
    apply Bus_IteratorQuery_invalid, isIteratorValid_not_initialized.
    rewrite Hi. done.
  - intros hdls Hbuf Hsize.
    destruct Hcfg as (Hps & Hqb & _).
    destruct (Initialize_restarts s1 hdls)
      as (s3 & Hinit & Hq3 & Hi3 & Hs3 & _); try done.
    + by eapply quiescent_returned.
    + rewrite Hw. apply live_replicate_exited.
    + by rewrite Hqb.
    + by rewrite Hps.
    + exists s3. split; [done|]. by apply isIteratorValid_ready.
Qed.

(** C4, as the code has it.  A [Shutdown] call that finds the
    shutting-down flag up, another call being under way, returns at once
    and changes nothing; along every run at most one caller is inside
    [shutdown].  A call made after an earlier [Shutdown] has completed
    finds the flag reset and runs [shutdown] again: with no worker left
    it pushes no sentinel and returns without blocking, but it calls
    [Shutdown] on every cache adapter once more and resets the flags
    again. *)
Theorem Shutdown_reentry (s : Sys W) :
  (forall t : nat,
     sys_callers s !! t = Some SCall ->
     shuttingDown (sys_bus s) <> 0%Z ->
     step s (ACaller t) = Some (with_caller t (SReturn false) s, []))
  /\ (quiescent s ->
      forall tr s', steps s tr s' -> countb is_crit (sys_callers s') <= 1)
  /\ (quiescent s ->
      Forall is_Some (iteratorQueryQueue (sys_bus s)) ->
      exists s1 tr1 s2,
        Bus_Shutdown s = Some (s1, tr1)
        /\ Bus_Shutdown s1
           = Some (s2,
                   map (fun adp => EvAdapterShutdown (adp_id adp))
                       (cacheAdapters (sys_bus s))
                   ++ [EvResetInitialized; EvResetShuttingDown])
        /\ sys_workers s2 = sys_workers s1
        /\ initialized (sys_bus s2) = 0%Z
        /\ shuttingDown (sys_bus s2) = 0%Z).
Proof.
  split; [intros t; apply step_call_busy|]. split.
  { intros Hq tr s' Hsteps.
    by destruct (pool_inv_steps s tr s' Hq Hsteps). }
  intros Hq Hitems.
  destruct (Bus_Shutdown_completes s Hq Hitems)
    as (s1 & served & Hrun & Hsv & Hserved & Hw & Hc & Hi & Hs & Hn & Hcfg
        & Hitems1).
  assert (Hq1 : quiescent s1) by by eapply quiescent_returned.
  destruct (Bus_Shutdown_completes s1 Hq1 Hitems1)
    as (s2 & served2 & Hrun2 & _ & Hserved2 & Hw2 & _ & Hi2 & Hs2 & _).
  assert (Hl1 : live (sys_workers s1) = 0)
    by (rewrite Hw; apply live_replicate_exited).
  rewrite (Hserved2 Hl1) in Hrun2.
  rewrite Hw in Hrun2 at 1. rewrite drain_events_exited in Hrun2.
  destruct Hcfg as (_ & _ & _ & _ & _ & _ & Hadp). rewrite Hadp in Hrun2.
  eexists s1, _, s2. split; [exact Hrun|]. split; [exact Hrun2|].
  split; [|done]. rewrite Hw2, Hw. by rewrite length_replicate.
Qed.

(** C6. From a bus on which no shutdown is under way: along every run,
    a step that shuts down a cache adapter or resets a flag is taken only
    when every worker has exited and the worker count is zero, after as
    many sentinels pushed and as many acknowledgements received as there
    were workers.  A [Shutdown] call does run to its return: it pushes
    one sentinel and receives one acknowledgement per worker, then shuts
    down every cache adapter in registration order and resets
    [initialized] and [shuttingDown]; after it an
    [InitializeIteratorHandlers] call starts a pool of the configured size
    on an empty queue. *)
Theorem shutdown_drains_then_tears_down (s0 : Sys W) :
  quiescent s0 ->
  (forall tr s a s' evs,
     steps s0 tr s ->
     step s a = Some (s', evs) ->
     0 < countb is_teardown evs ->
     all_exited (sys_workers s)
     /\ iteratorWorkers (sys_bus s) = 0%Z
     /\ countb is_sentinel tr = live (sys_workers s0)
     /\ countb is_ack tr = live (sys_workers s0))
  /\ (Forall is_Some (iteratorQueryQueue (sys_bus s0)) ->
      exists s1 served,
        Bus_Shutdown s0
        = Some (s1,
                served
                ++ drain_events 0 (sys_workers s0)
                ++ map (fun adp => EvAdapterShutdown (adp_id adp))
                       (cacheAdapters (sys_bus s0))
                ++ [EvResetInitialized; EvResetShuttingDown])
        /\ Forall (fun ev => is_service ev = true) served
        /\ countb is_sentinel (drain_events 0 (sys_workers s0))
           = live (sys_workers s0)
        /\ countb is_ack (drain_events 0 (sys_workers s0))
           = live (sys_workers s0)
        /\ all_exited (sys_workers s1)
        /\ iteratorWorkers (sys_bus s1) = 0%Z
        /\ initialized (sys_bus s1) = 0%Z
        /\ shuttingDown (sys_bus s1) = 0%Z
        /\ forall hdls : list (IteratorHandler W),
             (0 <= iteratorQueueBuffer (sys_bus s0))%Z ->
             (iteratorWorkerPoolSize (sys_bus s0) < uint32_modulus)%Z ->
             exists s2,
               InitializeIteratorHandlers s1 hdls = Some s2
               /\ quiescent s2
               /\ initialized (sys_bus s2) = 1%Z
               /\ iteratorQueryQueue (sys_bus s2) = []
               /\ live (sys_workers s2)
                  = Z.to_nat (iteratorWorkerPoolSize (sys_bus s0))
               /\ iteratorWorkers (sys_bus s2)
                  = Z.of_nat (Z.to_nat (iteratorWorkerPoolSize (sys_bus s0)))).
Proof.
  intros Hq. split.
  { intros tr s a s' evs. by apply drained_before_teardown. }
  intros Hitems.
  destruct (Bus_Shutdown_completes s0 Hq Hitems)
    as (s1 & served & Hrun & Hsv & Hserved & Hw & Hc & Hi & Hs & Hn & Hcfg
        & Hitems1).
  destruct (drain_events_counts 0 (sys_workers s0)) as (Hsent & Hack & _).
  pose proof (live_blocked (sys_workers s0) (q_workers Hq)) as Hidle.
  exists s1, served. split; [exact Hrun|]. split; [exact Hsv|].
  split; [by rewrite Hidle|]. split; [by rewrite Hidle|].
  split.
  { rewrite Hw. apply Forall_replicate. done. }
  do 3 (split; [done|]).
  intros hdls Hbuf Hsize. destruct Hcfg as (Hps & Hqb & _).
  destruct (Initialize_restarts s1 hdls)
    as (s2 & Hinit & Hq2 & Hi2 & Hs2 & Hh2 & Hqq2 & Hn2 & Hl2 & Hw2);
    try done.
  - by eapply quiescent_returned.
  - rewrite Hw. apply live_replicate_exited.
  - by rewrite Hqb.
  - by rewrite Hps.
  - exists s2. rewrite Hps in Hn2, Hl2.
    do 2 (split; [done|]). by repeat split.
Qed.

(** ** Supplements *)

(** The schedule of [Bus_Shutdown] is one of the runs of the system. *)
Lemma Bus_Shutdown_is_a_run (s : Sys W) s' tr :
  Bus_Shutdown s = Some (s', tr) ->
  steps {| sys_bus := sys_bus s; sys_store := sys_store s;
           sys_workers := sys_workers s;
           sys_callers := sys_callers s ++ [SCall] |} tr s'.
Proof. apply run_steps. Qed.

(** Pending queries have handles of their own from the start on. *)
Lemma handles_wf_boot (b : Bus W) (w : W) :
  iteratorQueryQueue b = [] -> handles_wf (boot b w).
Proof. intros Hq. split; cbn; rewrite Hq; constructor. Qed.

Lemma handles_wf_Initialize (s : Sys W) (hdls : list (IteratorHandler W)) s' :
  handles_wf s -> InitializeIteratorHandlers s hdls = Some s' -> handles_wf s'.
Proof.
  intros Hwf. unfold InitializeIteratorHandlers.
  destruct (CompareAndSwapUint32 _ _ _) as [v [|]].
  - destruct (_ <? _)%Z; [discriminate|]. intros [= <-].
    split; cbn; constructor.
  - by intros [= <-].
Qed.

Lemma handles_wf_steps (s : Sys W) tr s' :
  handles_wf s -> steps s tr s' -> handles_wf s'.
Proof.
  intros Hwf Hsteps. induction Hsteps as [s|s tr s1 a s2 evs _ IH Hstep].
  - done.
  - eapply handles_wf_step; [by apply IH | exact Hstep].
Qed.

(** ** The calls of a synchronous query *)

Lemma list_filter_none {A} (f : A -> bool) (l : list A) :
  Forall (fun x => f x = false) l -> List.filter f l = [].
Proof. induction 1 as [|x l Hx _ IH]; cbn; [done | by rewrite Hx]. Qed.

Lemma list_filter_all {A} (f : A -> bool) (l : list A) :
  Forall (fun x => f x = true) l -> List.filter f l = l.
Proof. induction 1 as [|x l Hx _ IH]; cbn; [done | by rewrite Hx, IH]. Qed.

Lemma Forall_map_event {A} (f : Event -> bool) (g : A -> Event) (l : list A) :
  (forall x, f (g x) = true) -> Forall (fun ev => f ev = true) (map g l).
Proof. intros H. apply Forall_fmap, Forall_true. exact H. Qed.

(** What [bus.handleCache] calls and what it leaves of the result. *)
Lemma handleCache_shape bus ctx qry (res : Result) st :
  exists sets,
    (handleCache time_Now bus ctx qry res st).2
    = map (fun a => EvSet a qry) sets
    /\ sets `prefix_of` map adp_id (cacheAdapters bus)
    /\ (asCacheable qry = None -> sets = [])
    /\ (forall c, asCacheable qry = Some c -> (CacheDuration c <= 0)%Z ->
        sets = [])
    /\ iters (handleCache time_Now bus ctx qry res st).1.2 = iters st
    /\ handled (handleCache time_Now bus ctx qry res st).1.1 = handled res
    /\ data (handleCache time_Now bus ctx qry res st).1.1 = data res.
Proof.
  destruct (asCacheable qry) as [c|] eqn:Hc.
  - destruct (Z.ltb_spec 0 (CacheDuration c)) as [Hpos|Hle].
    + destruct (offer_total (cacheAdapters bus) ctx qry
                  (expires res (time_Now (world st) + CacheDuration c)%Z)
                  (world st)) as (ids & w1 & ok & Ho).
      destruct (handleCache_loop_of_offer _ _ _ _ _ _ _ _ Ho)
        as (Hpre & _ & Heq).
      exists ids. unfold handleCache. rewrite Hc.
      apply Z.ltb_lt in Hpos. rewrite Hpos. unfold bind, now.
      destruct st as [w its]. cbn [world iters] in *. rewrite Heq.
      destruct ok; cbn; rewrite ?app_nil_r;
        (split; [done|]; split; [done|]; split; [done|]; split;
         [intros c' [= <-] Hle; apply Z.ltb_lt in Hpos; lia | done]).
    + exists []. rewrite handleCache_skips by (rewrite Hc; lia).
      cbn. repeat split; try done. apply prefix_nil.
  - exists []. rewrite handleCache_skips by (by rewrite Hc).
    cbn. repeat split; try done. apply prefix_nil.
Qed.

(** What [bus.query] calls, in which order, and what it returns. *)
Lemma query_shape bus ctx qry (res : Result) st :
  exists ran sets,
    (query time_Now bus ctx qry res st).2
    = map (fun i => EvHandle i qry) ran
      ++ map (fun a => EvSet a qry) sets
      ++ match (query time_Now bus ctx qry res st).1.1.2 with
         | Some err => fanout_events bus qry err
         | None => []
         end
    /\ ran `prefix_of` map hdl_id (handlers bus)
    /\ sets `prefix_of` map adp_id (cacheAdapters bus)
    /\ (asCacheable qry = None -> sets = [])
    /\ (forall c, asCacheable qry = Some c -> (CacheDuration c <= 0)%Z ->
        sets = [])
    /\ (is_Some (query time_Now bus ctx qry res st).1.1.2 -> sets = [])
    /\ ((query time_Now bus ctx qry res st).1.1.2 = None ->
        handled (query time_Now bus ctx qry res st).1.1.1 = true)
    /\ iters (query time_Now bus ctx qry res st).1.2 = iters st.
Proof.
  destruct (chain_total hdl_id (fun hdl w r => hdl_Handle hdl w ctx qry r)
              propagationStopped (handlers bus) (world st) res)
    as (ids & e & w1 & r1 & Hch).
  destruct (chain_prefix _ _ _ _ _ _ _ _ _ _ Hch) as [Hpre _].
  rewrite (query_of_chain bus ctx qry res st ids e w1 r1 Hch).
  destruct (handleCache_shape bus ctx qry r1
              {| world := w1; iters := iters st |})
    as (sets & Htr & Hsp & Hn & Hd & Hit & Hhd & _).
  unfold query_outcome.
  destruct (handleCache time_Now bus ctx qry r1
              {| world := w1; iters := iters st |}) as [[r2 st2] tr].
  cbn [fst snd] in Htr, Hit, Hhd. subst tr.
  destruct e as [err| |]; [|destruct (isHandled r1) eqn:Hh..].
  all: try (exists ids, []; cbn; repeat split; try done;
            apply prefix_nil).
  all: exists ids, sets; cbn; rewrite app_nil_r; repeat split; try done.
  all: try (by intros [? [=]]).
  all: intros _; by rewrite Hhd.
Qed.

(** [bus.Query] on a non-nil query, step by step. *)
Lemma Bus_Query_unfold bus ctx (q : QueryVal) st :
  Bus_Query time_Now bus ctx (Some q) st
  = (let '(r, st1, tr1) := result bus ctx (Some q) st in
     if r.2
     then (Some r.1, None, st1, tr1)
     else
       let '(r2, e, st2, tr2) := query time_Now bus ctx (Some q) r.1 st1 in
       (Some r2, e, st2, tr1 ++ tr2)).
Proof.
  unfold Bus_Query, bind, isValid, ret.
  destruct (result bus ctx (Some q) st) as [[[res [|]] st1] tr1].
  - cbn. by rewrite app_nil_r.
  - cbn. destruct (query time_Now bus ctx (Some q) res st1)
      as [[[r2 e] st2] tr2].
    cbn. by rewrite app_nil_r.
Qed.

(** What [bus.result] calls and what it hands back. *)
Lemma result_shape bus ctx qry st :
  exists gets,
    (result bus ctx qry st).2 = map (fun a => EvGet a qry) gets
    /\ gets `prefix_of` map adp_id (cacheAdapters bus)
    /\ (asCacheable qry = None -> gets = [])
    /\ ((result bus ctx qry st).1.1.2 = true ->
        loaded (result bus ctx qry st).1.1.1 = true)
    /\ iters (result bus ctx qry st).1.2 = iters st.
Proof.
  unfold result. destruct (asCacheable qry) as [c|] eqn:Hc.
  - destruct (probe_total (cacheAdapters bus) ctx qry (world st))
      as (ids & w1 & o & Hp).
    destruct (result_loop_of_probe _ _ _ _ _ _ _ Hp) as (Hpre & _ & Heq).
    destruct st as [w its]. cbn [world iters] in *.
    exists ids. unfold bind. rewrite Heq.
    destruct o as [res|]; cbn; rewrite app_nil_r; repeat split; done.
  - exists []. cbn. repeat split; try done. apply prefix_nil.
Qed.

(** What [bus.Query] calls, in which order, and what it returns: the
    cache reads, then the handlers, then either the cache writes or the
    fan-out of the error it returns. *)
Lemma Bus_Query_shape bus ctx qry st :
  exists gets ran sets,
    (Bus_Query time_Now bus ctx qry st).2
    = map (fun a => EvGet a qry) gets
      ++ map (fun i => EvHandle i qry) ran
      ++ map (fun a => EvSet a qry) sets
      ++ match (Bus_Query time_Now bus ctx qry st).1.1.2 with
         | Some err => fanout_events bus qry err
         | None => []
         end
    /\ gets `prefix_of` map adp_id (cacheAdapters bus)
    /\ ran `prefix_of` map hdl_id (handlers bus)
    /\ sets `prefix_of` map adp_id (cacheAdapters bus)
    /\ (asCacheable qry = None -> gets = [] /\ sets = [])
    /\ (forall c, asCacheable qry = Some c -> (CacheDuration c <= 0)%Z ->
        sets = [])
    /\ (is_Some (Bus_Query time_Now bus ctx qry st).1.1.2 -> sets = [])
    /\ ((Bus_Query time_Now bus ctx qry st).1.1.2 = None ->
        exists res,
          (Bus_Query time_Now bus ctx qry st).1.1.1 = Some res
          /\ (loaded res = true \/ handled res = true))
    /\ iters (Bus_Query time_Now bus ctx qry st).1.2 = iters st.
Proof.
  destruct qry as [q|].
  2:{ exists [], [], []. unfold Bus_Query, bind, isValid, bind.
      rewrite error_spec. cbn. rewrite !app_nil_r.
      repeat split; try done; apply prefix_nil. }
  rewrite Bus_Query_unfold.
  destruct (result_shape bus ctx (Some q) st)
    as (gets & Hg & Hgp & Hgn & Hld & Hgi).
  destruct (result bus ctx (Some q) st) as [[[res hit] st1] tr1].
  cbn [fst snd] in *. subst tr1. destruct hit.
  - exists gets, [], []. cbn. rewrite !app_nil_r.
    split; [done|]. split; [done|].
    split; [apply prefix_nil|]. split; [apply prefix_nil|].
    split; [intros Hn; split; [by apply Hgn | done]|].
    split; [done|]. split; [done|].
    split; [|done].
    intros _. exists res. split; [done|]. left. by apply Hld.
  - destruct (query_shape bus ctx (Some q) res st1)
      as (ran & sets & Htr & Hr & Hs & Hn & Hd & He & Hh & Hit).
    destruct (query time_Now bus ctx (Some q) res st1)
      as [[[r e] st2] tr].
    cbn [fst snd] in *. subst tr.
    exists gets, ran, sets.
    split; [done|]. split; [done|].
    split; [done|]. split; [done|].
    split; [intros Hc; split; [by apply Hgn | by apply Hn]|].
    split; [done|]. split; [done|].
    split; [|congruence].
    intros ->. exists r. split; [done|]. right. by apply Hh.
Qed.

(** X1. The error handlers hear of exactly the error [Query] returns:
    the [EvError] events of the call are the fan-out of that error, one
    call per registered error handler in registration order, and there
    is none when [Query] returns a nil error. *)
Theorem Query_reports_the_error_it_returns bus ctx qry st :
  List.filter is_error_event (Bus_Query time_Now bus ctx qry st).2
  = match (Bus_Query time_Now bus ctx qry st).1.1.2 with
    | Some err => fanout_events bus qry err
    | None => []
    end.
Proof.
  destruct (Bus_Query_shape bus ctx qry st)
    as (gets & ran & sets & -> & _).
  rewrite !List.filter_app.
  rewrite (list_filter_none is_error_event (map _ gets))
    by (apply Forall_fmap, Forall_true; done).
  rewrite (list_filter_none is_error_event (map _ ran))
    by (apply Forall_fmap, Forall_true; done).
  rewrite (list_filter_none is_error_event (map _ sets))
    by (apply Forall_fmap, Forall_true; done).
  cbn [app].
  destruct ((Bus_Query time_Now bus ctx qry st).1.1.2) as [err|]; [|done].
  apply list_filter_all. unfold fanout_events.
  apply Forall_fmap, Forall_true. done.
Qed.

(** X2. [Query] asks a cache adapter only for a Cacheable query, and
    stores into one only when the query is Cacheable with a strictly
    positive duration and the call returns a nil error. *)
Theorem Query_cache_calls bus ctx qry st :
  (forall adp q,
     EvGet adp q ∈ (Bus_Query time_Now bus ctx qry st).2 ->
     is_Some (asCacheable qry))
  /\ (forall adp q,
        EvSet adp q ∈ (Bus_Query time_Now bus ctx qry st).2 ->
        (Bus_Query time_Now bus ctx qry st).1.1.2 = None
        /\ exists c, asCacheable qry = Some c /\ (0 < CacheDuration c)%Z).
Proof.
  destruct (Bus_Query_shape bus ctx qry st)
    as (gets & ran & sets & Htr & _ & _ & _ & Hn & Hd & He & _).
  rewrite Htr. clear Htr.
  assert (Herr : forall (ev : Event),
            is_error_event ev = false ->
            ev ∈ match (Bus_Query time_Now bus ctx qry st).1.1.2 with
                 | Some err => fanout_events bus qry err
                 | None => []
                 end -> False).
  { intros ev Hev Hin.
    destruct ((Bus_Query time_Now bus ctx qry st).1.1.2) as [err|].
    - apply list_elem_of_fmap in Hin as (h & -> & _). discriminate.
    - by apply elem_of_nil in Hin. }
  split; intros adp q Hin.
  - rewrite !elem_of_app in Hin.
    destruct Hin as [Hin|[Hin|[Hin|Hin]]].
    + destruct (asCacheable qry) as [c|]; [by eexists|].
      destruct Hn as [-> _]; [done|]. by apply elem_of_nil in Hin.
    + apply list_elem_of_fmap in Hin as (h & [=] & _).
    + apply list_elem_of_fmap in Hin as (h & [=] & _).
    + by apply Herr in Hin.
  - rewrite !elem_of_app in Hin.
    destruct Hin as [Hin|[Hin|[Hin|Hin]]].
    + apply list_elem_of_fmap in Hin as (h & [=] & _).
    + apply list_elem_of_fmap in Hin as (h & [=] & _).
    + assert (Hne : sets <> []).
      { intros ->. by apply elem_of_nil in Hin. }
      split.
      * destruct ((Bus_Query time_Now bus ctx qry st).1.1.2) as [err|];
          [|done].
        exfalso. apply Hne, He. by eexists.
      * destruct (asCacheable qry) as [c|].
        -- exists c. split; [done|].
           destruct (Z.ltb_spec 0 (CacheDuration c)); [done|].
           exfalso. by apply Hne, (Hd c).
        -- exfalso. apply Hne. by apply Hn.
    + by apply Herr in Hin.
Qed.

Lemma error_same_dispatch (b b' : Bus W) ctx qry err :
  same_dispatch b b' -> error b' ctx qry err = error b ctx qry err.
Proof. intros (_ & He & _). unfold error. by rewrite He. Qed.

Lemma query_loop_same_dispatch (b b' : Bus W) (hdls : list (Handler W))
    ctx qry (res : Result) st :
  same_dispatch b b' ->
  query_loop b' hdls ctx qry res st = query_loop b hdls ctx qry res st.
Proof.
  intros Hs. revert res st.
  induction hdls as [|hdl rest IH]; intros res st; [done|].
  cbn [query_loop]. unfold bind.
  destruct (call _ _ st) as [[[res1 [err|]] st1] tr1]; cbn.
  - by rewrite (error_same_dispatch _ _ _ _ _ Hs).
  - destruct (propagationStopped res1); [done|]. by rewrite IH.
Qed.

Lemma query_same_dispatch (b b' : Bus W) ctx qry (res : Result) st :
  same_dispatch b b' ->
  query time_Now b' ctx qry res st = query time_Now b ctx qry res st.
Proof.
  intros Hs. pose proof Hs as (Hh & He & Ha).
  unfold query, bind. rewrite Hh.
  rewrite (query_loop_same_dispatch _ _ _ _ _ _ _ Hs).
  destruct (query_loop b (handlers b) ctx qry res st)
    as [[[res1 [err|]] st1] tr1]; [done|].
  destruct (negb (isHandled res1)).
  - by rewrite (error_same_dispatch _ _ _ _ _ Hs).
  - unfold handleCache. by rewrite Ha.
Qed.

(** X3. The synchronous dispatch looks at nothing of the bus but its
    handlers, error handlers and cache adapters: whether the iterator
    pool is initialized, shutting down or shut down, and however it is
    configured, [Query] does the same.  It also leaves every iterator
    result as it was. *)
Theorem Query_ignores_the_pool (b b' : Bus W) ctx qry st :
  same_dispatch b b' ->
  Bus_Query time_Now b' ctx qry st = Bus_Query time_Now b ctx qry st
  /\ iters (Bus_Query time_Now b ctx qry st).1.2 = iters st.
Proof.
  intros Hs. split.
  2:{ by destruct (Bus_Query_shape b ctx qry st)
        as (gets & ran & sets & _ & _ & _ & _ & _ & _ & _ & _ & H). }
  pose proof Hs as (Hh & He & Ha).
  destruct qry as [q|].
  - rewrite !Bus_Query_unfold.
    assert (Hr : result b' ctx (Some q) st = result b ctx (Some q) st).
    { unfold result. by rewrite Ha. }
    rewrite Hr.
    destruct (result b ctx (Some q) st) as [[[res hit] st1] tr1].
    cbn [fst snd]. destruct hit; [done|].
    by rewrite (query_same_dispatch _ _ _ _ _ _ Hs).
  - unfold Bus_Query, isValid, bind.
    rewrite (error_same_dispatch _ _ _ _ _ Hs). by rewrite error_spec.
Qed.

(** X4. With no handler registered, a query that the cache does not
    answer fails with [NoHandlersFound]: the caller gets the new, empty
    result with the error, which is fanned out; nothing is written to
    the cache. *)
Theorem Query_without_handlers bus ctx (q : QueryVal) st :
  handlers bus = [] ->
  (result bus ctx (Some q) st).1.1.2 = false ->
  Bus_Query time_Now bus ctx (Some q) st
  = (Some newResult, Some (NewErrorNoQueryHandlersFound (Some q)),
     {| world := fanout_world bus ctx (Some q)
                   (NewErrorNoQueryHandlersFound (Some q))
                   (world (result bus ctx (Some q) st).1.2);
        iters := iters st |},
     (result bus ctx (Some q) st).2
     ++ fanout_events bus (Some q) (NewErrorNoQueryHandlersFound (Some q))).
Proof.
  intros Hh Hmiss. rewrite Bus_Query_unfold.
  destruct (result_shape bus ctx (Some q) st) as (gets & _ & _ & _ & _ & Hit).
  assert (Hnew : (result bus ctx (Some q) st).1.1.2 = false ->
                 (result bus ctx (Some q) st).1.1.1 = newResult).
  { unfold result. destruct (asCacheable (Some q)) as [c|]; [|done].
    unfold bind.
    destruct (result_loop (cacheAdapters bus) ctx (Some q) st)
      as [[[res|] st1] tr1]; cbn; [discriminate | done]. }
  specialize (Hnew Hmiss).
  destruct (result bus ctx (Some q) st) as [[[res hit] st1] tr1].
  cbn [fst snd] in *. subst hit res.
  unfold query. rewrite Hh. cbn [query_loop]. unfold bind, ret. cbn.
  rewrite error_spec. cbn. rewrite !app_nil_r. by rewrite Hit.
Qed.

(** When [Query] fails, the fan-out of the error is the last thing that
    happened to the world. *)
Lemma Bus_Query_failure_world bus ctx qry st (err : Err) :
  (Bus_Query time_Now bus ctx qry st).1.1.2 = Some err ->
  exists w1,
    world (Bus_Query time_Now bus ctx qry st).1.2
    = fanout_world bus ctx qry err w1.
Proof.
  destruct qry as [q|].
  2:{ unfold Bus_Query, isValid, bind. rewrite error_spec. cbn.
      intros [= <-]. by eexists. }
  rewrite Bus_Query_unfold.
  destruct (result bus ctx (Some q) st) as [[[res hit] st1] tr1].
  cbn [fst snd]. destruct hit; [discriminate|].
  destruct (chain_total hdl_id
              (fun hdl w r => hdl_Handle hdl w ctx (Some q) r)
              propagationStopped (handlers bus) (world st1) res)
    as (ids & e & w1 & r1 & Hch).
  rewrite (query_of_chain bus ctx (Some q) res st1 ids e w1 r1 Hch).
  unfold query_outcome.
  destruct (handleCache time_Now bus ctx (Some q) r1
              {| world := w1; iters := iters st1 |}) as [[r2 st2] tr2].
  destruct e as [err'| |]; [|destruct (isHandled r1)..]; cbn;
    try discriminate; intros [= <-]; by eexists.
Qed.

(** ** The worker count *)

Lemma uint32_not_zero : uint32_not 0 = (uint32_modulus - 1)%Z.
Proof. reflexivity. Qed.

(** The decrement the drain performs is [iteratorWorkerDown]. *)
Lemma caller_step_down (s : Sys W) (t : nat) :
  caller_step t SDown s
  = Some (with_caller t SLoop
            (with_bus (iteratorWorkerDown (sys_bus s)) s), []).
Proof. reflexivity. Qed.

(** The count [InitializeIteratorHandlers] leaves is that of one
    [iteratorWorkerUp] per worker started. *)
Lemma iter_iteratorWorkerUp (n : nat) (b : Bus W) :
  Nat.iter n (@iteratorWorkerUp W) b
  = set_iteratorWorkers
      (Nat.iter n (fun c => AddUint32 c 1) (iteratorWorkers b)) b.
Proof.
  induction n as [|n IH]; [by destruct b|].
  rewrite !Nat.iter_succ. rewrite IH. by destruct b.
Qed.

(** X5. [iteratorWorkerDown], which adds [^uint32(0)], is the inverse of
    [iteratorWorkerUp] on every 32-bit count: it decrements a positive
    count by one and takes zero to the largest count, from which
    [iteratorWorkerUp] wraps back to zero. *)
Theorem iteratorWorkerDown_undoes_Up (bus : Bus W) :
  (0 <= iteratorWorkers bus < uint32_modulus)%Z ->
  iteratorWorkerDown (iteratorWorkerUp bus) = bus
  /\ iteratorWorkerUp (iteratorWorkerDown bus) = bus
  /\ iteratorWorkers (iteratorWorkerDown bus)
     = (if (iteratorWorkers bus =? 0)%Z then uint32_modulus - 1
        else iteratorWorkers bus - 1)%Z.
Proof.
  intros Hc. destruct bus as [ps qb rb ini shut c hs ihs ehs adps q].
  cbn [iteratorWorkers] in Hc.
  unfold iteratorWorkerDown, iteratorWorkerUp, set_iteratorWorkers.
  cbn -[AddUint32 uint32_not uint32_modulus].
  rewrite uint32_not_zero. unfold AddUint32.
  assert (H1 : (((c + 1) mod uint32_modulus + (uint32_modulus - 1))
                mod uint32_modulus = c)%Z).
  { rewrite Z.add_mod_idemp_l by (unfold uint32_modulus; lia).
    replace (c + 1 + (uint32_modulus - 1))%Z
      with (c + 1 * uint32_modulus)%Z by lia.
    rewrite Z.mod_add by (unfold uint32_modulus; lia).
    apply Z.mod_small. lia. }
  assert (H2 : (((c + (uint32_modulus - 1)) mod uint32_modulus + 1)
                mod uint32_modulus = c)%Z).
  { rewrite Z.add_mod_idemp_l by (unfold uint32_modulus; lia).
    replace (c + (uint32_modulus - 1) + 1)%Z
      with (c + 1 * uint32_modulus)%Z by lia.
    rewrite Z.mod_add by (unfold uint32_modulus; lia).
    apply Z.mod_small. lia. }
  rewrite H1, H2. do 2 (split; [reflexivity|]).
  destruct (Z.eqb_spec c 0) as [->|Hne]; [reflexivity|].
  replace (c + (uint32_modulus - 1))%Z
    with ((c - 1) + 1 * uint32_modulus)%Z by lia.
  rewrite Z.mod_add by (unfold uint32_modulus; lia).
  apply Z.mod_small. lia.
Qed.

(** ** Every step of the pool, case by case *)

Ltac step_cases Hstep :=
  match type of Hstep with
  | step ?s ?a = Some _ =>
    destruct a as [ta|wi|ta wi|hk|qctx qq]; unfold step in Hstep;
    [ destruct (sys_callers s !! ta) as [pc|] eqn:Hlk; [|discriminate];
      destruct pc as [| | | | |[|adp rest]| |ran];
      unfold caller_step in Hstep;
      [ destruct (CompareAndSwapUint32 (shuttingDown (sys_bus s)) 0 1)
          as [v sw] eqn:Hcas; injection Hstep as <- <-
      | destruct (0 <? iteratorWorkers (sys_bus s))%Z eqn:Hpos;
        injection Hstep as <- <-
      | destruct (can_send (sys_bus s) (sys_workers s)) eqn:Hsend;
        [|discriminate]; injection Hstep as <- <-
      | discriminate
      | injection Hstep as <- <-
      | destruct (CompareAndSwapUint32 (initialized (sys_bus s)) 1 0)
          as [v sw] eqn:Hcas; injection Hstep as <- <-
      | rewrite shutdown_adapters_spec in Hstep; injection Hstep as <- <-
      | destruct (CompareAndSwapUint32 (shuttingDown (sys_bus s)) 1 0)
          as [v sw] eqn:Hcas; injection Hstep as <- <-
      | discriminate ]
    | destruct (sys_workers s !! wi) as [[| |]|] eqn:Hlk; try discriminate;
      unfold worker_step in Hstep;
      destruct (iteratorQueryQueue (sys_bus s)) as [|[penQry|] q] eqn:Hqueue;
      [discriminate| |];
      [ destruct (iteratorWorker_body (sys_bus s) penQry (sys_store s))
          as [[u st1] tr1] eqn:Hbody; injection Hstep as <- <-
      | injection Hstep as <- <- ]
    | destruct (sys_callers s !! ta) as [[| | | | | | |]|] eqn:Hlk;
      try discriminate;
      destruct (sys_workers s !! wi) as [[| |]|] eqn:Hlkw; try discriminate;
      injection Hstep as <- <-
    | injection Hstep as <- <-
    | unfold Bus_IteratorQuery in Hstep;
      destruct (isIteratorValid (sys_bus s) qctx qq (sys_store s))
        as [[[err|] st1] tr1] eqn:Hvalid;
      [ injection Hstep as <- <-
      | destruct (can_send (sys_bus s) (sys_workers s)) eqn:Hsend;
        [|discriminate]; injection Hstep as <- <- ] ]
  end.

(** What [isIteratorValid] tells when it lets a query through, and what
    it does when it does not. *)
Lemma isIteratorValid_accepts bus ctx qry st st' tr :
  isIteratorValid bus ctx qry st = (None, st', tr) ->
  is_Some qry /\ initialized bus = 1%Z /\ shuttingDown bus <> 1%Z
  /\ st' = st /\ tr = [].
Proof.
  destruct qry as [q|].
  2:{ rewrite isIteratorValid_nil. discriminate. }
  destruct (Z.eq_dec (initialized bus) 1) as [Hi|Hi].
  2:{ rewrite isIteratorValid_not_initialized by done. discriminate. }
  destruct (Z.eq_dec (shuttingDown bus) 1) as [Hs|Hs].
  { rewrite isIteratorValid_shutting_down by done. discriminate. }
  unfold isIteratorValid, bind, isValid, ret, isInitialized, isShuttingDown.
  rewrite Hi. destruct (Z.eqb_spec (shuttingDown bus) 1); [done|].
  cbn. intros [= <- <-]. by eauto.
Qed.

Lemma isIteratorValid_rejects bus ctx qry st (err : Err) st' tr :
  isIteratorValid bus ctx qry st = (Some err, st', tr) ->
  st' = {| world := fanout_world bus ctx qry err (world st);
           iters := iters st |}
  /\ tr = fanout_events bus qry err.
Proof.
  destruct qry as [q|].
  2:{ rewrite isIteratorValid_nil. by intros [= <- <- <-]. }
  destruct (Z.eq_dec (initialized bus) 1) as [Hi|Hi].
  2:{ rewrite isIteratorValid_not_initialized by done.
      by intros [= <- <- <-]. }
  destruct (Z.eq_dec (shuttingDown bus) 1) as [Hs|Hs].
  { rewrite isIteratorValid_shutting_down by done. by intros [= <- <- <-]. }
  unfold isIteratorValid, bind, isValid, ret, isInitialized, isShuttingDown.
  rewrite Hi. destruct (Z.eqb_spec (shuttingDown bus) 1); [done|].
  cbn. discriminate.
Qed.

(** No step of the pool changes what was registered or configured, and
    only the reset at the end of [shutdown] takes [initialized] down. *)
Lemma step_keeps_config (s : Sys W) (a : Action) s' evs :
  step s a = Some (s', evs) ->
  same_config (sys_bus s) (sys_bus s')
  /\ (countb is_reset_initialized evs = 0 ->
      initialized (sys_bus s') = initialized (sys_bus s)).
Proof.
  intros Hstep. step_cases Hstep; unfold same_config; cbn;
    repeat split; try done; try lia.
Qed.

Lemma steps_keep_config (s0 : Sys W) tr s :
  steps s0 tr s ->
  same_config (sys_bus s0) (sys_bus s)
  /\ (countb is_reset_initialized tr = 0 ->
      initialized (sys_bus s) = initialized (sys_bus s0)).
Proof.
  induction 1 as [s|s tr s1 a s2 evs _ [IHc IHi] Hstep].
  - split; [by unfold same_config | done].
  - destruct (step_keeps_config _ _ _ _ Hstep) as [Hc Hi].
    split.
    + unfold same_config in *.
      destruct IHc as (<- & <- & <- & <- & <- & <- & <-).
      exact Hc.
    + rewrite countb_app. intros H0. rewrite Hi, IHi; [done|lia..].
Qed.

(** X6. From the moment the bus is initialized until a [Shutdown]
    resets the flag, and whatever the pool does in between, the pool
    size, the queue buffer and the iterator handlers cannot be changed:
    [IteratorWorkerPoolSize], [IteratorQueueBuffer] and a further
    [InitializeIteratorHandlers] leave the bus as it is, and no step of the
    pool has touched what was registered.  [IteratorResultBuffer] still
    applies: the next streaming query accepted gets a result with the
    new buffer. *)
Theorem configuration_frozen_while_initialized (s0 : Sys W) :
  initialized (sys_bus s0) = 1%Z ->
  forall tr s,
  steps s0 tr s ->
  countb is_reset_initialized tr = 0 ->
  (forall n, IteratorWorkerPoolSize (sys_bus s) n = sys_bus s)
  /\ (forall n, IteratorQueueBuffer (sys_bus s) n = sys_bus s)
  /\ (forall hdls, InitializeIteratorHandlers s hdls = Some s)
  /\ same_config (sys_bus s0) (sys_bus s)
  /\ (forall n ctx qry h e s1 tr1,
        Bus_IteratorQuery (with_bus (IteratorResultBuffer (sys_bus s) n) s)
                          ctx qry
        = Some (Some h, e, s1, tr1) ->
        h = length (iters (sys_store s))
        /\ iters (sys_store s1) !!! h = newIteratorResult n).
Proof.
  intros Hi tr s Hsteps Hno.
  destruct (steps_keep_config _ _ _ Hsteps) as [Hcfg Hinit].
  specialize (Hinit Hno). rewrite Hi in Hinit.
  split; [|split; [|split; [|split; [done|]]]].
  - intros n. unfold IteratorWorkerPoolSize, isInitialized. by rewrite Hinit.
  - intros n. unfold IteratorQueueBuffer, isInitialized. by rewrite Hinit.
  - intros hdls. unfold InitializeIteratorHandlers, CompareAndSwapUint32.
    by rewrite Hinit.
  - intros n ctx qry h e s1 tr1. unfold Bus_IteratorQuery.
    cbn [sys_bus sys_store with_bus].
    destruct (isIteratorValid _ ctx qry (sys_store s))
      as [[[err|] st1] tr2] eqn:Hv; [discriminate|].
    apply isIteratorValid_accepts in Hv as (_ & _ & _ & -> & ->).
    destruct (can_send _ _); [|discriminate].
    intros [= <- <- <- <-]. split; [done|]. cbn.
    by rewrite lookup_total_app_r, Nat.sub_diag.
Qed.

(** ** A pool without workers *)

Lemma fanout_events_quiet bus qry (err : Err) :
  countb is_iterator_handle (fanout_events bus qry err) = 0
  /\ closes (fanout_events bus qry err) = [].
Proof.
  unfold fanout_events.
  induction (errorHandlers bus) as [|errHdl rest [IH1 IH2]]; [done|].
  cbn. by rewrite IH1, IH2.
Qed.

Lemma closes_app (t1 t2 : list Event) :
  closes (t1 ++ t2) = closes t1 ++ closes t2.
Proof.
  induction t1 as [|ev t1 IH]; [done|].
  destruct ev; cbn; by rewrite ?IH.
Qed.

Lemma no_workers_step (s : Sys W) (a : Action) s' evs :
  sys_workers s = [] ->
  step s a = Some (s', evs) ->
  sys_workers s' = []
  /\ countb is_iterator_handle evs = 0
  /\ closes evs = [].
Proof.
  intros Hw Hstep. step_cases Hstep;
    try (rewrite Hw in Hlk; by rewrite lookup_nil in Hlk);
    try (rewrite Hw in Hlkw; by rewrite lookup_nil in Hlkw);
    cbn; try done.
  - apply isIteratorValid_rejects in Hvalid as [_ ->].
    split; [done|]. apply fanout_events_quiet.
  - by apply isIteratorValid_accepts in Hvalid as (_ & _ & _ & _ & ->).
Qed.

Lemma no_workers_steps (s0 : Sys W) tr s1 :
  sys_workers s0 = [] ->
  steps s0 tr s1 ->
  sys_workers s1 = []
  /\ countb is_iterator_handle tr = 0
  /\ closes tr = [].
Proof.
  intros Hw Hsteps.
  induction Hsteps as [s0|s0 tr s1 a s2 evs _ IH Hstep]; [by cbn|].
  destruct (IH Hw) as (Hw1 & Hh1 & Hc1).
  destruct (no_workers_step _ _ _ _ Hw1 Hstep) as (Hw2 & Hh2 & Hc2).
  rewrite countb_app, closes_app, Hh1, Hh2, Hc1, Hc2. by cbn.
Qed.

(** X7. A pool of size zero or less, on a queue buffer that is not
    negative, starts no worker, and yet the bus counts as initialized.  A
    streaming query is then accepted and left on the queue when the queue
    is buffered; on an unbuffered queue its send blocks, as no worker
    will ever receive.  Along every run no iterator handler is ever
    called and no result is ever closed. *)
Theorem pool_without_workers_serves_nothing (s : Sys W)
    (hdls : list (IteratorHandler W)) :
  sys_workers s = [] ->
  initialized (sys_bus s) = 0%Z ->
  shuttingDown (sys_bus s) = 0%Z ->
  (iteratorWorkerPoolSize (sys_bus s) <= 0)%Z ->
  (0 <= iteratorQueueBuffer (sys_bus s))%Z ->
  exists s0,
    InitializeIteratorHandlers s hdls = Some s0
    /\ sys_workers s0 = []
    /\ isInitialized (sys_bus s0) = true
    /\ iteratorQueryQueue (sys_bus s0) = []
    /\ (forall ctx (q : QueryVal),
          if (0 <? iteratorQueueBuffer (sys_bus s))%Z
          then
            exists s1,
              Bus_IteratorQuery s0 ctx (Some q)
              = Some (Some (length (iters (sys_store s0))), None, s1, [])
              /\ iteratorQueryQueue (sys_bus s1)
                 = [Some {| pen_ctx := ctx; pen_qry := Some q;
                            pen_res := length (iters (sys_store s0)) |}]
          else Bus_IteratorQuery s0 ctx (Some q) = None)
    /\ forall tr s1,
         steps s0 tr s1 ->
         sys_workers s1 = []
         /\ countb is_iterator_handle tr = 0
         /\ closes tr = [].
Proof.
  intros Hw Hi Hs Hsize Hbuf.
  unfold InitializeIteratorHandlers, CompareAndSwapUint32.
  rewrite Hi. cbn [Z.eqb].
  destruct (Z.ltb_spec (iteratorQueueBuffer (sys_bus s)) 0); [lia|].
  assert (Hn : Z.to_nat (iteratorWorkerPoolSize (sys_bus s)) = 0) by lia.
  rewrite Hn. cbn [Nat.iter replicate]. rewrite app_nil_r.
  eexists. split; [reflexivity|]. split; [exact Hw|]. split; [reflexivity|].
  split; [reflexivity|]. split.
  - intros ctx q. unfold Bus_IteratorQuery. cbn [sys_bus sys_store].
    rewrite isIteratorValid_ready by (cbn; done).
    unfold can_send. cbn. rewrite Hw. cbn.
    destruct (Z.ltb_spec 0 (iteratorQueueBuffer (sys_bus s))) as [Hpos|Hzero].
    + destruct (Z.to_nat (iteratorQueueBuffer (sys_bus s)) + 0) eqn:Hroom;
        [lia | by eexists].
    + assert (Hb : Z.to_nat (iteratorQueueBuffer (sys_bus s)) = 0) by lia.
      by rewrite Hb.
  - intros tr s1 Hsteps.
    eapply no_workers_steps; [|exact Hsteps]. exact Hw.
Qed.

(** ** What a step closes *)

Lemma closes_none (tr : list Event) :
  (forall k, EvClose k ∉ tr) -> closes tr = [].
Proof.
  induction tr as [|ev tr IH]; [done|]. intros H.
  assert (Htr : closes tr = []).
  { apply IH. intros k Hk. apply (H k). by right. }
  destruct ev; cbn; try done. exfalso. eapply H. left.
Qed.

(** One turn of a worker closes the result it served when a consumer
    was listening, and nothing otherwise; the store keeps its size. *)
Lemma iteratorWorker_body_closes bus (penQry : pendingIteratorQuery) st :
  closes (iteratorWorker_body bus penQry st).2
  = (if listening (iters st !!! pen_res penQry) then [pen_res penQry] else [])
  /\ length (iters (iteratorWorker_body bus penQry st).1.2)
     = length (iters st).
Proof.
  destruct (iteratorWorker_body_frame bus penQry st) as [[r Hr] _].
  rewrite Hr, length_insert. split; [|done]. clear r Hr.
  unfold iteratorWorker_body, bind, waitListener, bind, read_result, ret.
  cbn. destruct (listening _).
  - pose proof (iteratorQuery_closes_nothing bus (pen_ctx penQry)
                  (pen_qry penQry) (pen_res penQry)) as Hnc.
    specialize (fun k => Hnc k st).
    destruct (iteratorQuery _ _ _ _ st) as [[u st1] t1]. cbn in *.
    rewrite closes_app, (closes_none t1) by done. done.
  - rewrite error_spec. cbn. apply fanout_events_quiet.
Qed.

(** What a step takes off the queue, what it puts on it, and what it
    closes. *)
Lemma step_handles (s : Sys W) (a : Action) s' evs :
  step s a = Some (s', evs) ->
  exists taken fresh,
    taken ++ handles (iteratorQueryQueue (sys_bus s'))
    = handles (iteratorQueryQueue (sys_bus s)) ++ fresh
    /\ closes evs `sublist_of` taken
    /\ fresh = seq (length (iters (sys_store s))) (length fresh)
    /\ length (iters (sys_store s'))
       = length (iters (sys_store s)) + length fresh.
Proof.
  intros Hstep.
  assert (Hsame : forall (q' : list (option pendingIteratorQuery))
                         (its' : list IteratorResult) (evs' : list Event),
            handles q' = handles (iteratorQueryQueue (sys_bus s)) ->
            length its' = length (iters (sys_store s)) ->
            closes evs' = [] ->
            exists taken fresh,
              taken ++ handles q'
              = handles (iteratorQueryQueue (sys_bus s)) ++ fresh
              /\ closes evs' `sublist_of` taken
              /\ fresh = seq (length (iters (sys_store s))) (length fresh)
              /\ length its' = length (iters (sys_store s)) + length fresh).
  { intros q' its' evs' Hq Hl Hc. exists [], []. rewrite Hq, Hl, Hc.
    cbn. rewrite app_nil_r. repeat split; try done. }
  step_cases Hstep; cbn [sys_bus sys_store with_bus with_store with_worker
                         with_caller iteratorQueryQueue
                         set_iteratorQueryQueue set_shuttingDown
                         set_initialized set_iteratorWorkers iters];
    try (by apply Hsame).
  - apply Hsame; [|done..]. by rewrite handles_app, app_nil_r.
  - destruct (iteratorWorker_body_closes (sys_bus s) penQry (sys_store s))
      as [Hc Hl].
    rewrite Hbody in Hc, Hl. cbn [fst snd] in Hc, Hl.
    exists [pen_res penQry], []. rewrite Hc, Hl. cbn.
    rewrite app_nil_r. repeat split; try done.
    destruct (listening _); [done | apply sublist_nil_l].
  - apply Hsame; [done| |done]. by rewrite length_insert.
  - apply isIteratorValid_rejects in Hvalid as [-> ->].
    apply Hsame; [done..|]. apply fanout_events_quiet.
  - apply isIteratorValid_accepts in Hvalid as (_ & _ & _ & -> & ->).
    exists [], [length (iters (sys_store s))].
    rewrite handles_app, length_app. cbn.
    repeat split; try done.
Qed.

(** ** The racing pool: what is in flight, and what is closed *)

Lemma serving_insert (ws : list RacePC) (i : nat) (pc pc' : RacePC) :
  ws !! i = Some pc ->
  held pc ++ serving (<[i := pc']> ws) ≡ₚ held pc' ++ serving ws.
Proof.
  revert i. induction ws as [|pc0 ws IH]; intros [|i] Hi; try done.
  - injection Hi as ->.
    change (held pc ++ held pc' ++ serving ws
            ≡ₚ held pc' ++ held pc ++ serving ws).
    rewrite !app_assoc. f_equiv. apply Permutation_app_comm.
  - change (held pc ++ held pc0 ++ serving (<[i := pc']> ws)
            ≡ₚ held pc' ++ held pc0 ++ serving ws).
    rewrite !app_assoc, (Permutation_app_comm (held pc) (held pc0)),
            (Permutation_app_comm (held pc') (held pc0)), <- !app_assoc.
    f_equiv. by apply IH.
Qed.

(** A worker that holds no query can change places freely. *)
Lemma serving_insert_idle (ws : list RacePC) (i : nat) (pc pc' : RacePC) :
  ws !! i = Some pc -> held pc = [] -> held pc' = [] ->
  serving (<[i := pc']> ws) ≡ₚ serving ws.
Proof.
  intros Hi Hpc Hpc'. pose proof (serving_insert ws i pc pc' Hi) as H.
  by rewrite Hpc, Hpc' in H.
Qed.

Lemma submseteq_NoDup {A} (l k : list A) : l ⊆+ k -> NoDup k -> NoDup l.
Proof.
  intros Hsub Hnd. apply submseteq_sublist_l in Hsub as (k' & Hs & Hp).
  eapply sublist_NoDup; [|exact Hs]. by rewrite Hp.
Qed.

(** What a step of the racing pool takes out of flight, what it puts in
    flight, and what it closes. *)
Lemma race_step_in_flight (s : Race W) (a : Action) s' evs :
  race_step s a = Some (s', evs) ->
  exists fresh,
    closes evs ++ in_flight s' ⊆+ in_flight s ++ fresh
    /\ fresh = seq (length (iters (race_store s))) (length fresh)
    /\ length (iters (race_store s'))
       = length (iters (race_store s)) + length fresh.
Proof.
  intros Hstep. unfold in_flight.
  assert (Hview : forall v,
            step (callers_view s) a = Some (v, evs) ->
            exists fresh,
              closes evs
              ++ serving (race_workers s)
              ++ handles (iteratorQueryQueue (sys_bus v))
              ⊆+ (serving (race_workers s)
                  ++ handles (iteratorQueryQueue (race_bus s))) ++ fresh
              /\ fresh = seq (length (iters (race_store s))) (length fresh)
              /\ length (iters (sys_store v))
                 = length (iters (race_store s)) + length fresh).
  { intros v Hv.
    destruct (step_handles _ _ _ _ Hv) as (taken & fresh & Hq & Hc & Hf & Hl).
    cbn [callers_view sys_bus sys_store] in Hq, Hf, Hl.
    exists fresh. split; [|done].
    rewrite <- app_assoc, <- Hq.
    rewrite (app_assoc (closes evs)),
            (Permutation_app_comm (closes evs)), <- app_assoc.
    apply submseteq_skips_l, submseteq_skips_r.
    by apply sublist_submseteq. }
  destruct a as [t|i|t i|h|ctx qry]; cbn [race_step] in Hstep.
  - destruct (step (callers_view s) (ACaller t)) as [[v evs0]|] eqn:Hv;
      [|done].
    injection Hstep as <- <-. by apply Hview.
  - destruct (race_workers s !! i) as [pc|] eqn:Hi; [|done].
    destruct pc as [|penQry| |]; cbn [race_worker_step] in Hstep; try done.
    + destruct (iteratorQueryQueue (race_bus s)) as [|[penQry|] q] eqn:Hq;
        [done| |]; injection Hstep as <- <-; exists [];
        cbn [race_workers race_bus race_store iteratorQueryQueue
             set_iteratorQueryQueue closes handles length];
        rewrite app_nil_r; (split; [|by rewrite Nat.add_0_r]).
      * pose proof (serving_insert (race_workers s) i RRecv
                      (RServe penQry) Hi) as Hp.
        cbn [held app] in Hp. rewrite Hp. cbn [app].
        apply Permutation_submseteq. by rewrite <- Permutation_middle.
      * rewrite (serving_insert_idle (race_workers s) i RRecv RSend)
          by done.
        done.
    + destruct (iteratorWorker_body_closes (race_bus s) penQry (race_store s))
        as [Hc Hl].
      destruct (iteratorWorker_body (race_bus s) penQry (race_store s))
        as [[u st] tr].
      injection Hstep as <- <-. cbn [fst snd] in Hc, Hl.
      exists []. cbn [race_workers race_bus race_store length].
      rewrite app_nil_r, Hl. split; [|by rewrite Nat.add_0_r].
      pose proof (serving_insert (race_workers s) i (RServe penQry)
                    RRecv Hi) as Hp.
      cbn [held app] in Hp. rewrite <- Hp, Hc.
      destruct (listening _); cbn [app]; [done|].
      by apply submseteq_cons.
  - destruct (race_callers s !! t) as [[]|]; try done.
    destruct (race_workers s !! i) as [[]|] eqn:Hi; try done.
    injection Hstep as <- <-. exists [].
    cbn [race_workers race_bus race_store closes length].
    rewrite app_nil_r. split; [|by rewrite Nat.add_0_r].
    by rewrite (serving_insert_idle (race_workers s) i RSend RExit).
  - destruct (step (callers_view s) (AAttach h)) as [[v evs0]|] eqn:Hv;
      [|done].
    injection Hstep as <- <-. by apply Hview.
  - destruct (step (callers_view s) (AQuery ctx qry)) as [[v evs0]|] eqn:Hv;
      [|done].
    injection Hstep as <- <-. by apply Hview.
Qed.

Lemma race_steps_in_flight (s0 : Race W) tr s :
  race_steps s0 tr s ->
  exists k,
    length (iters (race_store s)) = length (iters (race_store s0)) + k
    /\ closes tr ++ in_flight s
       ⊆+ in_flight s0 ++ seq (length (iters (race_store s0))) k.
Proof.
  induction 1 as [s|s tr s1 a s2 evs _ (k & Hl & Hin) Hstep].
  - exists 0. cbn. rewrite app_nil_r. done.
  - destruct (race_step_in_flight _ _ _ _ Hstep) as (fresh & Hin1 & Hf & Hl1).
    exists (k + length fresh). split; [lia|].
    rewrite closes_app, <- app_assoc.
    etrans; [apply submseteq_skips_l, Hin1|].
    rewrite seq_app, <- Hl, <- Hf, !app_assoc.
    by apply submseteq_skips_r.
Qed.

Lemma race_run_steps (acts : list Action) (s : Race W) s' tr :
  race_run acts s = Some (s', tr) -> race_steps s tr s'.
Proof.
  assert (Hgen : forall acts (s0 : Race W) tr0 s1,
    race_steps s0 tr0 s1 ->
    forall s2 tr2, race_run acts s1 = Some (s2, tr2) ->
    race_steps s0 (tr0 ++ tr2) s2).
  { clear. intros acts0.
    induction acts0 as [|a acts0 IH]; intros s0 tr0 s Hs s' tr Hrun.
    - injection Hrun as <- <-. by rewrite app_nil_r.
    - cbn in Hrun.
      destruct (race_step s a) as [[s1 t1]|] eqn:Hstep; [|done].
      destruct (race_run acts0 s1) as [[s2 t2]|] eqn:Hrest; [|done].
      injection Hrun as <- <-. rewrite app_assoc.
      eapply IH; [|exact Hrest]. by eapply race_steps_snoc. }
  intros Hrun.
  apply (Hgen acts s [] s (race_steps_refl s) s' tr Hrun).
Qed.

(** ** The pool with atomic workers, as a racing pool *)

Lemma countb_racing (ws : list WorkerPC) :
  countb is_RRecv (map racing_pc ws) = countb is_WRecv ws.
Proof. induction ws as [|[] ws IH]; cbn; by rewrite ?IH. Qed.

Lemma countb_replicate_WRecv (n : nat) :
  countb is_WRecv (replicate n WRecv) = n.
Proof. induction n as [|n IH]; cbn; by rewrite ?IH. Qed.

(** The steps of the callers and of the consumers depend on the workers
    through the number blocked on the receive only, and leave the workers
    where they stand. *)
Lemma step_callers_view (s : Sys W) (a : Action) s' evs :
  match a with AWorker _ | AAck _ _ => False | _ => True end ->
  step s a = Some (s', evs) ->
  step (callers_view (racing s)) a
  = Some ({| sys_bus := sys_bus s'; sys_store := sys_store s';
             sys_workers := sys_workers (callers_view (racing s));
             sys_callers := sys_callers s' |}, evs)
  /\ sys_workers s' = sys_workers s.
Proof.
  intros Ha Hstep.
  assert (Hview : can_send (sys_bus s)
                            (sys_workers (callers_view (racing s)))
                  = can_send (sys_bus s) (sys_workers s)).
  { unfold can_send. cbn [callers_view racing sys_workers race_workers].
    by rewrite countb_replicate_WRecv, countb_racing. }
  step_cases Hstep; try done.
  all: unfold step, caller_step, Bus_IteratorQuery;
    cbn [callers_view racing sys_bus sys_store sys_callers sys_workers
         race_bus race_store race_callers race_workers] in *;
    rewrite ?Hlk, ?Hcas, ?Hpos, ?Hvalid, ?Hview, ?Hsend,
            ?shutdown_adapters_spec;
    try (split; reflexivity).
Qed.
(** What a worker does to a query does not depend on the queue. *)
Lemma iteratorQuery_loop_queue (b : Bus W)
    (q : list (option pendingIteratorQuery)) (hdls : list (IteratorHandler W))
    ctx qry (h : nat) st :
  iteratorQuery_loop (set_iteratorQueryQueue q b) hdls ctx qry h st
  = iteratorQuery_loop b hdls ctx qry h st.
Proof.
  revert st. induction hdls as [|hdl rest IH]; intros st; [done|].
  cbn [iteratorQuery_loop]. unfold bind.
  destruct (call_iteratorHandler hdl ctx qry h st) as [[[err|] st1] tr1];
    [reflexivity|].
  destruct (read_result h st1) as [[r st2] tr2].
  destruct (it_stopPropagation r); [reflexivity|]. by rewrite IH.
Qed.

Lemma iteratorWorker_body_queue (b : Bus W)
    (q : list (option pendingIteratorQuery)) (penQry : pendingIteratorQuery)
    st :
  iteratorWorker_body (set_iteratorQueryQueue q b) penQry st
  = iteratorWorker_body b penQry st.
Proof.
  unfold iteratorWorker_body, bind, iteratorQuery, bind.
  destruct (waitListener (pen_res penQry) st) as [[[|] st1] tr1];
    [|reflexivity].
  cbn [iteratorHandlers set_iteratorQueryQueue].
  by rewrite iteratorQuery_loop_queue.
Qed.

Lemma race_steps_one (s : Race W) (a : Action) s' evs :
  race_step s a = Some (s', evs) -> race_steps s evs s'.
Proof.
  intros Hstep. exact (race_steps_snoc a (race_steps_refl s) Hstep).
Qed.

Lemma race_steps_app (s s1 s2 : Race W) tr tr' :
  race_steps s tr s1 -> race_steps s1 tr' s2 -> race_steps s (tr ++ tr') s2.
Proof.
  intros H1 H2. induction H2 as [s1|s1 tr' s2 a s3 evs _ IH Hstep].
  - by rewrite app_nil_r.
  - rewrite app_assoc. eapply race_steps_snoc; [by apply IH|exact Hstep].
Qed.

(** A step of the pool with atomic workers is a step of the racing pool,
    or two of them: a worker that takes a query and serves it at once. *)
Lemma step_racing (s : Sys W) (a : Action) s' evs :
  step s a = Some (s', evs) -> race_steps (racing s) evs (racing s').
Proof.
  intros Hstep.
  assert (Hone : match a with AWorker _ | AAck _ _ => False | _ => True end ->
                 race_steps (racing s) evs (racing s')).
  { intros Ha. destruct (step_callers_view s a s' evs Ha Hstep) as [Hv Hws].
    apply (race_steps_one _ a).
    destruct a; try done; cbn [race_step]; rewrite Hv;
      unfold from_view, racing;
      cbn [sys_bus sys_store sys_callers race_workers]; by rewrite Hws. }
  step_cases Hstep; try (by apply Hone); clear Hone.
  - pose proof (iteratorWorker_body_queue (sys_bus s) q penQry
                  (sys_store s)) as Hbq.
    rewrite Hbody in Hbq.
    assert (Hi : map racing_pc (sys_workers s) !! wi = Some RRecv)
      by by rewrite list_lookup_fmap, Hlk.
    change tr1 with ([] ++ tr1).
    eapply race_steps_app.
    + apply (race_steps_one _ (AWorker wi)).
      cbn [race_step racing race_workers]. rewrite Hi.
      cbn [race_worker_step racing race_bus]. rewrite Hqueue. reflexivity.
    + apply (race_steps_one _ (AWorker wi)).
      cbn [race_step race_workers].
      rewrite list_lookup_insert_eq
        by (apply lookup_lt_Some in Hi; exact Hi).
      cbn [race_worker_step racing race_bus race_store race_workers
           race_callers].
      rewrite Hbq, list_insert_insert_eq, list_insert_id by done.
      reflexivity.
  - apply (race_steps_one _ (AWorker wi)).
    cbn [race_step racing race_workers].
    rewrite list_lookup_fmap, Hlk. cbn [fmap option_fmap option_map].
    cbn [race_worker_step racing racing_pc race_bus]. rewrite Hqueue.
    unfold racing. cbn. by rewrite list_fmap_insert.
  - apply (race_steps_one _ (AAck ta wi)).
    cbn [race_step racing race_workers race_callers].
    rewrite Hlk, list_lookup_fmap, Hlkw. cbn.
    unfold racing. cbn. by rewrite list_fmap_insert.
Qed.

(** Every run of the pool with atomic workers is a run of the racing
    pool. *)
Lemma steps_racing (s0 : Sys W) tr s :
  steps s0 tr s -> race_steps (racing s0) tr (racing s).
Proof.
  induction 1 as [s|s tr s1 a s2 evs _ IH Hstep]; [constructor|].
  eapply race_steps_app; [exact IH|]. by eapply step_racing.
Qed.

(** X8. However the workers race, each taking a query off the queue in
    one step and serving it in a later one, no iterator result is closed
    twice.  A result that is closed belongs to a query that was in flight
    at the start, on the queue or held by a worker, or that was accepted
    during the run, and its query is no longer in flight.  The order of
    the queue is not the order in which the results are closed. *)
Theorem results_closed_once_however_workers_race (s0 : Race W)
    (tr : list Event) (s : Race W) :
  race_wf s0 ->
  race_steps s0 tr s ->
  exists k,
    length (iters (race_store s)) = length (iters (race_store s0)) + k
    /\ closes tr ++ in_flight s
       ⊆+ in_flight s0 ++ seq (length (iters (race_store s0))) k
    /\ NoDup (closes tr)
    /\ (forall h, h ∈ closes tr ->
          (h ∉ in_flight s)
          /\ (h ∈ in_flight s0
              \/ length (iters (race_store s0)) <= h
                 < length (iters (race_store s))))
    /\ race_wf s.
Proof.
  intros [Hnd Hlive] Hsteps.
  destruct (race_steps_in_flight _ _ _ Hsteps) as (k & Hl & Hin).
  assert (Hall : NoDup (in_flight s0
                        ++ seq (length (iters (race_store s0))) k)).
  { apply NoDup_app. split; [done|]. split; [|apply NoDup_seq].
    intros h Hh Hs. apply elem_of_seq in Hs.
    rewrite Forall_forall in Hlive. specialize (Hlive _ Hh). lia. }
  pose proof (submseteq_NoDup _ _ Hin Hall) as Hnow.
  apply NoDup_app in Hnow as (Hc & Hdis & Hfl).
  exists k. split; [done|]. split; [done|]. split; [done|]. split.
  - intros h Hh. split; [by apply Hdis|].
    assert (Hsrc : h ∈ in_flight s0
                       ++ seq (length (iters (race_store s0))) k).
    { eapply elem_of_submseteq; [|exact Hin]. apply elem_of_app. by left. }
    apply elem_of_app in Hsrc as [Hsrc|Hsrc]; [by left|].
    apply elem_of_seq in Hsrc. right. lia.
  - split; [done|]. apply Forall_forall. intros h Hh.
    assert (Hsrc : h ∈ in_flight s0
                       ++ seq (length (iters (race_store s0))) k).
    { eapply elem_of_submseteq; [|exact Hin]. apply elem_of_app. by right. }
    apply elem_of_app in Hsrc as [Hsrc|Hsrc].
    + rewrite Forall_forall in Hlive. specialize (Hlive _ Hsrc). lia.
    + apply elem_of_seq in Hsrc. lia.
Qed.

(** ** The queue during the drain *)

Lemma countb_split {A} (f g h : A -> bool) (l : list A) :
  (forall x, (if f x then 1 else 0) + (if g x then 1 else 0)
             = if h x then 1 else 0) ->
  countb f l + countb g l = countb h l.
Proof.
  intros H. induction l as [|x l IH]; cbn; [lia|]. specialize (H x). lia.
Qed.

Lemma drain_inv_init (s : Sys W) :
  quiescent s ->
  Forall is_Some (iteratorQueryQueue (sys_bus s)) ->
  drain_inv [] s.
Proof.
  intros [Hsd Hi Hc Hw Hn Hb] Hq.
  assert (Hsend : countb is_WSend (sys_workers s) = 0).
  { apply countb_zero. eapply Forall_impl; [exact Hw|].
    by intros pc [-> | ->]. }
  assert (Hrecv : countb is_SRecv (sys_callers s) = 0).
  { pose proof (countb_le is_SRecv is_crit (sys_callers s)) as H.
    assert (countb is_SRecv (sys_callers s) <= countb is_crit (sys_callers s))
      by (apply H; by intros []).
    lia. }
  assert (Hwait : countb is_waiting (sys_callers s) = 0).
  { pose proof (countb_le is_waiting is_crit (sys_callers s)) as H.
    assert (countb is_waiting (sys_callers s)
            <= countb is_crit (sys_callers s))
      by (apply H; by intros []).
    lia. }
  constructor.
  - exists (iteratorQueryQueue (sys_bus s)), 0. cbn. rewrite app_nil_r.
    repeat split; try done; lia.
  - lia.
  - cbn. lia.
Qed.

Ltac drain_split :=
  constructor;
  cbn [sys_bus sys_store sys_workers sys_callers with_bus with_store
       with_worker with_caller iteratorQueryQueue set_shuttingDown
       set_initialized set_iteratorWorkers set_iteratorQueryQueue];
  rewrite ?countb_app;
  cbn [countb is_ack is_sentinel is_teardown is_reset_initialized
       is_reset_shuttingDown map];
  unfold live in *.

Ltac waiting_facts Hlk new :=
  let H1 := fresh "Hw" in let H2 := fresh "Hw" in
  pose proof (countb_insert is_waiting _ _ _ new Hlk) as H1;
  pose proof (countb_lookup is_waiting _ _ _ Hlk) as H2;
  cbn in H1, H2.

Lemma drain_inv_step n0 tr (s : Sys W) (a : Action) s' evs :
  pool_inv n0 tr s ->
  drain_inv tr s ->
  step s a = Some (s', evs) ->
  drain_inv (tr ++ evs) s'.
Proof.
  intros Hinv [(somes & k & Hq & Hsm & Hk & He) Hwait Hcl] Hstep.
  pose proof Hinv as [Isd Iex Iinit Icnt Iacks Ibound Idown Isent Itpc Itev
                        Ireset Iord].
  assert (Hwc : countb is_waiting (sys_callers s)
                <= countb is_crit (sys_callers s))
    by (apply countb_le; by intros []).
  assert (Hrc : countb is_SRecv (sys_callers s)
                <= countb is_waiting (sys_callers s))
    by (apply countb_le; by intros []).
  assert (Hsl : countb is_WSend (sys_workers s)
                <= countb is_live (sys_workers s))
    by (apply countb_le; by intros []).
  unfold live in *.
  step_cases Hstep.
  - (* the compare-and-swap of Shutdown *)
    destruct sw.
    + callers_facts Hlk (@SLoop W). waiting_facts Hlk (@SLoop W).
      drain_split; [|lia..].
      exists somes, k. split; [done|]. split; [done|]. split; [lia|].
      intros H. apply He. lia.
    + callers_facts Hlk (@SReturn W false).
      waiting_facts Hlk (@SReturn W false).
      drain_split; [|lia..].
      exists somes, k. split; [done|]. split; [done|]. split; [lia|].
      intros H. apply He. lia.
  - (* the head of the loop, a worker left *)
    callers_facts Hlk (@SSend W). waiting_facts Hlk (@SSend W).
    pose proof (countb_insert is_crit _ _ _ (@SCall W) Hlk) as Hx1.
    pose proof (countb_insert is_SDown _ _ _ (@SCall W) Hlk) as Hx2.
    pose proof (countb_le is_SDown is_crit (<[ta := SCall]> (sys_callers s)))
      as Hx3.
    cbn in Hx1, Hx2. apply Z.ltb_lt in Hpos.
    assert (countb is_SDown (<[ta := SCall]> (sys_callers s))
            <= countb is_crit (<[ta := SCall]> (sys_callers s)))
      by (apply Hx3; by intros []).
    drain_split; [|lia..].
    exists somes, k. split; [done|]. split; [done|]. split; [lia|].
    intros H'. apply He. lia.
  - (* the head of the loop, no worker left *)
    callers_facts Hlk (SAdapters (cacheAdapters (sys_bus s))).
    waiting_facts Hlk (SAdapters (cacheAdapters (sys_bus s))).
    drain_split; [|lia..].
    exists somes, k. split; [done|]. split; [done|]. split; [lia|].
    intros H. apply He. lia.
  - (* the sentinel is pushed *)
    callers_facts Hlk (@SRecv W). waiting_facts Hlk (@SRecv W).
    drain_split; [|lia..].
    exists somes, (S k). split; [|split; [done|split; [lia|]]].
    + rewrite Hq, <- app_assoc. f_equal.
      by rewrite replicate_S_end.
    + intros H. apply He. lia.
  - (* the count goes down *)
    callers_facts Hlk (@SLoop W). waiting_facts Hlk (@SLoop W).
    drain_split; [|lia..].
    exists somes, k. split; [done|]. split; [done|]. split; [lia|].
    intros H. apply He. lia.
  - (* initialized is reset *)
    callers_facts Hlk (@SResetShut W). waiting_facts Hlk (@SResetShut W).
    drain_split; [|lia..].
    exists somes, k. split; [done|]. split; [done|]. split; [lia|].
    intros H. apply He. lia.
  - (* an adapter is shut down *)
    callers_facts Hlk (SAdapters rest). waiting_facts Hlk (SAdapters rest).
    drain_split; [|lia..].
    exists somes, k. split; [done|]. split; [done|]. split; [lia|].
    intros H. apply He. lia.
  - (* shuttingDown is reset *)
    callers_facts Hlk (@SReturn W true). waiting_facts Hlk (@SReturn W true).
    drain_split; [|lia..].
    exists somes, k. split; [done|]. split; [done|]. split; [lia|].
    intros H. apply He. lia.
  - (* a worker serves a pending query *)
    pose proof (iteratorWorker_body_service (sys_bus s) penQry (sys_store s))
      as Hsv.
    rewrite Hbody in Hsv. cbn in Hsv. service_counts Hsv.
    destruct somes as [|x somes'].
    { destruct k; discriminate. }
    injection Hq as <- ->. apply Forall_cons in Hsm as [_ Hsm].
    drain_split; [|lia..].
    exists somes', k. split; [done|]. split; [done|]. split; [lia|].
    intros H. exfalso. assert (Hnil : Some penQry :: somes' = []);
      [apply He; lia | discriminate].
  - (* a worker takes a sentinel *)
    destruct somes as [|x somes'].
    2:{ injection Hq as <- _. apply Forall_cons in Hsm as [[? [=]] _]. }
    destruct k as [|k']; [discriminate|].
    cbn in Hq. injection Hq as ->.
    pose proof (countb_insert is_WSend _ _ _ WSend Hlk) as Hi1.
    pose proof (countb_insert is_live _ _ _ WSend Hlk) as Hi2.
    cbn in Hi1, Hi2.
    drain_split; [|lia..].
    exists [], k'. split; [done|]. split; [done|]. split; [lia|done].
  - (* the acknowledgement *)
    callers_facts Hlk (@SDown W). waiting_facts Hlk (@SDown W).
    pose proof (countb_insert is_WSend _ _ _ WExit Hlkw) as Hi1.
    pose proof (countb_insert is_live _ _ _ WExit Hlkw) as Hi2.
    pose proof (countb_lookup is_WSend _ _ _ Hlkw) as Hi3.
    cbn in Hi1, Hi2, Hi3.
    drain_split; [|lia..].
    exists somes, k. split; [done|]. split; [done|]. split; [lia|].
    intros _. apply He. lia.
  - (* a consumer attaches *)
    drain_split; [|lia..].
    exists somes, k. split; [done|]. split; [done|]. split; [lia|].
    intros H. apply He. lia.
  - (* a query is turned away *)
    pose proof (isIteratorValid_service (sys_bus s) qctx qq (sys_store s))
      as Hsv.
    rewrite Hvalid in Hsv. cbn in Hsv. service_counts Hsv.
    drain_split; [|lia..].
    exists somes, k. split; [done|]. split; [done|]. split; [lia|].
    intros H. apply He. lia.
  - (* a query is accepted *)
    apply isIteratorValid_accepts in Hvalid as (_ & Hi & Hs & -> & ->).
    assert (Hcrit : countb is_crit (sys_callers s) = 0) by lia.
    assert (Hacks : countb is_ack tr = 0).
    { destruct (countb is_ack tr) eqn:Ha; [done|]. exfalso.
      assert (Hr : 0 < countb is_reset_initialized tr) by lia.
      apply Ireset in Hr. lia. }
    assert (Hk0 : k = 0) by lia. subst k.
    drain_split; [|lia..].
    exists (somes ++ [Some {| pen_ctx := qctx; pen_qry := qq;
                             pen_res := length (iters (sys_store s)) |}]), 0.
    split; [|split; [|split; [lia|intros; lia]]].
    + rewrite Hq. cbn. by rewrite !app_nil_r.
    + apply Forall_app. split; [done|]. by repeat constructor.
Qed.

Lemma drain_inv_steps (s0 : Sys W) tr s :
  quiescent s0 ->
  Forall is_Some (iteratorQueryQueue (sys_bus s0)) ->
  steps s0 tr s ->
  drain_inv tr s.
Proof.
  intros Hq Hitems Hsteps.
  induction Hsteps as [s|s tr s1 a s2 evs Hsteps IH Hstep].
  - by apply drain_inv_init.
  - eapply drain_inv_step; [|by apply IH|exact Hstep].
    by apply pool_inv_steps.
Qed.

(** X9. A [Shutdown] is graceful towards the queries already on the
    queue: in every run from a state with at least one live worker and no
    drain under way, by the time a cache adapter is shut down or a flag
    is reset, every query that was pending at the start has been taken
    off the queue by a worker, and no sentinel is left on it. *)
Theorem pending_queries_leave_before_teardown (s0 : Sys W)
    (tr : list Event) (s : Sys W) :
  quiescent s0 ->
  Forall is_Some (iteratorQueryQueue (sys_bus s0)) ->
  0 < live (sys_workers s0) ->
  steps s0 tr s ->
  0 < countb is_teardown tr ->
  (None ∉ iteratorQueryQueue (sys_bus s))
  /\ forall penQry,
       Some penQry ∈ iteratorQueryQueue (sys_bus s0) ->
       Some penQry ∉ iteratorQueryQueue (sys_bus s).
Proof.
  intros Hq Hitems Hlive Hsteps Htear.
  pose proof (pool_inv_steps s0 tr s Hq Hsteps) as
    [Isd Iex Iinit Icnt Iacks Ibound Idown Isent Itpc Itev Ireset Iord].
  destruct (drain_inv_steps s0 tr s Hq Hitems Hsteps)
    as [(somes & k & Hqueue & Hsm & Hk & He) Hwait Hcl].
  specialize (Itev Htear). unfold live in *.
  assert (Hsl : countb is_WSend (sys_workers s)
                <= countb is_live (sys_workers s))
    by (apply countb_le; by intros []).
  assert (Hrc : countb is_SRecv (sys_callers s)
                <= countb is_waiting (sys_callers s))
    by (apply countb_le; by intros []).
  assert (Hempty : iteratorQueryQueue (sys_bus s) = []).
  { rewrite Hqueue, He by lia.
    assert (k = 0) as -> by lia. done. }
  rewrite Hempty. split; [apply not_elem_of_nil|].
  intros penQry _. apply not_elem_of_nil.
Qed.

(** ** What the pool never calls *)

Lemma step_no_cache (s : Sys W) (a : Action) s' evs :
  step s a = Some (s', evs) ->
  countb is_cache_read evs = 0
  /\ countb is_cache_write evs = 0
  /\ countb is_handle evs = 0.
Proof.
  intros Hstep.
  assert (Hsv : forall tr1,
            Forall (fun ev => is_service ev = true) tr1 ->
            countb is_cache_read tr1 = 0
            /\ countb is_cache_write tr1 = 0
            /\ countb is_handle tr1 = 0).
  { intros tr1 H. repeat split; apply service_countb; try done; by intros []. }
  step_cases Hstep; try (by cbn).
  - apply Hsv.
    pose proof (iteratorWorker_body_service (sys_bus s) penQry (sys_store s))
      as H.
    by rewrite Hbody in H.
  - apply Hsv.
    pose proof (isIteratorValid_service (sys_bus s) qctx qq (sys_store s))
      as H.
    by rewrite Hvalid in H.
  - apply Hsv.
    pose proof (isIteratorValid_service (sys_bus s) qctx qq (sys_store s))
      as H.
    by rewrite Hvalid in H.
Qed.

(** X10. Iterator queries are not cached: along every run of the pool,
    whatever the workers, the [Shutdown] callers and the callers of
    [IteratorQuery] do, no cache adapter is asked for a result or given
    one, and no handler of the synchronous chain is called. *)
Theorem iterator_queries_are_not_cached (s0 : Sys W) tr s :
  steps s0 tr s ->
  countb is_cache_read tr = 0
  /\ countb is_cache_write tr = 0
  /\ countb is_handle tr = 0.
Proof.
  induction 1 as [s|s tr s1 a s2 evs _ (IH1 & IH2 & IH3) Hstep]; [done|].
  destruct (step_no_cache _ _ _ _ Hstep) as (H1 & H2 & H3).
  rewrite !countb_app. lia.
Qed.

(** ** Acceptance of a streaming query *)

(** X14. [IteratorQuery] hands out a result exactly when the query is
    not nil, the bus is initialized and not shutting down, and the queue
    takes the item.  It then returns a nil error and calls no error
    handler; the result is new, open, without a listener, with the
    configured buffer, and sits at the end of the store; the query goes to
    the back of the queue; nothing else changes. *)
Theorem IteratorQuery_accepts (s : Sys W) ctx qry (h : nat)
    (e : option Err) s1 tr :
  Bus_IteratorQuery s ctx qry = Some (Some h, e, s1, tr)
  <-> is_Some qry
      /\ initialized (sys_bus s) = 1%Z
      /\ shuttingDown (sys_bus s) <> 1%Z
      /\ can_send (sys_bus s) (sys_workers s) = true
      /\ h = length (iters (sys_store s))
      /\ e = None
      /\ tr = []
      /\ s1 = with_store
                {| world := world (sys_store s);
                   iters := iters (sys_store s)
                            ++ [newIteratorResult
                                  (iteratorResultBuffer (sys_bus s))] |}
                (with_bus
                   (set_iteratorQueryQueue
                      (iteratorQueryQueue (sys_bus s)
                       ++ [Some {| pen_ctx := ctx; pen_qry := qry;
                                   pen_res := h |}])
                      (sys_bus s)) s).
Proof.
  unfold Bus_IteratorQuery. split.
  - destruct (isIteratorValid (sys_bus s) ctx qry (sys_store s))
      as [[[err|] st1] tr1] eqn:Hv; [discriminate|].
    apply isIteratorValid_accepts in Hv as (Hq & Hi & Hs & -> & ->).
    destruct (can_send _ _); [|discriminate].
    intros [= <- <- <- <-]. by repeat split.
  - intros (Hq & Hi & Hs & Hc & -> & -> & -> & ->).
    destruct Hq as [q ->].
    assert (Hv : isIteratorValid (sys_bus s) ctx (Some q) (sys_store s)
                 = (None, sys_store s, [])).
    { unfold isIteratorValid, bind, isValid, ret, isInitialized,
        isShuttingDown.
      rewrite Hi. by destruct (Z.eqb_spec (shuttingDown (sys_bus s)) 1). }
    by rewrite Hv, Hc.
Qed.

(** ** The worker count never wraps *)

(** X15. Along every run from a state with no drain under way, the
    worker count stays between zero and the number of workers live at the
    start: it is the number of live workers plus the [Shutdown] callers
    about to decrement it, so [iteratorWorkerDown] is only ever applied to
    a positive count and the count never wraps around. *)
Theorem worker_count_never_wraps (s0 : Sys W)
    (tr : list Event) (s : Sys W) :
  quiescent s0 ->
  steps s0 tr s ->
  iteratorWorkers (sys_bus s)
  = Z.of_nat (live (sys_workers s) + countb is_SDown (sys_callers s))
  /\ (0 <= iteratorWorkers (sys_bus s)
      <= Z.of_nat (live (sys_workers s0)))%Z
  /\ (iteratorWorkers (sys_bus s) < uint32_modulus)%Z
  /\ forall t,
       sys_callers s !! t = Some SDown ->
       (0 < iteratorWorkers (sys_bus s))%Z
       /\ step s (ACaller t)
          = Some (with_caller t SLoop
                    (with_bus (set_iteratorWorkers
                                 (iteratorWorkers (sys_bus s) - 1)
                                 (sys_bus s)) s), []).
Proof.
  intros Hq Hsteps.
  pose proof (pool_inv_steps s0 tr s Hq Hsteps) as
    [Isd Iex Iinit Icnt Iacks Ibound Idown Isent Itpc Itev Ireset Iord].
  split; [exact Icnt|]. split; [lia|]. split; [lia|].
  intros t Ht.
  pose proof (countb_lookup is_SDown _ _ _ Ht) as Hd. cbn in Hd.
  split; [lia|]. apply step_down; [done|lia].
Qed.

End Properties.

(** * The scenarios, checked *)

Import Scenario.

Lemma sysReady_initialized :
  InitializeIteratorHandlers (boot busPool 5) [stoppingIteratorHandler 0]
  = Some sysReady.
Proof. reflexivity. Qed.

Lemma sysPending_enqueued :
  Bus_IteratorQuery sysReady "ctx" qUUID = Some (Some 0, None, sysPending, []).
Proof. reflexivity. Qed.

Lemma sysListening_attached : step sysPending (AAttach 0) = Some (sysListening, []).
Proof. reflexivity. Qed.

Lemma quiescent_sysReady : quiescent sysReady.
Proof.
  constructor; cbn; try done.
  - by right.
  - repeat constructor; by left.
Defined.

Lemma handles_wf_sysPending : handles_wf sysPending.
Proof.
  split; cbn.
  - apply NoDup_singleton.
  - repeat constructor.
Defined.

(** The read path on a miss followed by a hit, where the third adapter
    is not asked, and on two misses, where the handler answers. *)
Lemma Query_cache_read_path_witness :
  asCacheable qCache = Some cCache
  /\ probe "ctx" qCache (cacheAdapters busHit) (world store0)
           [1; 2] 5 (Some barResult)
  /\ Bus_Query clock busHit "ctx" qCache store0
     = (Some (loadedFromCache barResult), None, store0,
        [EvGet 1 qCache; EvGet 2 qCache])
  /\ probe "ctx" qCache (cacheAdapters busTwoAdapters) (world store0)
           [1; 2] 5 None
  /\ chain hdl_id (fun hdl w r => hdl_Handle hdl w "ctx" qCache r)
           propagationStopped (handlers busTwoAdapters) 5
           (newCacheableResult cCache) [0] Exhausted 6 barResult
  /\ Bus_Query clock busTwoAdapters "ctx" qCache store0
     = (Some (cached (expires barResult 7000000000%Z) 6000000000%Z), None,
        {| world := 6; iters := [] |},
        [EvGet 1 qCache; EvGet 2 qCache; EvHandle 0 qCache; EvSet 1 qCache]).
Proof.
  assert (Hp : probe "ctx" qCache (cacheAdapters busHit) (world store0)
                     [1; 2] 5 (Some barResult)).
  { eapply probe_miss; [reflexivity|]. by apply probe_hit. }
  assert (Hm : probe "ctx" qCache (cacheAdapters busTwoAdapters)
                     (world store0) [1; 2] 5 None).
  { eapply probe_miss; [reflexivity|].
    eapply probe_miss; [reflexivity|]. apply probe_none. }
  assert (Hch : chain hdl_id
                  (fun hdl w r => hdl_Handle hdl w "ctx" qCache r)
                  propagationStopped (handlers busTwoAdapters) 5
                  (newCacheableResult cCache) [0] Exhausted 6 barResult).
  { eapply chain_next; [reflexivity | reflexivity | apply chain_exhausted]. }
  split; [reflexivity|]. split; [exact Hp|]. split.
  { exact (proj1 (proj2 (proj2 (Query_cache_read_path nat clock busHit "ctx"
                                  qCache cCache store0 eq_refl)
                               [1; 2] 5 (Some barResult) Hp))). }
  split; [exact Hm|]. split; [exact Hch|].
  exact (proj1 (proj2 (proj2
           (proj2 (proj2 (proj2 (proj2
              (proj2 (Query_cache_read_path nat clock busTwoAdapters "ctx"
                        qCache cCache store0 eq_refl)
                     [1; 2] 5 None Hm))))
              [0] Exhausted 6 barResult Hch)))).
Defined.

(** The write-back on two adapters that both accept: after the handler
    answered the query, and on its own. *)
Lemma handleCache_write_back_witness :
  asCacheable qCache = Some cCache
  /\ (0 < CacheDuration cCache)%Z
  /\ chain hdl_id (fun hdl w r => hdl_Handle hdl w "ctx" qCache r)
           propagationStopped (handlers busTwoAdapters) (world store0)
           newResult [0] Exhausted 6 barResult
  /\ query clock busTwoAdapters "ctx" qCache newResult store0
     = (cached (expires barResult 7000000000%Z) 6000000000%Z, None,
        {| world := 6; iters := [] |},
        [EvHandle 0 qCache; EvSet 1 qCache])
  /\ offer "ctx" qCache (expires barResult 6000000000%Z)
           (cacheAdapters busTwoAdapters) (world store0) [1] 5 true
  /\ handleCache clock busTwoAdapters "ctx" qCache barResult store0
     = (cached (expires barResult 6000000000%Z) 5000000000%Z, store0,
        [EvSet 1 qCache]).
Proof.
  assert (Hch : chain hdl_id
                  (fun hdl w r => hdl_Handle hdl w "ctx" qCache r)
                  propagationStopped (handlers busTwoAdapters) (world store0)
                  newResult [0] Exhausted 6 barResult).
  { eapply chain_next; [reflexivity | reflexivity | apply chain_exhausted]. }
  assert (Hof : offer "ctx" qCache (expires barResult 6000000000%Z)
                  (cacheAdapters busTwoAdapters) (world store0) [1] 5 true).
  { by apply offer_accepted. }
  split; [reflexivity|]. split; [reflexivity|]. split; [exact Hch|].
  split; [|split; [exact Hof|]].
  - exact (proj1 (handleCache_write_back nat clock busTwoAdapters "ctx" qCache
                    cCache eq_refl eq_refl)
                 newResult store0 [0] Exhausted 6 barResult
                 Hch eq_refl eq_refl).
  - exact (proj1 (proj2 (proj2
             (proj2 (proj2 (handleCache_write_back nat clock busTwoAdapters
                              "ctx" qCache cCache eq_refl eq_refl)
                           barResult store0)
                    [1] 5 true Hof)))).
Defined.

(** The specification's wording fails there: the second adapter accepts too, and
    is never offered the result. *)
Lemma write_back_stops_at_first_accept :
  asCacheable qCache = Some cCache
  /\ (0 < CacheDuration cCache)%Z
  /\ emptyAdapter 2 true ∈ cacheAdapters busTwoAdapters
  /\ (adp_Set (emptyAdapter 2 true) 5 "ctx" qCache barResult).2 = true
  /\ handleCache clock busTwoAdapters "ctx" qCache barResult store0
     = (cached (expires barResult 6000000000%Z) 5000000000%Z, store0,
        [EvSet 1 qCache])
  /\ ~ Set_on_every_adapter clock busTwoAdapters "ctx" qCache barResult store0.
Proof.
  split; [reflexivity|]. split; [reflexivity|].
  split; [cbn; by right; left|]. split; [reflexivity|].
  split; [reflexivity|].
  intros H. specialize (H (emptyAdapter 2 true)).
  assert (Hin : emptyAdapter 2 true ∈ cacheAdapters busTwoAdapters)
    by (cbn; by right; left).
  apply H in Hin. cbn in Hin.
  apply list_elem_of_singleton in Hin. discriminate.
Qed.

(** A failing handler: the caller gets the result and the error. *)
Lemma Query_failure_results_witness :
  Bus_Query clock busFailing "ctx" qUUID store0
  = (Some newResult, Some (HandlerError "query failed"), store0,
     [EvHandle 0 qUUID; EvError 0 qUUID (HandlerError "query failed")])
  /\ is_Some (Some newResult)
  /\ exists tr0,
       [EvHandle 0 qUUID; EvError 0 qUUID (HandlerError "query failed")]
       = tr0 ++ fanout_events busFailing qUUID (HandlerError "query failed").
Proof.
  split; [reflexivity|].
  exact (proj2 (Query_failure_results nat clock busFailing "ctx" store0)
           {| ID := "UUID"; cacheable := None |} (Some newResult)
           (HandlerError "query failed") store0 _ eq_refl).
Defined.

(** The specification's wording fails on a nil query: an error and no
    result. *)
Lemma nil_query_returns_no_result :
  Bus_Query clock busTwoAdapters "ctx" None store0
  = (None, Some InvalidQueryError, store0, [EvError 0 None InvalidQueryError])
  /\ ~ failure_comes_with_result clock busTwoAdapters "ctx" None store0.
Proof.
  split; [reflexivity|].
  unfold failure_comes_with_result. cbn. intros H.
  destruct (H (ex_intro _ InvalidQueryError eq_refl)) as [r Hr].
  discriminate.
Qed.


(** A worker on a pending query nobody listens to, and on a query whose
    consumer has attached: the handler is invoked, then the handle is
    closed. *)
Lemma worker_waits_for_listener_witness :
  sys_workers sysPending !! 0 = Some WRecv
  /\ iteratorQueryQueue (sys_bus sysPending) = [Some (penUUID 0)]
  /\ pen_res (penUUID 0) < length (iters (sys_store sysPending))
  /\ (step sysPending (AWorker 0)
      = Some (with_store
                {| world := fanout_world (sys_bus sysPending) "ctx" qUUID
                              (NewErrorQueryTimedOut qUUID) 5;
                   iters := [newIteratorResult 0] |}
                (with_bus (set_iteratorQueryQueue [] (sys_bus sysPending))
                          sysPending),
              fanout_events (sys_bus sysPending) qUUID
                            (NewErrorQueryTimedOut qUUID))
      /\ forall hdl qry r,
           EvIteratorHandle hdl qry r
             ∉ fanout_events (sys_bus sysPending) qUUID
                             (NewErrorQueryTimedOut qUUID))
  /\ sys_workers sysServing !! 0 = Some WRecv
  /\ iteratorQueryQueue (sys_bus sysServing) = [Some (penUUID 0)]
  /\ pen_res (penUUID 0) < length (iters (sys_store sysServing))
  /\ chain ihdl_id (fun hdl w r => ihdl_Handle hdl w "ctx" qUUID r)
           it_stopPropagation
           (iteratorHandlers (sys_bus sysServing))
           (world (sys_store sysServing))
           (iters (sys_store sysServing) !!! 0)
           [0] Stopped 5
           (IteratorResult_Done
              (IteratorResult_Yield "bar"
                 (attach_result (newIteratorResult 0))))
  /\ step sysServing (AWorker 0)
     = Some (with_store
               {| world := 5;
                  iters := [close_result
                              (IteratorResult_Done
                                 (IteratorResult_Yield "bar"
                                    (attach_result (newIteratorResult 0))))] |}
               (with_bus (set_iteratorQueryQueue [] (sys_bus sysServing))
                         sysServing),
             [EvIteratorHandle 0 qUUID 0; EvClose 0]).
Proof.
  assert (Hlt : pen_res (penUUID 0) < length (iters (sys_store sysPending)))
    by (cbn; lia).
  assert (Hls : pen_res (penUUID 0) < length (iters (sys_store sysServing)))
    by (cbn; lia).
  assert (Hch : chain ihdl_id
                  (fun hdl w r => ihdl_Handle hdl w "ctx" qUUID r)
                  it_stopPropagation
                  (iteratorHandlers (sys_bus sysServing))
                  (world (sys_store sysServing))
                  (iters (sys_store sysServing) !!! 0)
                  [0] Stopped 5
                  (IteratorResult_Done
                     (IteratorResult_Yield "bar"
                        (attach_result (newIteratorResult 0))))).
  { by eapply chain_stopped. }
  split; [reflexivity|]. split; [reflexivity|]. split; [exact Hlt|]. split.
  { exact (worker_waits_for_listener nat sysPending 0 (penUUID 0) []
             eq_refl eq_refl Hlt). }
  split; [reflexivity|]. split; [reflexivity|]. split; [exact Hls|].
  split; [exact Hch|].
  exact (proj1 (proj2 (proj2 (proj2
           (proj2 (worker_waits_for_listener nat sysServing 0 (penUUID 0) []
                     eq_refl eq_refl Hls)
                  _ _ _ _ Hch))))).
Defined.

(** The abandoned query of the pending pool. *)
Lemma abandoned_request_never_closed_witness :
  handles_wf sysPending
  /\ sys_workers sysPending !! 0 = Some WRecv
  /\ iteratorQueryQueue (sys_bus sysPending) = [Some (penUUID 0)]
  /\ listening (iters (sys_store sysPending) !!! pen_res (penUUID 0)) = false
  /\ exists s1 tr1,
       step sysPending (AWorker 0) = Some (s1, tr1)
       /\ iters (sys_store s1) = iters (sys_store sysPending)
       /\ (EvClose (pen_res (penUUID 0)) ∉ tr1)
       /\ forall tr2 s2,
            steps s1 tr2 s2 ->
            (EvClose (pen_res (penUUID 0)) ∉ tr2)
            /\ it_closed (iters (sys_store s2) !!! pen_res (penUUID 0))
               = it_closed (iters (sys_store sysPending)
                            !!! pen_res (penUUID 0)).
Proof.
  split; [exact handles_wf_sysPending|].
  split; [reflexivity|]. split; [reflexivity|]. split; [reflexivity|].
  exact (abandoned_request_never_closed nat sysPending 0 (penUUID 0) []
           handles_wf_sysPending eq_refl eq_refl eq_refl).
Defined.

Lemma sysReady_queue : Forall is_Some (iteratorQueryQueue (sys_bus sysReady)).
Proof. constructor. Defined.

(** A bus fresh from [NewBus], and the pool after a full [Shutdown]. *)
Lemma IteratorQuery_validation_witness :
  initialized (sys_bus (boot busPool 5)) <> 1%Z
  /\ Bus_IteratorQuery (boot busPool 5) "ctx" qUUID
     = Some (None, Some BusNotInitializedError,
             with_store
               {| world := fanout_world busPool "ctx" qUUID
                             BusNotInitializedError 5;
                  iters := [] |} (boot busPool 5),
             fanout_events busPool qUUID BusNotInitializedError)
  /\ quiescent sysReady
  /\ Forall is_Some (iteratorQueryQueue (sys_bus sysReady))
  /\ exists s1 tr1,
       Bus_Shutdown sysReady = Some (s1, tr1)
       /\ forall q : QueryVal,
            (exists s2 tr2,
               Bus_IteratorQuery s1 "ctx" (Some q)
               = Some (None, Some BusNotInitializedError, s2, tr2))
            /\ forall hdls : list (IteratorHandler nat),
                 (0 <= iteratorQueueBuffer (sys_bus sysReady))%Z ->
                 (iteratorWorkerPoolSize (sys_bus sysReady) < uint32_modulus)%Z ->
                 exists s3,
                   InitializeIteratorHandlers s1 hdls = Some s3
                   /\ isIteratorValid (sys_bus s3) "ctx" (Some q) (sys_store s3)
                      = (None, sys_store s3, []).
Proof.
  assert (Hne : initialized (sys_bus (boot busPool 5)) <> 1%Z) by (cbn; lia).
  split; [exact Hne|]. split.
  - exact (proj1 (proj2 (IteratorQuery_validation nat (boot busPool 5) "ctx"))
             {| ID := "UUID"; cacheable := None |} Hne).
  - split; [exact quiescent_sysReady|]. split; [exact sysReady_queue|].
    exact (proj2 (proj2 (proj2 (proj2 (proj2
             (IteratorQuery_validation nat sysReady "ctx")))))
             quiescent_sysReady sysReady_queue).
Defined.

(** The specification's wording fails there: after a completed [Shutdown] the
    streaming query is refused as [NotInitialized]. *)
Lemma shutdown_leaves_bus_not_initialized :
  quiescent sysReady
  /\ (exists s1 tr1 s2 tr2,
        Bus_Shutdown sysReady = Some (s1, tr1)
        /\ initialized (sys_bus s1) = 0%Z
        /\ shuttingDown (sys_bus s1) = 0%Z
        /\ Bus_IteratorQuery s1 "ctx" qUUID
           = Some (None, Some BusNotInitializedError, s2, tr2))
  /\ ~ ShuttingDown_after_Shutdown sysReady "ctx" qUUID.
Proof.
  split; [exact quiescent_sysReady|].
  destruct (Bus_Shutdown sysReady) as [[s1 tr1]|] eqn:Hrun;
    [|vm_compute in Hrun; discriminate].
  assert (Hq : exists s2 tr2,
             Bus_IteratorQuery s1 "ctx" qUUID
             = Some (None, Some BusNotInitializedError, s2, tr2)
             /\ initialized (sys_bus s1) = 0%Z
             /\ shuttingDown (sys_bus s1) = 0%Z).
  { vm_compute in Hrun. injection Hrun as <- <-.
    eexists _, _. split; [vm_compute; reflexivity|]. split; reflexivity. }
  destruct Hq as (s2 & tr2 & Hq & Hi & Hs). split.
  - exists s1, tr1, s2, tr2. by repeat split.
  - intros H. destruct (H s1 tr1 Hrun) as (s3 & tr3 & Hq3).
    rewrite Hq in Hq3. discriminate.
Qed.

(** Two [Shutdown] calls in a row on the pool. *)
Lemma Shutdown_reentry_witness :
  quiescent sysReady
  /\ Forall is_Some (iteratorQueryQueue (sys_bus sysReady))
  /\ exists s1 tr1 s2,
       Bus_Shutdown sysReady = Some (s1, tr1)
       /\ Bus_Shutdown s1
          = Some (s2,
                  map (fun adp => EvAdapterShutdown (adp_id adp))
                      (cacheAdapters (sys_bus sysReady))
                  ++ [EvResetInitialized; EvResetShuttingDown])
       /\ sys_workers s2 = sys_workers s1
       /\ initialized (sys_bus s2) = 0%Z
       /\ shuttingDown (sys_bus s2) = 0%Z.
Proof.
  split; [exact quiescent_sysReady|]. split; [exact sysReady_queue|].
  exact (proj2 (proj2 (Shutdown_reentry nat sysReady))
           quiescent_sysReady sysReady_queue).
Defined.

(** The specification's wording fails there: the second call shuts the cache
    adapter down again. *)
Lemma second_Shutdown_shuts_adapters_again :
  quiescent sysReady
  /\ (exists s1 tr1 s2,
        Bus_Shutdown sysReady = Some (s1, tr1)
        /\ Bus_Shutdown s1
           = Some (s2, [EvAdapterShutdown 7; EvResetInitialized;
                        EvResetShuttingDown]))
  /\ ~ second_Shutdown_spares_adapters sysReady.
Proof.
  split; [exact quiescent_sysReady|].
  destruct (Bus_Shutdown sysReady) as [[s1 tr1]|] eqn:Hrun;
    [|vm_compute in Hrun; discriminate].
  assert (Hrun2 : exists s2,
             Bus_Shutdown s1
             = Some (s2, [EvAdapterShutdown 7; EvResetInitialized;
                          EvResetShuttingDown])).
  { vm_compute in Hrun. injection Hrun as <- <-.
    eexists. vm_compute. reflexivity. }
  destruct Hrun2 as [s2 Hrun2]. split.
  - by exists s1, tr1, s2.
  - intros H. apply (H s1 tr1 s2 _ Hrun Hrun2 7). left.
Qed.

(** The drain of the two workers of the pool, and the restart. *)
Lemma shutdown_drains_then_tears_down_witness :
  quiescent sysReady
  /\ (forall tr s a s' evs,
        steps sysReady tr s ->
        step s a = Some (s', evs) ->
        0 < countb is_teardown evs ->
        all_exited (sys_workers s)
        /\ iteratorWorkers (sys_bus s) = 0%Z
        /\ countb is_sentinel tr = live (sys_workers sysReady)
        /\ countb is_ack tr = live (sys_workers sysReady))
  /\ (Forall is_Some (iteratorQueryQueue (sys_bus sysReady)) ->
      exists s1 served,
        Bus_Shutdown sysReady
        = Some (s1,
                served
                ++ drain_events 0 (sys_workers sysReady)
                ++ map (fun adp => EvAdapterShutdown (adp_id adp))
                       (cacheAdapters (sys_bus sysReady))
                ++ [EvResetInitialized; EvResetShuttingDown])
        /\ Forall (fun ev => is_service ev = true) served
        /\ countb is_sentinel (drain_events 0 (sys_workers sysReady))
           = live (sys_workers sysReady)
        /\ countb is_ack (drain_events 0 (sys_workers sysReady))
           = live (sys_workers sysReady)
        /\ all_exited (sys_workers s1)
        /\ iteratorWorkers (sys_bus s1) = 0%Z
        /\ initialized (sys_bus s1) = 0%Z
        /\ shuttingDown (sys_bus s1) = 0%Z
        /\ forall hdls : list (IteratorHandler nat),
             (0 <= iteratorQueueBuffer (sys_bus sysReady))%Z ->
             (iteratorWorkerPoolSize (sys_bus sysReady) < uint32_modulus)%Z ->
             exists s2,
               InitializeIteratorHandlers s1 hdls = Some s2
               /\ quiescent s2
               /\ initialized (sys_bus s2) = 1%Z
               /\ iteratorQueryQueue (sys_bus s2) = []
               /\ live (sys_workers s2)
                  = Z.to_nat (iteratorWorkerPoolSize (sys_bus sysReady))
               /\ iteratorWorkers (sys_bus s2)
                  = Z.of_nat
                      (Z.to_nat (iteratorWorkerPoolSize (sys_bus sysReady)))).
Proof.
  split; [exact quiescent_sysReady|].
  exact (shutdown_drains_then_tears_down nat sysReady quiescent_sysReady).
Defined.

(** The drain on the pool, event by event. *)
Example shutdown_of_the_pool :
  snd <$> Bus_Shutdown sysReady
  = Some [EvSentinel; EvClosed 0; EvSentinel; EvClosed 1;
          EvAdapterShutdown 7; EvResetInitialized; EvResetShuttingDown].
Proof. reflexivity. Qed.

(** * The test support *)

(** X11. [storeErrorsHandler] keeps the last error per key: after
    [Handle(ctx, qry, err)], [Error(qry')] is [err] when [qry'] has the key
    of [qry] and what it was before otherwise; nothing is stored at first.
    Two queries share a key when both are nil, when they have the same
    ID, or when one is nil and the ID of the other is the string "nil". *)
Theorem storeErrorsHandler_round_trip (hdl : storeErrorsHandler)
    (ctx : Ctx) (qry qry' : Query) (err : option Err) :
  storeErrorsHandler_Error (storeErrorsHandler_Handle hdl ctx qry err) qry'
  = (if decide (storeErrorsHandler_key qry = storeErrorsHandler_key qry')
     then err
     else storeErrorsHandler_Error hdl qry')
  /\ storeErrorsHandler_Error ∅ qry = None
  /\ (storeErrorsHandler_key qry = storeErrorsHandler_key qry'
      <-> match qry, qry' with
          | None, None => True
          | Some q, Some q' => ID q = ID q'
          | Some q, None | None, Some q => ID q = "nil"
          end).
Proof.
  split; [|split].
  - unfold storeErrorsHandler_Error, storeErrorsHandler_Handle,
      storeErrorsHandler.
    destruct (decide _) as [Heq|Hne].
    + by rewrite <- Heq, lookup_insert_eq.
    + by rewrite lookup_insert_ne.
  - unfold storeErrorsHandler_Error, storeErrorsHandler.
    by rewrite lookup_empty.
  - destruct qry as [q|], qry' as [q'|]; cbn; split; done.
Qed.

(** X12. With a [storeErrorsHandler] registered as the last error
    handler of a bus, the error a failing [Query] returns is the one the
    handler holds for that query afterwards. *)
Theorem storeErrors_holds_what_Query_returned
    (time_Now : storeErrorsHandler -> Time) (bus : Bus storeErrorsHandler)
    (hdls : list (ErrorHandler storeErrorsHandler)) (id : nat)
    (ctx : Ctx) (qry : Query) (st : Store storeErrorsHandler) (err : Err) :
  errorHandlers bus = hdls ++ [storeErrors id] ->
  (Bus_Query time_Now bus ctx qry st).1.1.2 = Some err ->
  storeErrorsHandler_Error (world (Bus_Query time_Now bus ctx qry st).1.2) qry
  = Some err.
Proof.
  intros Hh He.
  destruct (Bus_Query_failure_world _ time_Now bus ctx qry st err He)
    as [w1 ->].
  unfold fanout_world. rewrite Hh, fold_left_app. cbn.
  unfold storeErrorsHandler_Error, storeErrorsHandler_Handle,
    storeErrorsHandler.
  by rewrite lookup_insert_eq.
Qed.

Lemma HandlerPosition_fold (ps : list Z) :
  forall (c : nat) (u : Z),
    (Z.of_nat c + Z.of_nat (length ps) <= uint32_modulus)%Z ->
    position (fold_left HandlerPosition ps
                {| position := Z.of_nat c mod uint32_modulus;
                   unordered := u |})
    = (Z.of_nat (c + length ps) mod uint32_modulus)%Z
    /\ (IsUnordered (fold_left HandlerPosition ps
                       {| position := Z.of_nat c mod uint32_modulus;
                          unordered := u |}) = false
        <-> (u =? 1)%Z = false /\ ps = map Z.of_nat (seq c (length ps))).
Proof.
  induction ps as [|p rest IH]; intros c u Hlen.
  - cbn. rewrite Nat.add_0_r. split; [done|]. unfold IsUnordered. cbn.
    split; [by intros -> | by intros [-> _]].
  - cbn [length] in Hlen.
    assert (Hc : (Z.of_nat c mod uint32_modulus = Z.of_nat c)%Z).
    { apply Z.mod_small. lia. }
    cbn [fold_left]. unfold HandlerPosition at 2 4.
    cbn [position unordered]. unfold AddUint32. rewrite Hc.
    replace (Z.of_nat c + 1)%Z with (Z.of_nat (S c)) by lia.
    destruct (IH (S c)
                 (if negb (p =? Z.of_nat c)%Z then 1%Z else u)) as [IHp IHu];
      [lia|].
    rewrite IHp, IHu. cbn [length seq map].
    replace (S c + length rest) with (c + S (length rest)) by lia.
    split; [done|].
    destruct (Z.eqb_spec p (Z.of_nat c)) as [->|Hne]; cbn [negb].
    + split; intros [Hu Hr]; (split; [done|]); congruence.
    + split; [by intros [[=] _]|]. intros [_ [= Hp _]]. done.
Qed.

(** X13. The order detector of the tests: after any sequence of
    [HandlerPosition] calls on a fresh query, at most 2^32 of them,
    [IsUnordered] is false exactly when the i-th call carried the
    position i; the counter then holds the number of calls, and a query
    found unordered stays so. *)
Theorem HandlerPosition_detects_order (ps : list Z) :
  (Z.of_nat (length ps) <= uint32_modulus)%Z ->
  position (fold_left HandlerPosition ps {| position := 0; unordered := 0 |})
  = (Z.of_nat (length ps) mod uint32_modulus)%Z
  /\ (IsUnordered
        (fold_left HandlerPosition ps {| position := 0; unordered := 0 |})
      = false
      <-> ps = map Z.of_nat (seq 0 (length ps)))
  /\ forall (qry : testHandlerOrderQuery) (pos : Z),
       IsUnordered qry = true ->
       IsUnordered (HandlerPosition qry pos) = true.
Proof.
  intros Hlen.
  destruct (HandlerPosition_fold ps 0 0) as [Hp Hu]; [cbn; lia|].
  cbn in Hp, Hu. split; [exact Hp|]. split.
  - rewrite Hu. split; [by intros [_ ?] | done].
  - intros qry pos. unfold IsUnordered, HandlerPosition. cbn.
    intros Hq. by destruct (negb _).
Qed.


(** * The further properties on the scenarios *)

Lemma quiescent_sysPending : quiescent sysPending.
Proof.
  constructor; cbn; try done.
  - by right.
  - repeat constructor; by left.
Defined.

Lemma quiescent_sysPendingCalled : quiescent sysPendingCalled.
Proof.
  constructor; cbn; try done.
  - by right.
  - repeat constructor; by left.
Defined.

Lemma quiescent_sysReadyCalled : quiescent sysReadyCalled.
Proof.
  constructor; cbn; try done.
  - by right.
  - repeat constructor; by left.
Defined.

(** The pool flags make no difference to a synchronous query. *)
Lemma Query_ignores_the_pool_witness :
  same_dispatch busTwoAdapters
                (set_shuttingDown 1 (set_initialized 1 busTwoAdapters))
  /\ Bus_Query clock (set_shuttingDown 1 (set_initialized 1 busTwoAdapters))
               "ctx" qUUID store0
     = Bus_Query clock busTwoAdapters "ctx" qUUID store0
  /\ iters (Bus_Query clock busTwoAdapters "ctx" qUUID store0).1.2
     = iters store0.
Proof.
  assert (Hs : same_dispatch
                 busTwoAdapters
                 (set_shuttingDown 1 (set_initialized 1 busTwoAdapters))).
  { repeat split. }
  split; [exact Hs|].
  exact (Query_ignores_the_pool nat clock busTwoAdapters _ "ctx" qUUID store0
           Hs).
Defined.

(** A bus fresh from [NewBus], with an error handler, asked a query. *)
Lemma Query_without_handlers_witness :
  handlers busPool = []
  /\ (result busPool "ctx" qUUID store0).1.1.2 = false
  /\ Bus_Query clock busPool "ctx" qUUID store0
     = (Some newResult, Some (NewErrorNoQueryHandlersFound qUUID), store0,
        [EvError 0 qUUID (NewErrorNoQueryHandlersFound qUUID)]).
Proof.
  split; [reflexivity|]. split; [reflexivity|].
  exact (Query_without_handlers nat clock busPool "ctx"
           {| ID := "UUID"; cacheable := None |} store0 eq_refl eq_refl).
Defined.

(** The count of the two workers of the ready pool. *)
Lemma iteratorWorkerDown_undoes_Up_witness :
  (0 <= iteratorWorkers (sys_bus sysReady) < uint32_modulus)%Z
  /\ iteratorWorkerDown (iteratorWorkerUp (sys_bus sysReady))
     = sys_bus sysReady
  /\ iteratorWorkerUp (iteratorWorkerDown (sys_bus sysReady))
     = sys_bus sysReady
  /\ iteratorWorkers (iteratorWorkerDown (sys_bus sysReady)) = 1%Z.
Proof.
  assert (H : (0 <= iteratorWorkers (sys_bus sysReady) < uint32_modulus)%Z)
    by (cbn; unfold uint32_modulus; lia).
  split; [exact H|].
  exact (iteratorWorkerDown_undoes_Up nat (sys_bus sysReady) H).
Defined.

(** The ready pool is initialized. *)
Lemma configuration_frozen_while_initialized_witness :
  initialized (sys_bus sysReady) = 1%Z
  /\ forall tr s,
       steps sysReady tr s ->
       countb is_reset_initialized tr = 0 ->
       (forall n, IteratorWorkerPoolSize (sys_bus s) n = sys_bus s)
       /\ (forall n, IteratorQueueBuffer (sys_bus s) n = sys_bus s)
       /\ (forall hdls, InitializeIteratorHandlers s hdls = Some s)
       /\ same_config (sys_bus sysReady) (sys_bus s)
       /\ (forall n ctx qry h e s1 tr1,
             Bus_IteratorQuery
               (with_bus (IteratorResultBuffer (sys_bus s) n) s) ctx qry
             = Some (Some h, e, s1, tr1) ->
             h = length (iters (sys_store s))
             /\ iters (sys_store s1) !!! h = newIteratorResult n).
Proof.
  split; [reflexivity|].
  exact (configuration_frozen_while_initialized nat sysReady eq_refl).
Defined.

(** A bus without workers on the default queue, where a query is left
    waiting, and on an unbuffered queue, where its send blocks. *)
Lemma pool_without_workers_serves_nothing_witness :
  sys_workers sysNoPool = []
  /\ initialized (sys_bus sysNoPool) = 0%Z
  /\ shuttingDown (sys_bus sysNoPool) = 0%Z
  /\ (iteratorWorkerPoolSize (sys_bus sysNoPool) <= 0)%Z
  /\ (0 <= iteratorQueueBuffer (sys_bus sysNoPool))%Z
  /\ (exists s0,
        InitializeIteratorHandlers sysNoPool [barIteratorHandler 0] = Some s0
        /\ sys_workers s0 = []
        /\ isInitialized (sys_bus s0) = true
        /\ iteratorQueryQueue (sys_bus s0) = []
        /\ (exists s1,
              Bus_IteratorQuery s0 "ctx" qUUID = Some (Some 0, None, s1, [])
              /\ iteratorQueryQueue (sys_bus s1) = [Some (penUUID 0)])
        /\ forall tr s1,
             steps s0 tr s1 ->
             sys_workers s1 = []
             /\ countb is_iterator_handle tr = 0
             /\ closes tr = [])
  /\ sys_workers sysNoPoolUnbuffered = []
  /\ initialized (sys_bus sysNoPoolUnbuffered) = 0%Z
  /\ shuttingDown (sys_bus sysNoPoolUnbuffered) = 0%Z
  /\ (iteratorWorkerPoolSize (sys_bus sysNoPoolUnbuffered) <= 0)%Z
  /\ (0 <= iteratorQueueBuffer (sys_bus sysNoPoolUnbuffered))%Z
  /\ exists s0,
       InitializeIteratorHandlers sysNoPoolUnbuffered [barIteratorHandler 0]
       = Some s0
       /\ isInitialized (sys_bus s0) = true
       /\ Bus_IteratorQuery s0 "ctx" qUUID = None.
Proof.
  assert (Hsize : (iteratorWorkerPoolSize (sys_bus sysNoPool) <= 0)%Z)
    by (cbn; lia).
  assert (Hbuf : (0 <= iteratorQueueBuffer (sys_bus sysNoPool))%Z)
    by (cbn; lia).
  assert (Hsize' : (iteratorWorkerPoolSize (sys_bus sysNoPoolUnbuffered)
                    <= 0)%Z) by (cbn; lia).
  assert (Hbuf' : (0 <= iteratorQueueBuffer (sys_bus sysNoPoolUnbuffered))%Z)
    by (cbn; lia).
  do 3 (split; [reflexivity|]). split; [exact Hsize|]. split; [exact Hbuf|].
  split.
  { destruct (pool_without_workers_serves_nothing nat
                sysNoPool [barIteratorHandler 0]
                eq_refl eq_refl eq_refl Hsize Hbuf)
      as (s0 & Hinit & Hw & Hup & Hq & Hsend & Hrun).
    exists s0. do 4 (split; [assumption|]). split; [|exact Hrun].
    assert (Hlen : length (iters (sys_store s0)) = 0).
    { injection Hinit as <-. reflexivity. }
    rewrite <- Hlen. exact (Hsend "ctx" {| ID := "UUID"; cacheable := None |}). }
  do 3 (split; [reflexivity|]). split; [exact Hsize'|]. split; [exact Hbuf'|].
  destruct (pool_without_workers_serves_nothing nat
              sysNoPoolUnbuffered [barIteratorHandler 0]
              eq_refl eq_refl eq_refl Hsize' Hbuf')
    as (s0 & Hinit & Hw & Hup & Hq & Hsend & Hrun).
  exists s0. do 2 (split; [assumption|]).
  exact (Hsend "ctx" {| ID := "UUID"; cacheable := None |}).
Defined.

(** Two workers take the two queries in the order of the queue, and
    the second is the first to serve: the later query is closed first,
    and each result is closed once. *)
Lemma results_closed_once_however_workers_race_witness :
  race_wf raceTwo
  /\ race_steps raceTwo
                [EvIteratorHandle 0 qUUID 1; EvClose 1;
                 EvIteratorHandle 0 qUUID 0; EvClose 0]
                raceTwoServed
  /\ in_flight raceTwo = [0; 1]
  /\ closes [EvIteratorHandle 0 qUUID 1; EvClose 1;
             EvIteratorHandle 0 qUUID 0; EvClose 0] = [1; 0]
  /\ exists k,
       length (iters (race_store raceTwoServed))
       = length (iters (race_store raceTwo)) + k
       /\ [1; 0] ++ in_flight raceTwoServed
          ⊆+ in_flight raceTwo ++ seq (length (iters (race_store raceTwo))) k
       /\ NoDup [1; 0]
       /\ (forall h, h ∈ [1; 0] ->
             (h ∉ in_flight raceTwoServed)
             /\ (h ∈ in_flight raceTwo
                 \/ length (iters (race_store raceTwo)) <= h
                    < length (iters (race_store raceTwoServed))))
       /\ race_wf raceTwoServed.
Proof.
  assert (Hwf : race_wf raceTwo).
  { split.
    - apply (NoDup_cons_2 0 [1]); [|apply NoDup_singleton].
      intros Hin. apply list_elem_of_singleton in Hin. discriminate.
    - repeat constructor. }
  assert (Hrun : race_steps raceTwo
                   [EvIteratorHandle 0 qUUID 1; EvClose 1;
                    EvIteratorHandle 0 qUUID 0; EvClose 0]
                   raceTwoServed).
  { apply (race_run_steps nat [AWorker 0; AWorker 1; AWorker 1; AWorker 0]).
    vm_compute. reflexivity. }
  split; [exact Hwf|]. split; [exact Hrun|].
  split; [reflexivity|]. split; [reflexivity|].
  exact (results_closed_once_however_workers_race nat raceTwo
           [EvIteratorHandle 0 qUUID 1; EvClose 1;
            EvIteratorHandle 0 qUUID 0; EvClose 0]
           raceTwoServed Hwf Hrun).
Defined.

(** A [Shutdown] called on the pool with one query pending, run to its
    return: the flags are reset, and the query has left the queue. *)
Lemma pending_queries_leave_before_teardown_witness :
  quiescent sysPendingCalled
  /\ Forall is_Some (iteratorQueryQueue (sys_bus sysPendingCalled))
  /\ 0 < live (sys_workers sysPendingCalled)
  /\ steps sysPendingCalled shutdownOfPending sysPendingDown
  /\ 0 < countb is_teardown shutdownOfPending
  /\ Some (penUUID 0) ∈ iteratorQueryQueue (sys_bus sysPendingCalled)
  /\ (None ∉ iteratorQueryQueue (sys_bus sysPendingDown))
  /\ forall penQry,
       Some penQry ∈ iteratorQueryQueue (sys_bus sysPendingCalled) ->
       Some penQry ∉ iteratorQueryQueue (sys_bus sysPendingDown).
Proof.
  assert (Hitems : Forall is_Some
                     (iteratorQueryQueue (sys_bus sysPendingCalled))).
  { repeat constructor. by eexists. }
  assert (Hlive : 0 < live (sys_workers sysPendingCalled)) by (cbn; lia).
  assert (Hrun : steps sysPendingCalled shutdownOfPending sysPendingDown).
  { apply (run_steps nat (shutdown_actions 0 sysPendingCalled)).
    vm_compute. reflexivity. }
  assert (Htear : 0 < countb is_teardown shutdownOfPending) by (cbn; lia).
  split; [exact quiescent_sysPendingCalled|]. split; [exact Hitems|].
  split; [exact Hlive|]. split; [exact Hrun|]. split; [exact Htear|].
  split; [by apply list_elem_of_singleton|].
  exact (pending_queries_leave_before_teardown nat sysPendingCalled
           shutdownOfPending sysPendingDown
           quiescent_sysPendingCalled Hitems Hlive Hrun Htear).
Defined.

(** A worker serving the query of the listening consumer. *)
Lemma iterator_queries_are_not_cached_witness :
  exists s tr,
    steps sysListening tr s
    /\ tr = [EvIteratorHandle 0 qUUID 0; EvClose 0]
    /\ countb is_cache_read tr = 0
    /\ countb is_cache_write tr = 0
    /\ countb is_handle tr = 0.
Proof.
  assert (Hrun : exists s,
            steps sysListening [EvIteratorHandle 0 qUUID 0; EvClose 0] s).
  { eexists.
    apply (steps_snoc (AWorker 0) (steps_refl sysListening)).
    reflexivity. }
  destruct Hrun as [s Hrun].
  exists s, [EvIteratorHandle 0 qUUID 0; EvClose 0].
  split; [exact Hrun|]. split; [reflexivity|].
  exact (iterator_queries_are_not_cached nat sysListening _ s Hrun).
Defined.

(** The bus of the tests asked a query nobody handles. *)
Lemma storeErrors_holds_what_Query_returned_witness :
  errorHandlers busStoringErrors = [] ++ [storeErrors 0]
  /\ (Bus_Query stillClock busStoringErrors "ctx" qUUID
                {| world := ∅; iters := [] |}).1.1.2
     = Some (NewErrorNoQueryHandlersFound qUUID)
  /\ storeErrorsHandler_Error
       (world (Bus_Query stillClock busStoringErrors "ctx" qUUID
                         {| world := ∅; iters := [] |}).1.2) qUUID
     = Some (NewErrorNoQueryHandlersFound qUUID).
Proof.
  split; [reflexivity|]. split; [reflexivity|].
  exact (storeErrors_holds_what_Query_returned stillClock busStoringErrors
           [] 0 "ctx" qUUID {| world := ∅; iters := [] |}
           (NewErrorNoQueryHandlersFound qUUID) eq_refl eq_refl).
Defined.

(** Three handlers called in order. *)
Lemma HandlerPosition_detects_order_witness :
  (Z.of_nat (length [0; 1; 2]%Z) <= uint32_modulus)%Z
  /\ position (fold_left HandlerPosition [0; 1; 2]%Z
                 {| position := 0; unordered := 0 |})
     = (Z.of_nat (length [0; 1; 2]%Z) mod uint32_modulus)%Z
  /\ (IsUnordered
        (fold_left HandlerPosition [0; 1; 2]%Z
           {| position := 0; unordered := 0 |})
      = false
      <-> [0; 1; 2]%Z = map Z.of_nat (seq 0 (length [0; 1; 2]%Z)))
  /\ forall (qry : testHandlerOrderQuery) (pos : Z),
       IsUnordered qry = true ->
       IsUnordered (HandlerPosition qry pos) = true.
Proof.
  assert (H : (Z.of_nat (length [0; 1; 2]%Z) <= uint32_modulus)%Z)
    by (cbn; unfold uint32_modulus; lia).
  split; [exact H|].
  exact (HandlerPosition_detects_order [0; 1; 2]%Z H).
Defined.

(** A [Shutdown] on the ready pool, up to the first acknowledgement:
    the count is two, one live worker and the caller about to decrement,
    and the decrement leaves one. *)
Lemma worker_count_never_wraps_witness :
  quiescent sysReadyCalled
  /\ steps sysReadyCalled [EvSentinel; EvClosed 0] sysReadyAtDown
  /\ sys_callers sysReadyAtDown !! 0 = Some SDown
  /\ iteratorWorkers (sys_bus sysReadyAtDown) = 2%Z
  /\ live (sys_workers sysReadyAtDown) = 1
  /\ step sysReadyAtDown (ACaller 0)
     = Some (with_caller 0 SLoop
               (with_bus (set_iteratorWorkers 1 (sys_bus sysReadyAtDown))
                         sysReadyAtDown), []).
Proof.
  assert (Hrun : steps sysReadyCalled [EvSentinel; EvClosed 0]
                       sysReadyAtDown).
  { apply (run_steps nat
             [ACaller 0; ACaller 0; ACaller 0; AWorker 0; AAck 0 0]).
    vm_compute. reflexivity. }
  split; [exact quiescent_sysReadyCalled|]. split; [exact Hrun|].
  split; [reflexivity|]. split; [reflexivity|]. split; [reflexivity|].
  exact (proj2 (proj2 (proj2 (proj2
           (worker_count_never_wraps nat sysReadyCalled
              [EvSentinel; EvClosed 0] sysReadyAtDown
              quiescent_sysReadyCalled Hrun))) 0 eq_refl)).
Defined.
